(** * Crash round engine: provably-fair oracle, price service and round
    state machine of the GameManager, embedded from the JavaScript sources.

    Numbers.  JavaScript numbers are IEEE doubles.  The fairness oracle needs
    the natural logarithm, so its numbers are modelled as exact reals extended
    with the two infinities and NaN ([jsnum]); money, prices, timestamps and
    multipliers of the engine are exact rationals ([Q]).  The rounding of an
    operation on doubles is [Binary64.binary64].  The event loop computes
    without it; [placeBet_rounded] and [cashOut_rounded] are [placeBet] and
    [cashOut] with it, and the socket handlers and the deposit route call
    the engine on doubles.  What is stated of [placeBet], [cashOut] and the
    event loop is stated of exact sums and products. *)

From Stdlib Require Import ZArith List String Ascii Bool Lia.
From Stdlib Require Import QArith Qround Qabs Reals Lra.
Import ListNotations.

(* ===================================================================== *)
(** ** Node's [crypto]: SHA-256, HMAC and hex digests

    [crypto.createHash('sha256')] and [crypto.createHmac('sha256', key)] are
    library code; they are written out (FIPS 180-4, RFC 2104) so that digests
    can be evaluated.  A byte is an [ascii]; a 32-bit word is a [Z] kept
    below [2^32]. *)

Module Sha256.
Local Open Scope list_scope.
Local Open Scope Z_scope.

Definition wrap32 (x : Z) : Z := x mod 4294967296.

Definition rotr (n x : Z) : Z :=
  Z.lor (Z.shiftr x n) (wrap32 (Z.shiftl x (32 - n))).

Definition Ch (x y z : Z) : Z :=
  Z.lxor (Z.land x y) (Z.land (Z.lnot x) z).

Definition Maj (x y z : Z) : Z :=
  Z.lxor (Z.lxor (Z.land x y) (Z.land x z)) (Z.land y z).

Definition bigSigma0 (x : Z) : Z :=
  Z.lxor (Z.lxor (rotr 2 x) (rotr 13 x)) (rotr 22 x).

Definition bigSigma1 (x : Z) : Z :=
  Z.lxor (Z.lxor (rotr 6 x) (rotr 11 x)) (rotr 25 x).

Definition smallSigma0 (x : Z) : Z :=
  Z.lxor (Z.lxor (rotr 7 x) (rotr 18 x)) (Z.shiftr x 3).

Definition smallSigma1 (x : Z) : Z :=
  Z.lxor (Z.lxor (rotr 17 x) (rotr 19 x)) (Z.shiftr x 10).

(** The round constants and the initial hash value are the first 32 bits
    of the fractional parts of the cube roots of the first 64 primes, and of
    the square roots of the first 8. *)
Definition is_prime (n : nat) : bool :=
  forallb (fun d => negb (Nat.eqb (n mod d) 0)) (seq 2 (n - 2)).

Definition primes : list Z := map Z.of_nat (filter is_prime (seq 2 310)).

(** The largest [r] below [2^bits] with [r^k <= n], bit by bit. *)
Fixpoint iroot (k : positive) (n : Z) (bits : nat) (r : Z) : Z :=
  match bits with
  | O => r
  | S bits' =>
      let r' := r + 2 ^ Z.of_nat bits' in
      iroot k n bits' (if Z.pow_pos r' k <=? n then r' else r)
  end.

Definition K256 : list Z :=
  Eval vm_compute in
    map (fun p => wrap32 (iroot 3 (p * 2 ^ 96) 40 0)) primes.

Definition H0 : list Z :=
  Eval vm_compute in
    map (fun p => wrap32 (iroot 2 (p * 2 ^ 64) 40 0)) (firstn 8 primes).

(** Big-endian packing of bytes into a number and back. *)
Definition be_of_bytes (bs : list ascii) : Z :=
  fold_left (fun acc b => acc * 256 + Z.of_N (N_of_ascii b)) bs 0.

Definition byte_of_Z (x : Z) : ascii := ascii_of_N (Z.to_N (x mod 256)).

Definition bytes_of_word (x : Z) : list ascii :=
  [ byte_of_Z (Z.shiftr x 24); byte_of_Z (Z.shiftr x 16);
    byte_of_Z (Z.shiftr x 8); byte_of_Z x ].

Definition bytes_of_len64 (x : Z) : list ascii :=
  bytes_of_word (Z.shiftr x 32) ++ bytes_of_word x.

(** Padding: a 0x80 byte, zero bytes up to 56 mod 64, the bit length on
    eight bytes. *)
Definition pad (msg : list ascii) : list ascii :=
  let len := Z.of_nat (List.length msg) in
  let zeros := Z.to_nat ((55 - len) mod 64) in
  msg ++ ascii_of_N 128 :: repeat zero zeros ++ bytes_of_len64 (8 * len).

Fixpoint words_of_bytes (bs : list ascii) : list Z :=
  match bs with
  | b0 :: b1 :: b2 :: b3 :: rest =>
      be_of_bytes [b0; b1; b2; b3] :: words_of_bytes rest
  | _ => []
  end.

(** The message schedule, most recent word first. *)
Fixpoint schedule (n : nat) (ws : list Z) : list Z :=
  match n with
  | O => ws
  | S n' =>
      let w := wrap32 (smallSigma1 (nth 1 ws 0) + nth 6 ws 0
                       + smallSigma0 (nth 14 ws 0) + nth 15 ws 0) in
      schedule n' (w :: ws)
  end.

Record regs := Regs { ra : Z; rb : Z; rc : Z; rd : Z;
                      re : Z; rf : Z; rg : Z; rh : Z }.

Definition round (r : regs) (kw : Z * Z) : regs :=
  let t1 := wrap32 (rh r + bigSigma1 (re r) + Ch (re r) (rf r) (rg r)
                    + fst kw + snd kw) in
  let t2 := wrap32 (bigSigma0 (ra r) + Maj (ra r) (rb r) (rc r)) in
  Regs (wrap32 (t1 + t2)) (ra r) (rb r) (rc r)
       (wrap32 (rd r + t1)) (re r) (rf r) (rg r).

Definition regs_of_list (h : list Z) : regs :=
  Regs (nth 0 h 0) (nth 1 h 0) (nth 2 h 0) (nth 3 h 0)
       (nth 4 h 0) (nth 5 h 0) (nth 6 h 0) (nth 7 h 0).

Definition list_of_regs (r : regs) : list Z :=
  [ra r; rb r; rc r; rd r; re r; rf r; rg r; rh r].

Definition compress (h : list Z) (block : list Z) : list Z :=
  let ws := rev (schedule 48 (rev block)) in
  let r := fold_left round (combine K256 ws) (regs_of_list h) in
  map (fun p => wrap32 (fst p + snd p)) (combine h (list_of_regs r)).

(** One 512-bit block is sixteen words. *)
Fixpoint blocks (n : nat) (ws : list Z) : list (list Z) :=
  match n with
  | O => []
  | S n' =>
      match ws with
      | [] => []
      | _ => firstn 16 ws :: blocks n' (skipn 16 ws)
      end
  end.

Definition sha256 (msg : list ascii) : list ascii :=
  let ws := words_of_bytes (pad msg) in
  let h := fold_left compress (blocks (List.length ws) ws) H0 in
  flat_map bytes_of_word h.

(** RFC 2104 with a 64-byte block. *)
Definition xor_byte (c : Z) (b : ascii) : ascii :=
  byte_of_Z (Z.lxor c (Z.of_N (N_of_ascii b))).

Definition hmac_key (key : list ascii) : list ascii :=
  let k := if (64 <? List.length key)%nat then sha256 key else key in
  k ++ repeat zero (64 - List.length k).

Definition hmac_sha256 (key msg : list ascii) : list ascii :=
  let k := hmac_key key in
  sha256 (map (xor_byte 0x5c) k ++ sha256 (map (xor_byte 0x36) k ++ msg)).

(** A lower-case hexadecimal digit, [0-9a-f]. *)
Definition is_lower_hex (c : ascii) : bool :=
  let n := N_of_ascii c in
  ((48 <=? n)%N && (n <=? 57)%N) || ((97 <=? n)%N && (n <=? 102)%N).

(** [digest('hex')]: two lower-case hexadecimal digits per byte. *)
Definition hex_digit (n : N) : ascii :=
  if (n <? 10)%N then ascii_of_N (48 + n) else ascii_of_N (87 + n).

Definition hex_of_byte (b : ascii) : list ascii :=
  let n := N_of_ascii b in [hex_digit (n / 16)%N; hex_digit (n mod 16)%N].

Definition hex (bs : list ascii) : string :=
  string_of_list_ascii (flat_map hex_of_byte bs).

End Sha256.

(* ===================================================================== *)
(** ** JavaScript numbers of the fairness oracle

    Exact reals with [Infinity], [-Infinity] and [NaN].  Signed zeros are not
    distinguished; the only divisors in the code are non-zero constants. *)

Module JSNum.
Local Open Scope R_scope.

Inductive jsnum : Type :=
| Fin (r : R)
| PInf
| NInf
| NaN.

(** [ToBoolean]: [0] and [NaN] are falsy. *)
Definition js_truthy (a : jsnum) : bool :=
  match a with
  | Fin r => if Req_dec_T r 0 then false else true
  | NaN => false
  | _ => true
  end.

(** [a || b] on numbers. *)
Definition js_or (a b : jsnum) : jsnum := if js_truthy a then a else b.

Definition js_neg (a : jsnum) : jsnum :=
  match a with
  | Fin r => Fin (- r)
  | PInf => NInf
  | NInf => PInf
  | NaN => NaN
  end.

Definition js_add (a b : jsnum) : jsnum :=
  match a, b with
  | NaN, _ | _, NaN => NaN
  | Fin x, Fin y => Fin (x + y)
  | PInf, NInf | NInf, PInf => NaN
  | PInf, _ | _, PInf => PInf
  | NInf, _ | _, NInf => NInf
  end.

Definition js_sub (a b : jsnum) : jsnum := js_add a (js_neg b).

Definition js_div (a b : jsnum) : jsnum :=
  match a, b with
  | NaN, _ | _, NaN => NaN
  | Fin x, Fin y =>
      if Req_dec_T y 0 then
        if Req_dec_T x 0 then NaN
        else if Rlt_dec 0 x then PInf else NInf
      else Fin (x / y)
  | Fin _, _ => Fin 0
  | PInf, Fin y => if Rlt_dec y 0 then NInf else PInf
  | NInf, Fin y => if Rlt_dec y 0 then PInf else NInf
  | _, _ => NaN
  end.

(** [Math.log]. *)
Definition js_log (a : jsnum) : jsnum :=
  match a with
  | Fin x =>
      if Rlt_dec 0 x then Fin (ln x)
      else if Req_dec_T x 0 then NInf else NaN
  | PInf => PInf
  | _ => NaN
  end.

(** [a < b]; every comparison with [NaN] is false. *)
Definition js_ltb (a b : jsnum) : bool :=
  match a, b with
  | Fin x, Fin y => if Rlt_dec x y then true else false
  | NInf, Fin _ | NInf, PInf | Fin _, PInf => true
  | _, _ => false
  end.

(** [Math.max] and [Math.min]: [NaN] if an argument is [NaN]. *)
Definition js_max (a b : jsnum) : jsnum :=
  match a, b with
  | NaN, _ | _, NaN => NaN
  | _, _ => if js_ltb a b then b else a
  end.

Definition js_min (a b : jsnum) : jsnum :=
  match a, b with
  | NaN, _ | _, NaN => NaN
  | _, _ => if js_ltb b a then b else a
  end.

Definition js_abs (a : jsnum) : jsnum :=
  match a with
  | Fin r => Fin (Rabs r)
  | NaN => NaN
  | _ => PInf
  end.

(** [parseFloat(x.toFixed(2))]: the nearest multiple of 1/100, the larger
    magnitude on a tie. *)
Definition js_toFixed2 (a : jsnum) : jsnum :=
  match a with
  | Fin r =>
      if Rlt_dec r 0 then Fin (- (IZR (up (100 * (- r) - 1 / 2)) / 100))
      else Fin (IZR (up (100 * r - 1 / 2)) / 100)
  | _ => a
  end.

(** [parseInt(s, 16)] on a string of hexadecimal digits: the digits up to
    the first character that is not one, [NaN] when there is none.  (White
    space, a sign and a [0x] prefix never occur in a digest.) *)
Definition hex_value (c : ascii) : option Z :=
  let n := N_of_ascii c in
  if (48 <=? n)%N && (n <=? 57)%N then Some (Z.of_N n - 48)%Z
  else if (97 <=? n)%N && (n <=? 102)%N then Some (Z.of_N n - 87)%Z
  else if (65 <=? n)%N && (n <=? 70)%N then Some (Z.of_N n - 55)%Z
  else None.

Fixpoint hex_digits (s : string) (acc : Z) : Z :=
  match s with
  | EmptyString => acc
  | String c s' =>
      match hex_value c with
      | Some d => hex_digits s' (16 * acc + d)%Z
      | None => acc
      end
  end.

Definition parseInt16 (s : string) : jsnum :=
  match s with
  | EmptyString => NaN
  | String c _ =>
      match hex_value c with
      | Some _ => Fin (IZR (hex_digits s 0))
      | None => NaN
      end
  end.

End JSNum.
Import JSNum.

(* ===================================================================== *)
(** ** Process environment *)

Record Env : Type := mkEnv {
  PROVABLY_FAIR_SECRET : option string;
  (** [parseFloat(process.env.MAX_CRASH_MULTIPLIER)], [NaN] when unset *)
  MAX_CRASH_MULTIPLIER : jsnum;
  (** [parseFloat(process.env.MIN_CRASH_MULTIPLIER)], [NaN] when unset *)
  MIN_CRASH_MULTIPLIER : jsnum
}.

(** [v || d] on an environment string: unset and empty are falsy. *)
Definition str_or (v : option string) (d : string) : string :=
  match v with
  | Some EmptyString | None => d
  | Some s => s
  end.

(** No variable set. *)
Definition default_env : Env := mkEnv None NaN NaN.

(** [createHmac('sha256', key).update(msg).digest('hex')] *)
Definition createHmac_hex (key msg : string) : string :=
  Sha256.hex (Sha256.hmac_sha256 (list_ascii_of_string key)
                                 (list_ascii_of_string msg)).

(** [createHash('sha256').update(msg).digest('hex')] *)
Definition createHash_hex (msg : string) : string :=
  Sha256.hex (Sha256.sha256 (list_ascii_of_string msg)).

(* ===================================================================== *)
(** ** models/: the documents

    One module per schema, fields under their source names. *)

Inductive Currency : Type := BTC | ETH | USDT.

Definition currency_name (c : Currency) : string :=
  match c with
  | BTC => "BTC"
  | ETH => "ETH"
  | USDT => "USDT"
  end.

Definition Currency_eqb (a b : Currency) : bool :=
  match a, b with
  | BTC, BTC | ETH, ETH | USDT, USDT => true
  | _, _ => false
  end.

(** The member of [['BTC', 'ETH', 'USDT']] a string is, if
    [includes] finds it. *)
Definition currency_of (symbol : string) : option Currency :=
  if String.eqb symbol "BTC" then Some BTC
  else if String.eqb symbol "ETH" then Some ETH
  else if String.eqb symbol "USDT" then Some USDT
  else None.

Inductive Status : Type := waiting | active | crashed | completed.

Definition Status_eqb (a b : Status) : bool :=
  match a, b with
  | waiting, waiting | active, active
  | crashed, crashed | completed, completed => true
  | _, _ => false
  end.

Definition status_name (s : Status) : string :=
  match s with
  | waiting => "waiting"
  | active => "active"
  | crashed => "crashed"
  | completed => "completed"
  end.

Module Payout.
Record t : Type := mk { cryptoAmount : Q; usdAmount : Q }.
End Payout.

Module Bet.
Record t : Type := mk {
  playerId : string;
  usdAmount : Q;
  cryptoAmount : Q;
  cryptocurrency : Currency;
  priceAtTime : Q;
  cashedOut : bool;
  cashoutMultiplier : option Q;
  payout : option Payout.t;
  transactionHash : string
}.
End Bet.

Module GameRound.
(** [num] is the representation of the crash point: a rational in the
    engine, which only compares it with multipliers, and a [jsnum] in the
    verification route, which compares it with a recomputed logarithm. *)
Record t {num : Type} : Type := mk {
  roundId : string;
  startTime : Z;
  endTime : option Z;
  crashPoint : num;
  seed : string;
  seedHash : string;
  bets : list Bet.t;
  status : Status;
  maxMultiplier : Q
}.
Arguments t : clear implicits.
End GameRound.

Module Wallet.
Record t : Type := mk { wBTC : Q; wETH : Q; wUSDT : Q }.

(** [wallet[cryptocurrency]] *)
Definition get (w : t) (c : Currency) : Q :=
  match c with
  | BTC => wBTC w
  | ETH => wETH w
  | USDT => wUSDT w
  end.

Definition set (w : t) (c : Currency) (v : Q) : t :=
  match c with
  | BTC => mk v (wETH w) (wUSDT w)
  | ETH => mk (wBTC w) v (wUSDT w)
  | USDT => mk (wBTC w) (wETH w) v
  end.
End Wallet.

Module Player.
Record t : Type := mk {
  playerId : string;
  username : string;
  wallet : Wallet.t;
  totalGamesPlayed : Z;
  totalWon : Q;
  totalLost : Q
}.

(** [Player.findOne({ playerId })] *)
Definition findOne (db : list t) (pid : string) : option t :=
  find (fun p => String.eqb (playerId p) pid) db.

(** [player.save()]: the stored document of that player is replaced. *)
Fixpoint save (db : list t) (p : t) : list t :=
  match db with
  | [] => []
  | q :: rest =>
      if String.eqb (playerId q) (playerId p) then p :: rest
      else q :: save rest p
  end.
End Player.

Inductive TxType : Type := tx_bet | tx_cashout | tx_deposit | tx_withdrawal.

Definition TxType_eqb (a b : TxType) : bool :=
  match a, b with
  | tx_bet, tx_bet | tx_cashout, tx_cashout | tx_deposit, tx_deposit
  | tx_withdrawal, tx_withdrawal => true
  | _, _ => false
  end.

(** The member of [['bet', 'cashout', 'deposit', 'withdrawal']] a string
    is, if [includes] finds it. *)
Definition type_of (s : string) : option TxType :=
  if String.eqb s "bet" then Some tx_bet
  else if String.eqb s "cashout" then Some tx_cashout
  else if String.eqb s "deposit" then Some tx_deposit
  else if String.eqb s "withdrawal" then Some tx_withdrawal
  else None.

Module Transaction.
Record t : Type := mk {
  transactionId : string;
  playerId : string;
  roundId : string;
  type : TxType;
  usdAmount : Q;
  cryptoAmount : Q;
  cryptocurrency : Currency;
  priceAtTime : Q;
  transactionHash : string;
  multiplier : option Q;
  balanceAfter : Wallet.t
}.
End Transaction.

(** JSON values of event payloads and responses. *)
#[warnings="-register-all"]
Inductive jsval : Type :=
| VStr (s : string)
| VNum (q : Q)
| VReal (x : jsnum)
| VBool (b : bool)
| VNull
| VObj (fields : list (string * jsval)).

Definition payload : Type := list (string * jsval).

(** Property lookup on an object literal. *)
Fixpoint field (k : string) (o : payload) : option jsval :=
  match o with
  | [] => None
  | (k', v) :: rest => if String.eqb k' k then Some v else field k rest
  end.

(* ===================================================================== *)
(** ** services/CryptoService.js *)

Inductive result {E A : Type} : Type :=
| Ok (a : A)
| Err (e : E).
Arguments result : clear implicits.

Module CryptoService.
Local Open Scope Q_scope.
Local Open Scope string_scope.

Record CacheEntry : Type := mkEntry { price : Q; timestamp : Z }.

(** [this.priceCache], a [Map] from the upper-cased symbol. *)
Definition PriceCache : Type := list (string * CacheEntry).

Fixpoint cache_get (m : PriceCache) (k : string) : option CacheEntry :=
  match m with
  | [] => None
  | (k', e) :: rest => if String.eqb k' k then Some e else cache_get rest k
  end.

Fixpoint cache_set (m : PriceCache) (k : string) (e : CacheEntry)
  : PriceCache :=
  match m with
  | [] => [(k, e)]
  | (k', e') :: rest =>
      if String.eqb k' k then (k, e) :: rest
      else (k', e') :: cache_set rest k e
  end.

Record t : Type := mk {
  priceCache : PriceCache;
  (** [parseInt(process.env.PRICE_CACHE_DURATION) || 10000] *)
  cacheTimeout : Z
}.

(** [String.prototype.toUpperCase].  A string is the UTF-8 encoding of the
    JavaScript string.  The result is only ever compared with, or used as,
    a key made of ASCII capitals, so what is modelled is every character
    whose upper case is made of ASCII letters: the letters [a-z], the long
    s (U+017F, upper case [S]), the dotless i (U+0131, [I]), the sharp s
    (U+00DF, [SS]) and the Latin ligatures U+FB00 to U+FB06 ([FF], [FI],
    [FL], [FFI], [FFL], [ST], [ST]).  The upper case of any other character
    has a character outside ASCII; such a character is left as it is. *)
Definition upper_ascii (c : ascii) : ascii :=
  let n := N_of_ascii c in
  if (97 <=? n)%N && (n <=? 122)%N then ascii_of_N (n - 32) else c.

(** The upper case of the character encoded by the two bytes [a b]. *)
Definition upper_two (a b : ascii) : option string :=
  match N_of_ascii a, N_of_ascii b with
  | 195%N, 159%N => Some "SS"        (* U+00DF *)
  | 196%N, 177%N => Some "I"         (* U+0131 *)
  | 197%N, 191%N => Some "S"         (* U+017F *)
  | _, _ => None
  end.

(** The upper case of the character encoded by the three bytes [a b c]. *)
Definition upper_three (a b c : ascii) : option string :=
  match N_of_ascii a, N_of_ascii b, N_of_ascii c with
  | 239%N, 172%N, 128%N => Some "FF"   (* U+FB00 *)
  | 239%N, 172%N, 129%N => Some "FI"   (* U+FB01 *)
  | 239%N, 172%N, 130%N => Some "FL"   (* U+FB02 *)
  | 239%N, 172%N, 131%N => Some "FFI"  (* U+FB03 *)
  | 239%N, 172%N, 132%N => Some "FFL"  (* U+FB04 *)
  | 239%N, 172%N, 133%N => Some "ST"   (* U+FB05 *)
  | 239%N, 172%N, 134%N => Some "ST"   (* U+FB06 *)
  | _, _, _ => None
  end.

Fixpoint toUpperCase (s : string) : string :=
  match s with
  | EmptyString => EmptyString
  | String a s1 =>
      match s1 with
      | EmptyString => String (upper_ascii a) EmptyString
      | String b s2 =>
          match upper_two a b with
          | Some u => u ++ toUpperCase s2
          | None =>
              match s2 with
              | EmptyString => String (upper_ascii a) (toUpperCase s1)
              | String c s3 =>
                  match upper_three a b c with
                  | Some u => u ++ toUpperCase s3
                  | None => String (upper_ascii a) (toUpperCase s1)
                  end
              end
          end
      end
  end.

(** [this.cryptoMapping[symbol]] *)
Definition cryptoMapping (symbol : string) : option string :=
  if String.eqb symbol "BTC" then Some "bitcoin"
  else if String.eqb symbol "ETH" then Some "ethereum"
  else if String.eqb symbol "USDT" then Some "tether"
  else None.

Definition fallbackPrices (symbol : string) : option Q :=
  if String.eqb symbol "BTC" then Some 45000
  else if String.eqb symbol "ETH" then Some 3000
  else if String.eqb symbol "USDT" then Some 1
  else None.

(** What [axios.get] resolves to: a rejection (network error, timeout,
    bad status), or a body whose [data[coinId]?.usd] is a number or is
    missing. *)
Inductive ApiResponse : Type :=
| ApiFailed
| ApiData (usd : option Q).

(** The awaited request together with [Date.now()] when it settles. *)
Record Feed : Type := mkFeed { response : ApiResponse; settledAt : Z }.

(** A call either finishes without touching the network or issues one GET
    for [coinId] and continues with what comes back. *)
Inductive Call (A : Type) : Type :=
| Done (a : A)
| Get (coinId : string) (k : Feed -> A).
Arguments Done {A} a.
Arguments Get {A} coinId k.

Definition run_call {A : Type} (c : Call A) (feed : Feed) : A :=
  match c with
  | Done a => a
  | Get _ k => k feed
  end.

(** [!price] *)
Definition falsy (q : Q) : bool := (Qnum q =? 0)%Z.

(** The [catch] block of [getPrice]. *)
Definition getPrice_catch (cs : t) (cryptocurrency : string)
  : t * result string Q :=
  match cache_get (priceCache cs) (toUpperCase cryptocurrency) with
  | Some cached => (cs, Ok (price cached))
  | None =>
      match fallbackPrices (toUpperCase cryptocurrency) with
      | Some fallbackPrice =>
          if falsy fallbackPrice
          then (cs, Err ("Unable to get price for " ++ cryptocurrency))
          else (cs, Ok fallbackPrice)
      | None => (cs, Err ("Unable to get price for " ++ cryptocurrency))
      end
  end.

Definition fresh (cs : t) (now : Z) (cached : CacheEntry) : bool :=
  (now - timestamp cached <? cacheTimeout cs)%Z.

(** [getPrice] past the cache check. *)
Definition getPrice_miss (cs : t) (now : Z) (cryptocurrency : string)
  : Call (t * result string Q) :=
  let cacheKey := toUpperCase cryptocurrency in
  if String.eqb (toUpperCase cryptocurrency) "USDT" then
    let price := 1 in
    Done (mk (cache_set (priceCache cs) cacheKey (mkEntry price now))
             (cacheTimeout cs), Ok price)
  else
    match cryptoMapping (toUpperCase cryptocurrency) with
    | None => Done (getPrice_catch cs cryptocurrency)
    | Some coinId =>
        Get coinId (fun feed =>
          match response feed with
          | ApiFailed => getPrice_catch cs cryptocurrency
          | ApiData None => getPrice_catch cs cryptocurrency
          | ApiData (Some price) =>
              if falsy price then getPrice_catch cs cryptocurrency
              else
                (mk (cache_set (priceCache cs) cacheKey
                       (mkEntry price (settledAt feed)))
                    (cacheTimeout cs), Ok price)
          end)
    end.

Definition getPrice (cs : t) (now : Z) (cryptocurrency : string)
  : Call (t * result string Q) :=
  let cacheKey := toUpperCase cryptocurrency in
  match cache_get (priceCache cs) cacheKey with
  | Some cached =>
      if fresh cs now cached then Done (cs, Ok (price cached))
      else getPrice_miss cs now cryptocurrency
  | None => getPrice_miss cs now cryptocurrency
  end.

(** A fresh service: [new CryptoService()]. *)
Definition create (cacheTimeout : Z) : t := mk [] cacheTimeout.

(** One call of [getPrice] as the service sees it: when, for what, and what
    the API answers if asked. *)
Record Request : Type := mkRequest {
  at_time : Z;
  symbol : string;
  answer : Feed
}.

(** The service after a sequence of calls. *)
Definition serve (cs : t) (reqs : list Request) : t :=
  fold_left
    (fun cs rq =>
       fst (run_call (getPrice cs (at_time rq) (symbol rq)) (answer rq)))
    reqs cs.

(** A price reported by the API is not negative. *)
Definition feed_ok (feed : Feed) : Prop :=
  match response feed with
  | ApiData (Some usd) => 0 <= usd
  | _ => True
  end.

(** Every cached price is positive, and the one of USDT is 1. *)
Definition cache_ok (m : PriceCache) : Prop :=
  forall k e, cache_get m k = Some e ->
              0 < price e /\ (k = "USDT" -> price e = 1).

(** [Object.keys(this.cryptoMapping)] *)
Definition getSupportedCryptos : list string := ["BTC"; "ETH"; "USDT"].

(** [this.priceCache.clear()] *)
Definition clearCache (cs : t) : t := mk [] (cacheTimeout cs).

(** One element of [stats.entries]. *)
Record CacheStat : Type := mkStat {
  crypto : string;
  stat_price : Q;
  age : Z;
  expired : bool
}.

(** [getCacheStats()] at [Date.now() = now]: [size] and [entries]. *)
Definition getCacheStats (cs : t) (now : Z) : nat * list CacheStat :=
  (List.length (priceCache cs),
   map (fun entry : string * CacheEntry =>
          let (crypto, data) := entry in
          mkStat crypto (price data) (now - timestamp data)
            (cacheTimeout cs <? now - timestamp data)%Z)
       (priceCache cs)).


(** [prices[crypto]] *)
Fixpoint property {V : Type} (o : list (string * V)) (k : string)
  : option V :=
  match o with
  | [] => None
  | (k', v) :: rest => if String.eqb k' k then Some v else property rest k
  end.



Definition usdToCrypto (usdAmount cryptoPrice : Q) : Q :=
  usdAmount / cryptoPrice.

Definition cryptoToUsd (cryptoAmount cryptoPrice : Q) : Q :=
  cryptoAmount * cryptoPrice.

(** Every cached symbol is a supported one and is cached once. *)
Definition keys_ok (m : PriceCache) : Prop :=
  NoDup (map fst m) /\ Forall (fun k => In k getSupportedCryptos) (map fst m).

End CryptoService.

(* ===================================================================== *)
(** ** Numbers

    A JavaScript number is an IEEE 754 binary64 value.  The engine below
    computes on the rationals; [binary64] is what one operation of the code
    returns for an exact result [x]: the nearest value with a 53-bit
    significand, the even one on a tie, with gradual underflow below
    [2^-1022].  A result of magnitude [2^1024] or more is [Infinity] in the
    code and is outside what [binary64] describes; [in_range] keeps clear
    of it. *)

Module Binary64.
Local Open Scope Z_scope.

(** [num / den] rounded to the nearest integer, to the even one on a tie. *)
Definition round_half_even (num den : Z) : Z :=
  let k := num / den in
  let r := num mod den in
  match 2 * r ?= den with
  | Lt => k
  | Gt => k + 1
  | Eq => if Z.even k then k else k + 1
  end.

Definition pow2 (q : Z) : Q :=
  if 0 <=? q then inject_Z (2 ^ q) else 1 # Z.to_pos (2 ^ (- q)).

Definition binary64 (x : Q) : Q :=
  let n := Z.abs (Qnum x) in
  let d := Z.pos (Qden x) in
  if n =? 0 then 0%Q
  else
    (* [e] is the exponent of [|x|]: [2^e <= |x| < 2^(e+1)] *)
    let e0 := Z.log2 n - Z.log2 d in
    let reached :=
      if 0 <=? e0 then 2 ^ e0 * d <=? n else d <=? n * 2 ^ (- e0) in
    let e := if reached then e0 else e0 - 1 in
    (* [2^q] is the distance between neighbouring values at [x] *)
    let q := Z.max e (-1022) - 52 in
    let k := if 0 <=? q then round_half_even n (d * 2 ^ q)
             else round_half_even (n * 2 ^ (- q)) d in
    let r := (inject_Z k * pow2 q)%Q in
    if Qnum x <? 0 then (- r)%Q else r.

Definition in_range (x : Q) : Prop := (Qabs x < inject_Z (2 ^ 1023))%Q.

End Binary64.

(* ===================================================================== *)
(** ** services/GameManager.js

    A handler is one transition: the call run to completion, with every
    database write succeeding and no other handler running between its
    awaits.  [placeBet] awaits between reading the player document and
    saving it; its segments are also given one by one
    ([placeBet_debit_stage], [placeBet_record_stage]) so that two calls can
    be interleaved.  Saving round documents has no effect on the engine and
    is left out. *)

Module GameManager.
Local Open Scope string_scope.

(** *** Fairness *)

Definition secretKey (env : Env) : string :=
  str_or (PROVABLY_FAIR_SECRET env) "secret".

Definition maxCrash (env : Env) : jsnum :=
  js_or (MAX_CRASH_MULTIPLIER env) (Fin 120%R).

Definition minCrash (env : Env) : jsnum :=
  js_or (MIN_CRASH_MULTIPLIER env) (Fin (101 / 100)%R).

Definition calculateCrashPoint (env : Env) (seed roundId : string) : jsnum :=
  let hash := createHmac_hex (secretKey env) (seed ++ roundId) in
  let hashNum := parseInt16 (substring 0 8 hash) in
  let uniform := js_div hashNum (Fin 4294967295%R) in
  let maxCrash := maxCrash env in
  let minCrash := minCrash env in
  let crash :=
    js_add minCrash (js_div (js_log (js_sub (Fin 1%R) uniform))
                            (Fin (- (1 / 10))%R)) in
  js_min (js_max crash minCrash) maxCrash.

Definition hashSeed (seed : string) : string := createHash_hex seed.

(** *** The engine *)

Local Open Scope Q_scope.

Definition Round : Type := GameRound.t Q.

(** Callbacks handed to [setTimeout]. *)
Inductive Timeout : Type := TStartGamePhase | TStartNewRound.

Definition Timeout_eqb (a b : Timeout) : bool :=
  match a, b with
  | TStartGamePhase, TStartGamePhase | TStartNewRound, TStartNewRound => true
  | _, _ => false
  end.

Definition Event : Type := (string * payload)%type.

(** The fields of the manager, then what it acts on: the player
    collection, the transaction log, the socket, the timers of the event
    loop. *)
Record World : Type := mkWorld {
  currentRound : option Round;
  multiplierInterval : option nat;
  cryptoService : CryptoService.t;
  isGameActive : bool;
  currentMultiplier : Q;
  gameStartTime : option Z;
  players : list Player.t;
  transactions : list Transaction.t;
  emitted : list Event;
  timeouts : list Timeout;
  intervals : list nat;
  nextHandle : nat
}.

(** [new GameManager(io)] over a player collection. *)
Definition create (cacheTimeout : Z) (db : list Player.t) : World :=
  mkWorld None None (CryptoService.create cacheTimeout) false 1 None
          db [] [] [] [] O.

Definition set_currentRound (w : World) (r : option Round) : World :=
  mkWorld r (multiplierInterval w) (cryptoService w) (isGameActive w)
    (currentMultiplier w) (gameStartTime w) (players w) (transactions w)
    (emitted w) (timeouts w) (intervals w) (nextHandle w).

Definition set_cryptoService (w : World) (cs : CryptoService.t) : World :=
  mkWorld (currentRound w) (multiplierInterval w) cs (isGameActive w)
    (currentMultiplier w) (gameStartTime w) (players w) (transactions w)
    (emitted w) (timeouts w) (intervals w) (nextHandle w).

Definition set_isGameActive (w : World) (b : bool) : World :=
  mkWorld (currentRound w) (multiplierInterval w) (cryptoService w) b
    (currentMultiplier w) (gameStartTime w) (players w) (transactions w)
    (emitted w) (timeouts w) (intervals w) (nextHandle w).

Definition set_currentMultiplier (w : World) (m : Q) : World :=
  mkWorld (currentRound w) (multiplierInterval w) (cryptoService w)
    (isGameActive w) m (gameStartTime w) (players w) (transactions w)
    (emitted w) (timeouts w) (intervals w) (nextHandle w).

Definition set_gameStartTime (w : World) (t : option Z) : World :=
  mkWorld (currentRound w) (multiplierInterval w) (cryptoService w)
    (isGameActive w) (currentMultiplier w) t (players w) (transactions w)
    (emitted w) (timeouts w) (intervals w) (nextHandle w).

Definition set_players (w : World) (db : list Player.t) : World :=
  mkWorld (currentRound w) (multiplierInterval w) (cryptoService w)
    (isGameActive w) (currentMultiplier w) (gameStartTime w) db
    (transactions w) (emitted w) (timeouts w) (intervals w) (nextHandle w).

(** [transaction.save()] *)
Definition add_transaction (w : World) (t : Transaction.t) : World :=
  mkWorld (currentRound w) (multiplierInterval w) (cryptoService w)
    (isGameActive w) (currentMultiplier w) (gameStartTime w) (players w)
    (transactions w ++ [t]) (emitted w) (timeouts w) (intervals w)
    (nextHandle w).

(** [this.io.emit(name, data)] *)
Definition emit (w : World) (name : string) (data : payload) : World :=
  mkWorld (currentRound w) (multiplierInterval w) (cryptoService w)
    (isGameActive w) (currentMultiplier w) (gameStartTime w) (players w)
    (transactions w) (emitted w ++ [(name, data)]) (timeouts w)
    (intervals w) (nextHandle w).

(** [setTimeout(callback, 3000)] *)
Definition setTimeout (w : World) (cb : Timeout) : World :=
  mkWorld (currentRound w) (multiplierInterval w) (cryptoService w)
    (isGameActive w) (currentMultiplier w) (gameStartTime w) (players w)
    (transactions w) (emitted w) (timeouts w ++ [cb]) (intervals w)
    (nextHandle w).

(** [this.multiplierInterval = setInterval(() => this.updateMultiplier(), ..)] *)
Definition setInterval (w : World) : World :=
  mkWorld (currentRound w) (Some (nextHandle w)) (cryptoService w)
    (isGameActive w) (currentMultiplier w) (gameStartTime w) (players w)
    (transactions w) (emitted w) (timeouts w)
    (nextHandle w :: intervals w) (S (nextHandle w)).

(** [clearInterval(handle)] *)
Definition clearInterval (w : World) (h : nat) : World :=
  mkWorld (currentRound w) (multiplierInterval w) (cryptoService w)
    (isGameActive w) (currentMultiplier w) (gameStartTime w) (players w)
    (transactions w) (emitted w) (timeouts w)
    (filter (fun h' => negb (Nat.eqb h' h)) (intervals w)) (nextHandle w).

Definition round_with (r : Round) (endTime : option Z) (bets : list Bet.t)
    (status : Status) (maxMultiplier : Q) : Round :=
  GameRound.mk Q (GameRound.roundId r) (GameRound.startTime r) endTime
    (GameRound.crashPoint r) (GameRound.seed r) (GameRound.seedHash r)
    bets status maxMultiplier.

Definition set_status (r : Round) (s : Status) : Round :=
  round_with r (GameRound.endTime r) (GameRound.bets r) s
    (GameRound.maxMultiplier r).

Definition set_endTime (r : Round) (t : Z) : Round :=
  round_with r (Some t) (GameRound.bets r) (GameRound.status r)
    (GameRound.maxMultiplier r).

Definition set_bets (r : Round) (bs : list Bet.t) : Round :=
  round_with r (GameRound.endTime r) bs (GameRound.status r)
    (GameRound.maxMultiplier r).

Definition set_maxMultiplier (r : Round) (m : Q) : Round :=
  round_with r (GameRound.endTime r) (GameRound.bets r) (GameRound.status r)
    m.

(** [a >= b] and [a < b] on rationals. *)
Definition Qgeb (a b : Q) : bool := Qle_bool b a.
Definition Qltb (a b : Q) : bool := negb (Qle_bool b a).

(** [Math.max(a, b)] *)
Definition Math_max (a b : Q) : Q := if Qltb a b then b else a.

(** [parseFloat(x.toFixed(digits))]: the nearest multiple of
    [10^-digits], the larger magnitude on a tie. *)
Definition toFixed (x : Q) (digits : positive) : Q :=
  let scale := Z.pow_pos 10 digits in
  let near (y : Q) := Qfloor (y * inject_Z scale + (1 # 2)) in
  if Qltb x 0 then - (near (- x) # Z.to_pos scale)
  else near x # Z.to_pos scale.

(** Rejections, with the message of the thrown [Error]. *)
Inductive Error : Type :=
| BettingClosed            (* 'Betting not allowed now' *)
| InsufficientBalance      (* 'Insufficient balance' *)
| PriceUnavailable (msg : string)  (* thrown by [getPrice] *)
| RoundNotActive           (* 'Cannot cash out' *)
| NoActiveBet              (* 'No active bet' *)
| TypeError (property : string).  (* [property] read on [null] *)

Definition message (e : Error) : string :=
  match e with
  | BettingClosed => "Betting not allowed now"
  | InsufficientBalance => "Insufficient balance"
  | PriceUnavailable msg => msg
  | RoundNotActive => "Cannot cash out"
  | NoActiveBet => "No active bet"
  | TypeError property =>
      "Cannot read properties of null (reading '" ++ property ++ "')"
  end.

(** Values drawn by [crypto.randomBytes] during one call. *)
Record Rand : Type := mkRand { txHash : string; txId : string }.

(** What [startNewRound] draws: [generateRoundId()], [generateSeed()], and
    the double returned by [calculateCrashPoint(seed, roundId)]. *)
Record Draw : Type := mkDraw {
  drawnRoundId : string;
  drawnSeed : string;
  drawnCrashPoint : Q
}.

Definition updatePlayerStats (w : World) (playerId : string) (won : bool)
    (amount : Q) : World :=
  match Player.findOne (players w) playerId with
  | Some player =>
      let games := (Player.totalGamesPlayed player + 1)%Z in
      let player' :=
        if won then
          Player.mk (Player.playerId player) (Player.username player)
            (Player.wallet player) games
            (Player.totalWon player + amount) (Player.totalLost player)
        else
          Player.mk (Player.playerId player) (Player.username player)
            (Player.wallet player) games
            (Player.totalWon player) (Player.totalLost player + amount) in
      set_players w (Player.save (players w) player')
  | None => w
  end.

Definition logTransaction (w : World) (txId : string)
    (data : string -> Transaction.t) : World :=
  add_transaction w (data txId).

Definition endRound (w : World) (now : Z) : World :=
  match currentRound w with
  | None => w
  | Some r =>
      if Status_eqb (GameRound.status r) crashed then w
      else
        let r' := set_status (set_endTime r now) crashed in
        let w1 := set_currentRound w (Some r') in
        fold_left
          (fun w bet =>
             if Bet.cashedOut bet then w
             else updatePlayerStats w (Bet.playerId bet) false
                    (Bet.usdAmount bet))
          (GameRound.bets r') w1
  end.

Definition crashGame (w : World) (now : Z) : World :=
  match currentRound w with
  | None => w
  | Some _ =>
      if negb (isGameActive w) then w
      else
        let w1 := set_isGameActive w false in
        let w2 := match multiplierInterval w1 with
                  | Some h => clearInterval w1 h
                  | None => w1
                  end in
        let w3 := endRound w2 now in
        match currentRound w3 with
        | None => w3
        | Some r =>
            let w4 := emit w3 "round:crashed"
                        [ ("roundId", VStr (GameRound.roundId r));
                          ("crashPoint", VNum (GameRound.crashPoint r));
                          ("finalMultiplier", VNum (currentMultiplier w3)) ] in
            setTimeout w4 TStartNewRound
        end
  end.

(** Lines 92-94: the multiplier at [Date.now() = now]. *)
Definition multiplier_at (w : World) (now : Z) : Q :=
  let started := match gameStartTime w with Some t => t | None => 0%Z end in
  let timeElapsed := inject_Z (now - started) / 1000 in
  let growthFactor := 1 # 10 in
  1 + timeElapsed * growthFactor.

Definition updateMultiplier (w : World) (now : Z) : World :=
  match currentRound w with
  | None => w
  | Some r =>
      if negb (isGameActive w) then w
      else
        let m := multiplier_at w now in
        let w1 := set_currentMultiplier w m in
        let previous := if CryptoService.falsy (GameRound.maxMultiplier r)
                        then 1 else GameRound.maxMultiplier r in
        let r' := set_maxMultiplier r (Math_max previous m) in
        let w2 := set_currentRound w1 (Some r') in
        if Qgeb m (GameRound.crashPoint r') then crashGame w2 now
        else
          emit w2 "multiplier:update"
            [ ("roundId", VStr (GameRound.roundId r'));
              ("multiplier", VNum (toFixed m 2)) ]
  end.

Definition startGamePhase (w : World) (now : Z) : World :=
  match currentRound w with
  | None => w
  | Some r =>
      let w1 := set_isGameActive w true in
      let w2 := set_currentMultiplier w1 1 in
      let w3 := set_gameStartTime w2 (Some now) in
      let w4 := set_currentRound w3 (Some (set_status r active)) in
      let w5 := setInterval w4 in
      emit w5 "round:started" [ ("roundId", VStr (GameRound.roundId r)) ]
  end.

Definition startNewRound (w : World) (d : Draw) (now : Z) : World :=
  let w1 := match currentRound w with
            | Some _ => if isGameActive w then endRound w now else w
            | None => w
            end in
  let roundId := drawnRoundId d in
  let seed := drawnSeed d in
  let seedHash := hashSeed seed in
  let crashPoint := drawnCrashPoint d in
  let r := GameRound.mk Q roundId now None crashPoint seed seedHash []
             waiting 1 in
  let w2 := set_currentRound w1 (Some r) in
  let w3 := emit w2 "round:new"
              [ ("roundId", VStr roundId);
                ("seedHash", VStr seedHash);
                ("bettingEndsIn", VNum 3000) ] in
  setTimeout w3 TStartGamePhase.

Definition start (w : World) (d : Draw) (now : Z) : World :=
  startNewRound w d now.

Definition stop (w : World) : World :=
  match multiplierInterval w with
  | Some h => clearInterval w h
  | None => w
  end.

Definition placeBet (w : World) (playerId : string) (usdAmount : Q)
    (cryptocurrency : Currency) (now : Z) (feed : CryptoService.Feed)
    (rand : Rand) : World * result Error Bet.t :=
  match currentRound w with
  | None => (w, Err BettingClosed)
  | Some r0 =>
      if negb (Status_eqb (GameRound.status r0) waiting)
      then (w, Err BettingClosed)
      else
        match CryptoService.run_call
                (CryptoService.getPrice (cryptoService w) now
                   (currency_name cryptocurrency)) feed with
        | (cs, Err msg) => (set_cryptoService w cs, Err (PriceUnavailable msg))
        | (cs, Ok price) =>
            let w1 := set_cryptoService w cs in
            let cryptoAmount := usdAmount / price in
            match Player.findOne (players w1) playerId with
            | None => (w1, Err InsufficientBalance)
            | Some player =>
                if Qltb (Wallet.get (Player.wallet player) cryptocurrency)
                        cryptoAmount
                then (w1, Err InsufficientBalance)
                else
                  let bet := Bet.mk playerId usdAmount cryptoAmount
                               cryptocurrency price false None None
                               (txHash rand) in
                  let wallet' :=
                    Wallet.set (Player.wallet player) cryptocurrency
                      (Wallet.get (Player.wallet player) cryptocurrency
                       - cryptoAmount) in
                  let player' :=
                    Player.mk (Player.playerId player)
                      (Player.username player) wallet'
                      (Player.totalGamesPlayed player)
                      (Player.totalWon player) (Player.totalLost player) in
                  let w2 := set_players w1 (Player.save (players w1) player') in
                  let r' := set_bets r0 (GameRound.bets r0 ++ [bet]) in
                  let w3 := set_currentRound w2 (Some r') in
                  let w4 := logTransaction w3 (txId rand) (fun id =>
                    Transaction.mk id playerId (GameRound.roundId r') tx_bet
                      usdAmount cryptoAmount cryptocurrency price
                      (Bet.transactionHash bet) None wallet') in
                  let w5 := emit w4 "bet:placed"
                    [ ("roundId", VStr (GameRound.roundId r'));
                      ("playerId", VStr playerId);
                      ("usdAmount", VNum usdAmount);
                      ("cryptocurrency",
                       VStr (currency_name cryptocurrency)) ] in
                  (w5, Ok bet)
            end
        end
  end.

(** The segments of [placeBet] between its awaits.  Lines 161-173, run
    on the document [await Player.findOne] returned: the balance check, the
    debit of that document, and [player.save()], which overwrites the stored
    document. *)
Definition placeBet_debit_stage (w : World) (doc : option Player.t)
    (playerId : string) (usdAmount : Q) (cryptocurrency : Currency)
    (price : Q) (rand : Rand) : World * result Error (Bet.t * Wallet.t) :=
  let cryptoAmount := usdAmount / price in
  match doc with
  | None => (w, Err InsufficientBalance)
  | Some player =>
      if Qltb (Wallet.get (Player.wallet player) cryptocurrency) cryptoAmount
      then (w, Err InsufficientBalance)
      else
        let bet := Bet.mk playerId usdAmount cryptoAmount cryptocurrency
                     price false None None (txHash rand) in
        let wallet' :=
          Wallet.set (Player.wallet player) cryptocurrency
            (Wallet.get (Player.wallet player) cryptocurrency
             - cryptoAmount) in
        let player' :=
          Player.mk (Player.playerId player) (Player.username player)
            wallet' (Player.totalGamesPlayed player)
            (Player.totalWon player) (Player.totalLost player) in
        (set_players w (Player.save (players w) player'), Ok (bet, wallet'))
  end.

(** Lines 175-191: the bet is pushed on the current round, logged and
    announced. *)
Definition placeBet_record_stage (w : World) (bet : Bet.t)
    (wallet' : Wallet.t) (rand : Rand) : World * result Error Bet.t :=
  match currentRound w with
  | None => (w, Err (TypeError "bets"))
  | Some r =>
      let r' := set_bets r (GameRound.bets r ++ [bet]) in
      let w3 := set_currentRound w (Some r') in
      let w4 := logTransaction w3 (txId rand) (fun id =>
        Transaction.mk id (Bet.playerId bet) (GameRound.roundId r') tx_bet
          (Bet.usdAmount bet) (Bet.cryptoAmount bet)
          (Bet.cryptocurrency bet) (Bet.priceAtTime bet)
          (Bet.transactionHash bet) None wallet') in
      let w5 := emit w4 "bet:placed"
        [ ("roundId", VStr (GameRound.roundId r'));
          ("playerId", VStr (Bet.playerId bet));
          ("usdAmount", VNum (Bet.usdAmount bet));
          ("cryptocurrency",
           VStr (currency_name (Bet.cryptocurrency bet))) ] in
      (w5, Ok bet)
  end.

(** The segments in the order of one call. *)
Definition placeBet_staged (w : World) (playerId : string) (usdAmount : Q)
    (cryptocurrency : Currency) (now : Z) (feed : CryptoService.Feed)
    (rand : Rand) : World * result Error Bet.t :=
  match currentRound w with
  | None => (w, Err BettingClosed)
  | Some r0 =>
      if negb (Status_eqb (GameRound.status r0) waiting)
      then (w, Err BettingClosed)
      else
        match CryptoService.run_call
                (CryptoService.getPrice (cryptoService w) now
                   (currency_name cryptocurrency)) feed with
        | (cs, Err msg) => (set_cryptoService w cs, Err (PriceUnavailable msg))
        | (cs, Ok price) =>
            let w1 := set_cryptoService w cs in
            let doc := Player.findOne (players w1) playerId in
            match placeBet_debit_stage w1 doc playerId usdAmount
                    cryptocurrency price rand with
            | (w2, Err e) => (w2, Err e)
            | (w2, Ok (bet, wallet')) =>
                placeBet_record_stage w2 bet wallet' rand
            end
        end
  end.

(** [placeBet] with its two operations on numbers rounded: the division
    of line 158 and the subtraction of line 172 each return [fl] of the
    exact result.  With [fl] the identity this is [placeBet]; with
    [Binary64.binary64] it is the call on doubles. *)
Definition placeBet_rounded (fl : Q -> Q) (w : World) (playerId : string)
    (usdAmount : Q) (cryptocurrency : Currency) (now : Z)
    (feed : CryptoService.Feed) (rand : Rand) : World * result Error Bet.t :=
  match currentRound w with
  | None => (w, Err BettingClosed)
  | Some r0 =>
      if negb (Status_eqb (GameRound.status r0) waiting)
      then (w, Err BettingClosed)
      else
        match CryptoService.run_call
                (CryptoService.getPrice (cryptoService w) now
                   (currency_name cryptocurrency)) feed with
        | (cs, Err msg) => (set_cryptoService w cs, Err (PriceUnavailable msg))
        | (cs, Ok price) =>
            let w1 := set_cryptoService w cs in
            let cryptoAmount := fl (usdAmount / price) in
            match Player.findOne (players w1) playerId with
            | None => (w1, Err InsufficientBalance)
            | Some player =>
                if Qltb (Wallet.get (Player.wallet player) cryptocurrency)
                        cryptoAmount
                then (w1, Err InsufficientBalance)
                else
                  let bet := Bet.mk playerId usdAmount cryptoAmount
                               cryptocurrency price false None None
                               (txHash rand) in
                  let wallet' :=
                    Wallet.set (Player.wallet player) cryptocurrency
                      (fl (Wallet.get (Player.wallet player) cryptocurrency
                           - cryptoAmount)) in
                  let player' :=
                    Player.mk (Player.playerId player)
                      (Player.username player) wallet'
                      (Player.totalGamesPlayed player)
                      (Player.totalWon player) (Player.totalLost player) in
                  let w2 := set_players w1 (Player.save (players w1) player') in
                  let r' := set_bets r0 (GameRound.bets r0 ++ [bet]) in
                  let w3 := set_currentRound w2 (Some r') in
                  let w4 := logTransaction w3 (txId rand) (fun id =>
                    Transaction.mk id playerId (GameRound.roundId r') tx_bet
                      usdAmount cryptoAmount cryptocurrency price
                      (Bet.transactionHash bet) None wallet') in
                  let w5 := emit w4 "bet:placed"
                    [ ("roundId", VStr (GameRound.roundId r'));
                      ("playerId", VStr playerId);
                      ("usdAmount", VNum usdAmount);
                      ("cryptocurrency",
                       VStr (currency_name cryptocurrency)) ] in
                  (w5, Ok bet)
            end
        end
  end.

(** [b.playerId === playerId && !b.cashedOut] *)
Definition unsettled (playerId : string) (b : Bet.t) : bool :=
  String.eqb (Bet.playerId b) playerId && negb (Bet.cashedOut b).

(** Lines 210-212: [bet.cashedOut = true], [bet.cashoutMultiplier = m],
    [bet.payout = po], one after the other with no [await] between. *)
Definition settled (b : Bet.t) (m : Q) (po : Payout.t) : Bet.t :=
  Bet.mk (Bet.playerId b) (Bet.usdAmount b) (Bet.cryptoAmount b)
    (Bet.cryptocurrency b) (Bet.priceAtTime b) true (Some m) (Some po)
    (Bet.transactionHash b).

(** The writes go to the element [bets.find] returned, the first that
    satisfies the predicate, in place. *)
Fixpoint mark_first (playerId : string) (m : Q) (po : Payout.t)
    (bs : list Bet.t) : list Bet.t :=
  match bs with
  | [] => []
  | b :: rest =>
      if unsettled playerId b then settled b m po :: rest
      else b :: mark_first playerId m po rest
  end.

Record CashOutResult : Type := mkCashOut {
  res_multiplier : Q;
  res_payout : Payout.t
}.

Definition cashOut (w : World) (playerId : string) (rand : Rand)
  : World * result Error CashOutResult :=
  match currentRound w with
  | None => (w, Err RoundNotActive)
  | Some r =>
      if negb (isGameActive w) then (w, Err RoundNotActive)
      else
        match find (unsettled playerId) (GameRound.bets r) with
        | None => (w, Err NoActiveBet)
        | Some bet =>
            let multiplier := currentMultiplier w in
            let cryptoPayout := Bet.cryptoAmount bet * multiplier in
            let usdPayout := cryptoPayout * Bet.priceAtTime bet in
            let po := Payout.mk cryptoPayout usdPayout in
            let r' := set_bets r
                        (mark_first playerId multiplier po (GameRound.bets r)) in
            let w1 := set_currentRound w (Some r') in
            match Player.findOne (players w1) playerId with
            | None => (w1, Err (TypeError "wallet"))
            | Some player =>
                let c := Bet.cryptocurrency bet in
                let wallet' :=
                  Wallet.set (Player.wallet player) c
                    (Wallet.get (Player.wallet player) c + cryptoPayout) in
                let player' :=
                  Player.mk (Player.playerId player)
                    (Player.username player) wallet'
                    (Player.totalGamesPlayed player)
                    (Player.totalWon player) (Player.totalLost player) in
                let w2 := set_players w1 (Player.save (players w1) player') in
                let w3 := logTransaction w2 (txId rand) (fun id =>
                  Transaction.mk id playerId (GameRound.roundId r') tx_cashout
                    usdPayout cryptoPayout c (Bet.priceAtTime bet)
                    (txHash rand) (Some multiplier) wallet') in
                let w4 := updatePlayerStats w3 playerId true
                            (usdPayout - Bet.usdAmount bet) in
                let w5 := emit w4 "player:cashedout"
                  [ ("roundId", VStr (GameRound.roundId r'));
                    ("playerId", VStr playerId);
                    ("multiplier", VNum (toFixed multiplier 2));
                    ("payout",
                     VObj [ ("crypto", VNum (toFixed cryptoPayout 8));
                            ("usd", VNum (toFixed usdPayout 2)) ]);
                    ("cryptocurrency", VStr (currency_name c)) ] in
                (w5, Ok (mkCashOut multiplier po))
            end
        end
  end.

(** [updatePlayerStats] and [cashOut] with their operations on numbers
    rounded by [fl]: the two products and the sum of lines 206-216, the
    difference of line 233, the sum of [updatePlayerStats] and the values
    [parseFloat] reads back from [toFixed].  With [fl] the identity they are
    [updatePlayerStats] and [cashOut]; with [Binary64.binary64] they are the
    calls on doubles. *)
Definition updatePlayerStats_rounded (fl : Q -> Q) (w : World)
    (playerId : string) (won : bool) (amount : Q) : World :=
  match Player.findOne (players w) playerId with
  | Some player =>
      let games := (Player.totalGamesPlayed player + 1)%Z in
      let player' :=
        if won then
          Player.mk (Player.playerId player) (Player.username player)
            (Player.wallet player) games
            (fl (Player.totalWon player + amount)) (Player.totalLost player)
        else
          Player.mk (Player.playerId player) (Player.username player)
            (Player.wallet player) games
            (Player.totalWon player) (fl (Player.totalLost player + amount)) in
      set_players w (Player.save (players w) player')
  | None => w
  end.

Definition cashOut_rounded (fl : Q -> Q) (w : World) (playerId : string)
    (rand : Rand) : World * result Error CashOutResult :=
  match currentRound w with
  | None => (w, Err RoundNotActive)
  | Some r =>
      if negb (isGameActive w) then (w, Err RoundNotActive)
      else
        match find (unsettled playerId) (GameRound.bets r) with
        | None => (w, Err NoActiveBet)
        | Some bet =>
            let multiplier := currentMultiplier w in
            let cryptoPayout := fl (Bet.cryptoAmount bet * multiplier) in
            let usdPayout := fl (cryptoPayout * Bet.priceAtTime bet) in
            let po := Payout.mk cryptoPayout usdPayout in
            let r' := set_bets r
                        (mark_first playerId multiplier po (GameRound.bets r)) in
            let w1 := set_currentRound w (Some r') in
            match Player.findOne (players w1) playerId with
            | None => (w1, Err (TypeError "wallet"))
            | Some player =>
                let c := Bet.cryptocurrency bet in
                let wallet' :=
                  Wallet.set (Player.wallet player) c
                    (fl (Wallet.get (Player.wallet player) c + cryptoPayout)) in
                let player' :=
                  Player.mk (Player.playerId player)
                    (Player.username player) wallet'
                    (Player.totalGamesPlayed player)
                    (Player.totalWon player) (Player.totalLost player) in
                let w2 := set_players w1 (Player.save (players w1) player') in
                let w3 := logTransaction w2 (txId rand) (fun id =>
                  Transaction.mk id playerId (GameRound.roundId r') tx_cashout
                    usdPayout cryptoPayout c (Bet.priceAtTime bet)
                    (txHash rand) (Some multiplier) wallet') in
                let w4 := updatePlayerStats_rounded fl w3 playerId true
                            (fl (usdPayout - Bet.usdAmount bet)) in
                let w5 := emit w4 "player:cashedout"
                  [ ("roundId", VStr (GameRound.roundId r'));
                    ("playerId", VStr playerId);
                    ("multiplier", VNum (fl (toFixed multiplier 2)));
                    ("payout",
                     VObj [ ("crypto", VNum (fl (toFixed cryptoPayout 8)));
                            ("usd", VNum (fl (toFixed usdPayout 2))) ]);
                    ("cryptocurrency", VStr (currency_name c)) ] in
                (w5, Ok (mkCashOut multiplier po))
            end
        end
  end.

(** The tick with its operations on numbers rounded: the quotient, the
    product and the sum of lines 92-94, the sums of [updatePlayerStats]
    when the round ends, and the value [parseFloat] reads back from
    [toFixed].  The difference of the two timestamps is a difference of
    integers.  With [fl] the identity these are [endRound], [crashGame],
    [multiplier_at] and [updateMultiplier]. *)
Definition endRound_rounded (fl : Q -> Q) (w : World) (now : Z) : World :=
  match currentRound w with
  | None => w
  | Some r =>
      if Status_eqb (GameRound.status r) crashed then w
      else
        let r' := set_status (set_endTime r now) crashed in
        let w1 := set_currentRound w (Some r') in
        fold_left
          (fun w bet =>
             if Bet.cashedOut bet then w
             else updatePlayerStats_rounded fl w (Bet.playerId bet) false
                    (Bet.usdAmount bet))
          (GameRound.bets r') w1
  end.

Definition crashGame_rounded (fl : Q -> Q) (w : World) (now : Z) : World :=
  match currentRound w with
  | None => w
  | Some _ =>
      if negb (isGameActive w) then w
      else
        let w1 := set_isGameActive w false in
        let w2 := match multiplierInterval w1 with
                  | Some h => clearInterval w1 h
                  | None => w1
                  end in
        let w3 := endRound_rounded fl w2 now in
        match currentRound w3 with
        | None => w3
        | Some r =>
            let w4 := emit w3 "round:crashed"
                        [ ("roundId", VStr (GameRound.roundId r));
                          ("crashPoint", VNum (GameRound.crashPoint r));
                          ("finalMultiplier", VNum (currentMultiplier w3)) ] in
            setTimeout w4 TStartNewRound
        end
  end.

Definition multiplier_at_rounded (fl : Q -> Q) (w : World) (now : Z) : Q :=
  let started := match gameStartTime w with Some t => t | None => 0%Z end in
  let timeElapsed := fl (inject_Z (now - started) / 1000) in
  let growthFactor := fl (1 # 10) in
  fl (1 + fl (timeElapsed * growthFactor)).

Definition updateMultiplier_rounded (fl : Q -> Q) (w : World) (now : Z)
  : World :=
  match currentRound w with
  | None => w
  | Some r =>
      if negb (isGameActive w) then w
      else
        let m := multiplier_at_rounded fl w now in
        let w1 := set_currentMultiplier w m in
        let previous := if CryptoService.falsy (GameRound.maxMultiplier r)
                        then 1 else GameRound.maxMultiplier r in
        let r' := set_maxMultiplier r (Math_max previous m) in
        let w2 := set_currentRound w1 (Some r') in
        if Qgeb m (GameRound.crashPoint r') then crashGame_rounded fl w2 now
        else
          emit w2 "multiplier:update"
            [ ("roundId", VStr (GameRound.roundId r'));
              ("multiplier", VNum (fl (toFixed m 2))) ]
  end.

Definition getGameState (w : World) : payload :=
  [ ("currentRound",
     match currentRound w with
     | Some r =>
         VObj [ ("roundId", VStr (GameRound.roundId r));
                ("status", VStr (status_name (GameRound.status r)));
                ("seedHash", VStr (GameRound.seedHash r)) ]
     | None => VNull
     end);
    ("isGameActive", VBool (isGameActive w));
    ("currentMultiplier", VNum (toFixed (currentMultiplier w) 2)) ].

(** *** The event loop

    What can happen to a started engine: a pending timeout fires, a live
    interval ticks, a player request arrives and runs to completion,
    [stop()] is called.  A timer that is not pending does not fire.  The
    last two actions are the segments of a [placeBet] that resumes after
    other handlers have run: the save of a document read earlier, and the
    recording of a bet created earlier. *)
Inductive Action : Type :=
| FireStartGamePhase (now : Z)
| FireStartNewRound (d : Draw) (now : Z)
| Tick (now : Z)
| DoPlaceBet (playerId : string) (usdAmount : Q) (cryptocurrency : Currency)
             (now : Z) (feed : CryptoService.Feed) (rand : Rand)
| DoCashOut (playerId : string) (rand : Rand)
| DoStop
| ResumeDebit (doc : option Player.t) (playerId : string) (usdAmount : Q)
              (cryptocurrency : Currency) (price : Q) (rand : Rand)
| ResumeRecord (bet : Bet.t) (wallet' : Wallet.t) (rand : Rand).

Fixpoint remove_first (cb : Timeout) (l : list Timeout) : list Timeout :=
  match l with
  | [] => []
  | x :: rest => if Timeout_eqb x cb then rest else x :: remove_first cb rest
  end.

Definition pending (cb : Timeout) (w : World) : bool :=
  existsb (Timeout_eqb cb) (timeouts w).

Definition fired (w : World) (cb : Timeout) : World :=
  mkWorld (currentRound w) (multiplierInterval w) (cryptoService w)
    (isGameActive w) (currentMultiplier w) (gameStartTime w) (players w)
    (transactions w) (emitted w) (remove_first cb (timeouts w))
    (intervals w) (nextHandle w).

Definition step (w : World) (a : Action) : World :=
  match a with
  | FireStartGamePhase now =>
      if pending TStartGamePhase w
      then startGamePhase (fired w TStartGamePhase) now else w
  | FireStartNewRound d now =>
      if pending TStartNewRound w
      then startNewRound (fired w TStartNewRound) d now else w
  | Tick now =>
      match intervals w with
      | [] => w
      | _ :: _ => updateMultiplier w now
      end
  | DoPlaceBet playerId usdAmount cryptocurrency now feed rand =>
      fst (placeBet w playerId usdAmount cryptocurrency now feed rand)
  | DoCashOut playerId rand => fst (cashOut w playerId rand)
  | DoStop => stop w
  | ResumeDebit doc playerId usdAmount cryptocurrency price rand =>
      fst (placeBet_debit_stage w doc playerId usdAmount cryptocurrency
             price rand)
  | ResumeRecord bet wallet' rand =>
      fst (placeBet_record_stage w bet wallet' rand)
  end.

Definition run (w : World) (acts : list Action) : World :=
  fold_left step acts w.

(** *** Observations used in the statements *)

(** The phase of the current round. *)
Definition phase (w : World) : option Status :=
  option_map GameRound.status (currentRound w).

(** The bets of the current round. *)
Definition round_bets (w : World) : list Bet.t :=
  match currentRound w with
  | Some r => GameRound.bets r
  | None => []
  end.

(** [player.wallet[currency]] of the stored player. *)
Definition balance (w : World) (playerId : string) (c : Currency)
  : option Q :=
  option_map (fun p => Wallet.get (Player.wallet p) c)
             (Player.findOne (players w) playerId).

(** Crash points drawn for new rounds exceed 1, the multiplier a round
    starts from ([minCrash] is 1.01 unless configured otherwise). *)
Definition valid_draw (d : Draw) : Prop := 1 < drawnCrashPoint d.

(** A bet that [placeBet] created and has not recorded yet is not cashed
    out. *)
Definition valid_action (a : Action) : Prop :=
  match a with
  | FireStartNewRound d _ => valid_draw d
  | ResumeRecord bet _ _ =>
      Bet.cashedOut bet = false /\ Bet.cashoutMultiplier bet = None
  | _ => True
  end.

(** The invariant of a started engine: the flag [isGameActive] is set
    exactly while the current round is active, the multiplier shown is then
    below the crash point, one timeout at most is pending (the one that ends
    the phase), and no recorded cash-out multiplier reaches the crash
    point. *)
Definition round_ok (w : World) : Prop :=
  match currentRound w with
  | None => isGameActive w = false /\ timeouts w = []
  | Some r =>
      1 < GameRound.crashPoint r
      /\ Forall (fun b => forall m, Bet.cashoutMultiplier b = Some m ->
                                    m < GameRound.crashPoint r)
                (GameRound.bets r)
      /\ (if isGameActive w
          then GameRound.status r = active
               /\ currentMultiplier w < GameRound.crashPoint r
               /\ timeouts w = []
          else (GameRound.status r = waiting
                /\ timeouts w = [TStartGamePhase])
               \/ (GameRound.status r = crashed
                   /\ timeouts w = [TStartNewRound]))
  end.





(** *** The scenario of the specification

    A player with 0.002 BTC bets $50 at $50,000 per BTC, twice, in the
    betting window of a round that crashes at 2.50. *)
Definition alice : Player.t :=
  Player.mk "alice" "Alice" (Wallet.mk (2 # 1000) 0 1000) 0 0 0.

Definition round1 : Draw := mkDraw "round_1" "abc" (25 # 10).

Definition btc_50000 : CryptoService.Feed :=
  CryptoService.mkFeed (CryptoService.ApiData (Some 50000)) 10.

Definition betting_open : World := start (create 10000 [alice]) round1 0.

Definition after_first_bet : World :=
  fst (placeBet betting_open "alice" 50 BTC 5 btc_50000 (mkRand "h1" "t1")).

Definition after_second_bet : World :=
  fst (placeBet after_first_bet "alice" 50 BTC 6 btc_50000
         (mkRand "h2" "t2")).

(** The round is started and has ticked once, 3 s after activation, at
    multiplier 1.30. *)
Definition running : World :=
  run after_second_bet [FireStartGamePhase 3000; Tick 6000].

(** The round document at that point. *)
Definition running_round : Round :=
  let bet (hash : string) :=
    Bet.mk "alice" 50 (50 / 50000) BTC 50000 false None None hash in
  round_with
    (GameRound.mk Q "round_1" 0 None (25 # 10) "abc" (hashSeed "abc") []
       waiting 1)
    None [bet "h1"; bet "h2"] active
    (Math_max 1 (1 + inject_Z (6000 - 3000) / 1000 * (1 # 10)))%Q.

(** The stored player at that point: both stakes are debited. *)
Definition alice_after_bets : Player.t :=
  Player.mk "alice" "Alice"
    (Wallet.mk ((2 # 1000) - 50 / 50000 - 50 / 50000) 0 1000) 0 0 0.


(** Two calls of [placeBet] by the same player, interleaved: both read the
    player document, then both check, debit and save, then both record. *)
Definition both_read : option Player.t :=
  Player.findOne (players betting_open) "alice".

Definition first_saved : World * result Error (Bet.t * Wallet.t) :=
  placeBet_debit_stage betting_open both_read "alice" 50 BTC 50000
    (mkRand "h1" "t1").

Definition second_saved : World * result Error (Bet.t * Wallet.t) :=
  placeBet_debit_stage (fst first_saved) both_read "alice" 50 BTC 50000
    (mkRand "h2" "t2").

Definition both_recorded : World :=
  match snd first_saved, snd second_saved with
  | Ok (bet1, wallet1), Ok (bet2, wallet2) =>
      fst (placeBet_record_stage
             (fst (placeBet_record_stage (fst second_saved) bet1 wallet1
                     (mkRand "h1" "t1")))
             bet2 wallet2 (mkRand "h2" "t2"))
  | _, _ => fst second_saved
  end.


(** The round document at that point. *)
Definition crashed_round : Round :=
  round_with running_round (Some 18000%Z) (GameRound.bets running_round)
    crashed
    (Math_max (GameRound.maxMultiplier running_round)
       (1 + inject_Z (18000 - 3000) / 1000 * (1 # 10)))%Q.

Definition round2 : Draw := mkDraw "round_2" "def" (3 # 1).

(** [stop()] is called in the betting window; afterwards the timers of the
    event loop fire as they were scheduled. *)
Definition stopped_while_betting : World := stop betting_open.

(** *** Further observations

    The order of the phases, the fields of a round that identify it, and
    the timers of a started engine. *)
Definition rank (s : Status) : nat :=
  match s with
  | waiting => 0
  | active => 1
  | crashed => 2
  | completed => 3
  end.

Definition same_identity (r r' : Round) : Prop :=
  GameRound.roundId r' = GameRound.roundId r
  /\ GameRound.startTime r' = GameRound.startTime r
  /\ GameRound.crashPoint r' = GameRound.crashPoint r
  /\ GameRound.seed r' = GameRound.seed r
  /\ GameRound.seedHash r' = GameRound.seedHash r.

(** What identifies a bet: who staked what, at which price. *)
Definition stake (b : Bet.t) : string * Q * Q * Currency * Q :=
  (Bet.playerId b, Bet.usdAmount b, Bet.cryptoAmount b,
   Bet.cryptocurrency b, Bet.priceAtTime b).

(** At most one interval is live; it is the one the manager holds, and the
    game is then flagged active. *)
Definition timers_ok (w : World) : Prop :=
  match intervals w with
  | [] => True
  | [h] => multiplierInterval w = Some h /\ isGameActive w = true
  | _ => False
  end.

(** The published hash is the hash of the seed. *)
Definition committed (w : World) : Prop :=
  match currentRound w with
  | Some r => GameRound.seedHash r = hashSeed (GameRound.seed r)
  | None => True
  end.

(** One step on the current round: it stays the same round, its phase
    does not go back and its bets keep their stakes, or it has crashed and
    is replaced by a fresh round in the betting window. *)
Definition round_moves (r r' : Round) : Prop :=
  (same_identity r r'
   /\ (rank (GameRound.status r) <= rank (GameRound.status r'))%nat
   /\ exists more,
        map stake (GameRound.bets r')
        = (map stake (GameRound.bets r) ++ more)%list)
  \/ (GameRound.status r = crashed
      /\ GameRound.status r' = waiting
      /\ GameRound.bets r' = []).

(** A round after some handlers have written to it: the fields that the
    handlers assign may differ, the others cannot. *)
Definition rewritten (o o' : option Round) : Prop :=
  match o' with
  | None => o = None
  | Some r' =>
      exists r endTime bets status maxMultiplier,
        o = Some r /\ r' = round_with r endTime bets status maxMultiplier
  end.


(** The stored document of a player. *)
Definition document (w : World) (playerId : string) : option Player.t :=
  Player.findOne (players w) playerId.

(** The engine after [stop()] in a running round: the flag is set, the
    round is active, and no timer is left. *)
Definition frozen (w : World) (m : Q) : Prop :=
  isGameActive w = true /\ currentMultiplier w = m
  /\ timeouts w = [] /\ intervals w = []
  /\ exists r, currentRound w = Some r /\ GameRound.status r = active.

(** No stored balance is negative. *)
Definition solvent (db : list Player.t) : Prop :=
  Forall (fun p => forall c, 0 <= Wallet.get (Player.wallet p) c) db.

(** What the environment of the engine is taken to respect: the clock does
    not run backwards past the start of the game phase, amounts bet are not
    negative, the API reports no negative price, and what a resumed
    [placeBet] carries over its awaits (the document read, the price, the bet
    created) is of that kind too. *)
Definition fair (w : World) (a : Action) : Prop :=
  match a with
  | Tick now =>
      match gameStartTime w with
      | Some t0 => (t0 <= now)%Z
      | None => (0 <= now)%Z
      end
  | DoPlaceBet _ usdAmount _ _ feed _ =>
      0 <= usdAmount /\ CryptoService.feed_ok feed
  | ResumeDebit doc _ usdAmount _ price _ =>
      0 <= usdAmount /\ 0 < price
      /\ match doc with
         | Some player => forall c, 0 <= Wallet.get (Player.wallet player) c
         | None => True
         end
  | ResumeRecord bet _ _ => 0 <= Bet.cryptoAmount bet
  | _ => True
  end.

(** Every action of a sequence is fair in the state it meets. *)
Fixpoint orderly (w : World) (acts : list Action) : Prop :=
  match acts with
  | [] => True
  | a :: rest => fair w a /\ orderly (step w a) rest
  end.

(** What the solvency of the players rests on. *)
Definition sound (w : World) : Prop :=
  solvent (players w)
  /\ CryptoService.cache_ok (CryptoService.priceCache (cryptoService w))
  /\ 0 <= currentMultiplier w
  /\ Forall (fun b => 0 <= Bet.cryptoAmount b) (round_bets w).

(** Numbers of moderate size: no product of three of them and no sum of
    a few of them leaves the range of doubles. *)
Definition moderate (x : Q) : Prop := Qabs x < inject_Z (2 ^ 300).

(** The numbers a [cashOut] computes on are of moderate size. *)
Definition tame (w : World) : Prop :=
  moderate (currentMultiplier w)
  /\ Forall (fun b => moderate (Bet.usdAmount b)
                      /\ moderate (Bet.cryptoAmount b)
                      /\ moderate (Bet.priceAtTime b))
            (round_bets w)
  /\ Forall (fun p => moderate (Player.totalWon p)
                      /\ forall c, moderate (Wallet.get (Player.wallet p) c))
            (players w).

(** The multiplier against the records of the current round: the highest
    multiplier recorded is at least 1 and, once the round has started, at
    least the multiplier shown; a crashed round has an end time and was
    ended by a multiplier that had reached its crash point. *)
Definition peak_ok (w : World) : Prop :=
  match currentRound w with
  | None => True
  | Some r =>
      1 <= GameRound.maxMultiplier r
      /\ (GameRound.status r = active ->
          currentMultiplier w <= GameRound.maxMultiplier r)
      /\ (GameRound.status r = crashed ->
          GameRound.crashPoint r <= currentMultiplier w
          /\ currentMultiplier w <= GameRound.maxMultiplier r
          /\ GameRound.endTime r <> None)
  end.

End GameManager.

(* ===================================================================== *)
(** ** Paged queries

    [Model.find(filter).sort({ createdAt: -1 }).skip(skip).limit(limit)]
    and [Model.countDocuments(filter)] as the history routes use them.  A
    collection is the list of its documents in the order they were created.
    [page] and [limit] are what [parseInt] makes of the query parameters,
    positive integers. *)

Module Query.

Record Pagination : Type := mkPagination {
  page : Z;
  limit : Z;
  total : Z;
  totalPages : Z
}.

Definition find {A : Type} (filter : A -> bool) (collection : list A)
  : list A :=
  List.filter filter collection.

(** Newest first. *)
Definition sort_createdAt_desc {A : Type} (docs : list A) : list A :=
  rev docs.

Definition countDocuments {A : Type} (filter : A -> bool)
    (collection : list A) : Z :=
  Z.of_nat (List.length (List.filter filter collection)).

(** Lines 32-49 of gameRoutes.js, 113-138 of walletRoutes.js. *)
Definition paged {A : Type} (filter : A -> bool) (collection : list A)
    (page limit : positive) : list A * Pagination :=
  let skip := ((Z.pos page - 1) * Z.pos limit)%Z in
  let docs :=
    firstn (Pos.to_nat limit)
      (skipn (Z.to_nat skip) (sort_createdAt_desc (find filter collection))) in
  let total := countDocuments filter collection in
  (docs,
   mkPagination (Z.pos page) (Z.pos limit) total
     (Qceiling (inject_Z total / inject_Z (Z.pos limit)))).

End Query.

(* ===================================================================== *)
(** ** routes/gameRoutes.js *)

Module GameRoutes.
Local Open Scope string_scope.

(** A round document as [GameRound.findOne] returns it. *)
Definition RoundDoc : Type := GameRound.t jsnum.

Record Response : Type := mkResponse { statusCode : Z; json : payload }.

(** [GameRound.findOne({ roundId })] *)
Definition findOne (db : list RoundDoc) (roundId : string) : option RoundDoc :=
  find (fun r => String.eqb (GameRound.roundId r) roundId) db.



(** The body of [POST /verify]; a missing field is [None]. *)
Record VerifyBody : Type := mkBody {
  body_roundId : option string;
  body_seed : option string;
  body_expectedCrashPoint : option jsnum
}.

(** [!x] on what the body holds. *)
Definition missing_str (x : option string) : bool :=
  match x with
  | Some (String _ _) => false
  | _ => true
  end.

Definition missing_num (x : option jsnum) : bool :=
  match x with
  | Some n => negb (js_truthy n)
  | None => true
  end.

(** Lines 121-131: the crash point as the route recomputes it. *)
Definition recalculate (env : Env) (seed roundId : string) : jsnum :=
  let hash :=
    createHmac_hex (str_or (PROVABLY_FAIR_SECRET env) "default-secret")
                   (seed ++ roundId) in
  let hashNumber := parseInt16 (substring 0 8 hash) in
  let maxCrash := js_or (MAX_CRASH_MULTIPLIER env) (Fin 120%R) in
  let minCrash := js_or (MIN_CRASH_MULTIPLIER env) (Fin (101 / 100)%R) in
  let uniform := js_div hashNumber (Fin 4294967295%R) in
  let calculatedCrashPoint :=
    js_add minCrash (js_div (js_log (js_sub (Fin 1%R) uniform))
                            (Fin (- (1 / 10))%R)) in
  js_min (js_max calculatedCrashPoint minCrash) maxCrash.

(** [POST /verify] *)
Definition verify (env : Env) (db : list RoundDoc) (body : VerifyBody)
  : Response :=
  match body_roundId body, body_seed body, body_expectedCrashPoint body with
  | Some roundId, Some seed, Some expectedCrashPoint =>
      if missing_str (Some roundId) || missing_str (Some seed)
         || missing_num (Some expectedCrashPoint)
      then mkResponse 400 [ ("error", VStr "Missing required fields") ]
      else
        match findOne db roundId with
        | None => mkResponse 404 [ ("error", VStr "Round not found") ]
        | Some round =>
            if negb (Status_eqb (GameRound.status round) crashed)
            then mkResponse 400 [ ("error", VStr "Round not completed yet") ]
            else
              let computedHash := createHash_hex seed in
              if negb (String.eqb computedHash (GameRound.seedHash round))
              then mkResponse 400 [ ("error", VStr "Invalid seed") ]
              else
                let finalCrashPoint := recalculate env seed roundId in
                let isValid :=
                  js_ltb (js_abs (js_sub finalCrashPoint
                                         (GameRound.crashPoint round)))
                         (Fin (1 / 100)%R) in
                mkResponse 200
                  [ ("valid", VBool isValid);
                    ("providedCrashPoint", VReal expectedCrashPoint);
                    ("actualCrashPoint", VReal (GameRound.crashPoint round));
                    ("calculatedCrashPoint",
                     VReal (js_toFixed2 finalCrashPoint));
                    ("seedHash", VStr (GameRound.seedHash round));
                    ("seed", VStr (GameRound.seed round)) ]
        end
  | _, _, _ => mkResponse 400 [ ("error", VStr "Missing required fields") ]
  end.

(** The outcomes the specification names for [Verify]. *)
Inductive VerifyOutcome : Type :=
| Verified
| InvalidSeed
| Mismatch
| Refused.

Definition outcome (r : Response) : VerifyOutcome :=
  match field "valid" (json r), field "error" (json r) with
  | Some (VBool true), _ => Verified
  | Some (VBool false), _ => Mismatch
  | _, Some (VStr msg) =>
      if String.eqb msg "Invalid seed" then InvalidSeed else Refused
  | _, _ => Refused
  end.

(** A crashed round as the engine stored it under [env]. *)
Definition stored_round (env : Env) (seed roundId : string) : RoundDoc :=
  GameRound.mk jsnum roundId 0 (Some 1%Z)
    (GameManager.calculateCrashPoint env seed roundId) seed
    (GameManager.hashSeed seed) [] crashed 1%Q.

(** The comparison of line 133, [Math.abs(a - b) < 0.01], as a function of
    the two numbers. *)
Definition within_tolerance (a b : jsnum) : bool :=
  js_ltb (js_abs (js_sub a b)) (Fin (1 / 100)%R).

(** The sentences of the specification on [Verify], read on the route: it
    succeeds only if the hash matches and the recomputed crash point is
    within tolerance of the claimed one, fails with [InvalidSeed] exactly
    when the hash does not match, and with [Mismatch] exactly when the
    recomputed crash point is beyond tolerance of the claimed one. *)
Definition Verify_as_specified (env : Env) (db : list RoundDoc)
    (roundId seed : string) (claimed : jsnum) : Prop :=
  let r := verify env db (mkBody (Some roundId) (Some seed) (Some claimed)) in
  let close := within_tolerance (recalculate env seed roundId) claimed in
  (outcome r = Verified ->
   (exists round, findOne db roundId = Some round
                  /\ createHash_hex seed = GameRound.seedHash round)
   /\ close = true)
  /\ (outcome r = InvalidSeed <->
      exists round, findOne db roundId = Some round
                    /\ createHash_hex seed <> GameRound.seedHash round)
  /\ (outcome r = Mismatch <-> close = false).

(** [.select('roundId crashPoint startTime endTime maxMultiplier')] *)
Record HistoryEntry : Type := mkEntry {
  entry_roundId : string;
  entry_crashPoint : jsnum;
  entry_startTime : Z;
  entry_endTime : option Z;
  entry_maxMultiplier : Q
}.

Definition select (round : RoundDoc) : HistoryEntry :=
  mkEntry (GameRound.roundId round) (GameRound.crashPoint round)
    (GameRound.startTime round) (GameRound.endTime round)
    (GameRound.maxMultiplier round).

(** [GET /history?page=&limit=] *)
Definition history (db : list RoundDoc) (page limit : positive)
  : list HistoryEntry * Query.Pagination :=
  let (rounds, pagination) :=
    Query.paged (fun r => Status_eqb (GameRound.status r) crashed) db
      page limit in
  (map select rounds, pagination).

End GameRoutes.

(* ===================================================================== *)
(** ** Message fields

    A field of a message or of a request body at a place where the handler
    calls a method of strings on it. *)
Inductive Field : Type :=
| Absent             (* missing, or [null], [false], [0] *)
| Text (s : string)  (* a string; the empty one is falsy *)
| Other.             (* any other value: a number, [true], an object *)

(* ===================================================================== *)
(** ** websocket/WebSocketHandler.js

    The listeners of one socket.  An [Error] thrown by a handler is caught
    by its listener and sent to the socket as an ['error'] message. *)

Module WebSocketHandler.
Import GameManager.
Local Open Scope string_scope.
Local Open Scope Q_scope.

(** [socket.playerId], set by ['player:join'], and the messages
    [socket.emit] has sent to this socket. *)
Record Socket : Type := mkSocket {
  playerId : option string;
  sent : list Event
}.

Definition socket_emit (socket : Socket) (name : string) (data : payload)
  : Socket :=
  mkSocket (playerId socket) (sent socket ++ [(name, data)]).

(** [socket.emit('error', { message: error.message })] *)
Definition socket_error (socket : Socket) (message : string) : Socket :=
  socket_emit socket "error" [ ("message", VStr message) ].

(** The data of a ['game:bet'] message.  [usdAmount] is a number or is
    missing; a message that carries anything else there (a string, say, which
    the comparison and [parseFloat] would convert) is not described. *)
Record BetData : Type := mkBetData {
  usdAmount : option Q;
  cryptocurrency : Field
}.

(** The handlers call the engine on doubles ([placeBet_rounded] and
    [cashOut_rounded] with [Binary64.binary64]).  The confirmation reads
    [bet.roundId]; the bet [placeBet] returns has no such field, and a field
    that is [undefined] is not sent. *)
Definition handleBet (w : World) (socket : Socket) (data : BetData)
    (now : Z) (feed : CryptoService.Feed) (rand : Rand) : World * Socket :=
  match playerId socket with
  | None | Some EmptyString =>
      (w, socket_error socket "Player not authenticated")
  | Some playerId =>
      match usdAmount data with
      | None => (w, socket_error socket "Invalid bet amount")
      | Some usdAmount =>
          if CryptoService.falsy usdAmount || Qle_bool usdAmount 0
          then (w, socket_error socket "Invalid bet amount")
          else
            match cryptocurrency data with
            | Absent | Text EmptyString =>
                (w, socket_error socket "Invalid cryptocurrency")
            | Other =>
                (w, socket_error socket
                      "cryptocurrency.toUpperCase is not a function")
            | Text cryptocurrency =>
                match currency_of (CryptoService.toUpperCase cryptocurrency)
                with
                | None => (w, socket_error socket "Invalid cryptocurrency")
                | Some c =>
                    match placeBet_rounded Binary64.binary64 w playerId
                            usdAmount c now feed rand with
                    | (w', Ok bet) =>
                        (w', socket_emit socket "bet:confirmed"
                               [ ("usdAmount", VNum (Bet.usdAmount bet));
                                 ("cryptoAmount",
                                  VNum (Bet.cryptoAmount bet));
                                 ("cryptocurrency",
                                  VStr (currency_name
                                          (Bet.cryptocurrency bet)));
                                 ("priceAtTime",
                                  VNum (Bet.priceAtTime bet)) ])
                    | (w', Err e) => (w', socket_error socket (message e))
                    end
                end
            end
      end
  end.

Definition handleCashout (w : World) (socket : Socket) (rand : Rand)
  : World * Socket :=
  match playerId socket with
  | None | Some EmptyString =>
      (w, socket_error socket "Player not authenticated")
  | Some playerId =>
      match cashOut_rounded Binary64.binary64 w playerId rand with
      | (w', Ok result) =>
          (w', socket_emit socket "cashout:confirmed"
                 [ ("multiplier", VNum (res_multiplier result));
                   ("payout",
                    VObj [ ("cryptoAmount",
                            VNum (Payout.cryptoAmount (res_payout result)));
                           ("usdAmount",
                            VNum (Payout.usdAmount (res_payout result))) ]) ])
      | (w', Err e) => (w', socket_error socket (message e))
      end
  end.

Definition handleGameStateRequest (w : World) (socket : Socket) : Socket :=
  socket_emit socket "game:state" (getGameState w).

End WebSocketHandler.

(* ===================================================================== *)
(** ** routes/walletRoutes.js

    The routes read and write the [Player] and [Transaction] collections
    and keep a price service of their own. *)

Module WalletRoutes.
Import GameRoutes.
Local Open Scope string_scope.
Local Open Scope Q_scope.

Record Store : Type := mkStore {
  players : list Player.t;
  transactions : list Transaction.t;
  cryptoService : CryptoService.t
}.

(** The body of [POST /deposit].  [playerId] is a string or is missing and
    [amount] is a number or is missing; a body that carries anything else
    there is not described. *)
Record DepositBody : Type := mkDeposit {
  body_playerId : option string;
  body_amount : option Q;
  body_cryptocurrency : Field
}.

(** The [catch] block of a route. *)
Definition server_error (st : Store) : Store * Response :=
  (st, mkResponse 500 [ ("error", VStr "Internal server error") ]).

Definition bad_request (st : Store) (error : string) : Store * Response :=
  (st, mkResponse 400 [ ("error", VStr error) ]).

(** [POST /deposit], on doubles: the sum of line 74 and the product of
    line 84 are rounded. *)
Definition deposit (st : Store) (body : DepositBody) (now : Z)
    (feed : CryptoService.Feed) (rand : GameManager.Rand)
  : Store * Response :=
  match body_playerId body, body_amount body, body_cryptocurrency body with
  | Some (String _ _), Some amount, Other =>
      if CryptoService.falsy amount
      then bad_request st "Missing required fields"
      else if Qle_bool amount 0
      then bad_request st "Amount must be positive"
      else server_error st   (* [cryptocurrency.toUpperCase] of a non-string *)
  | Some (String _ _ as playerId), Some amount,
    Text (String _ _ as cryptocurrency) =>
      if CryptoService.falsy amount
      then bad_request st "Missing required fields"
      else if Qle_bool amount 0
      then bad_request st "Amount must be positive"
      else
        match currency_of (CryptoService.toUpperCase cryptocurrency) with
        | None => bad_request st "Unsupported cryptocurrency"
        | Some crypto =>
            match Player.findOne (players st) playerId with
            | None =>
                (st, mkResponse 404 [ ("error", VStr "Player not found") ])
            | Some player =>
                match CryptoService.run_call
                        (CryptoService.getPrice (cryptoService st) now
                           (CryptoService.toUpperCase cryptocurrency)) feed
                with
                | (cs, Err _) =>
                    (mkStore (players st) (transactions st) cs,
                     mkResponse 500
                       [ ("error", VStr "Internal server error") ])
                | (cs, Ok price) =>
                    let previous := Wallet.get (Player.wallet player) crypto in
                    let newBalance :=
                      Binary64.binary64
                        ((if CryptoService.falsy previous then 0 else previous)
                         + amount) in
                    let usdAmount := Binary64.binary64 (amount * price) in
                    let wallet' :=
                      Wallet.set (Player.wallet player) crypto newBalance in
                    let player' :=
                      Player.mk (Player.playerId player)
                        (Player.username player) wallet'
                        (Player.totalGamesPlayed player)
                        (Player.totalWon player) (Player.totalLost player) in
                    let transaction :=
                      Transaction.mk (GameManager.txId rand) playerId
                        "deposit" tx_deposit usdAmount amount crypto
                        price (GameManager.txHash rand) None wallet' in
                    (mkStore (Player.save (players st) player')
                       (transactions st ++ [transaction]) cs,
                     mkResponse 200
                       [ ("success", VBool true);
                         ("transaction",
                          VObj [ ("transactionId",
                                  VStr (GameManager.txId rand));
                                 ("amount", VNum amount);
                                 ("cryptocurrency",
                                  VStr (currency_name crypto));
                                 ("usdValue",
                                  VNum (Binary64.binary64
                                          (GameManager.toFixed usdAmount 2)));
                                 ("newBalance", VNum newBalance) ]) ])
                end
            end
        end
  | _, _, _ => bad_request st "Missing required fields"
  end.

(** The filter of [GET /transactions/:playerId]: [type] narrows it only
    when it is one of the four known types. *)
Definition transactions_filter (playerId : string) (type : option string)
    (t : Transaction.t) : bool :=
  String.eqb (Transaction.playerId t) playerId
  && match type with
     | Some s =>
         match type_of s with
         | Some ty => TxType_eqb (Transaction.type t) ty
         | None => true
         end
     | None => true
     end.

(** [GET /transactions/:playerId?page=&limit=&type=] *)
Definition getTransactions (db : list Transaction.t) (playerId : string)
    (page limit : positive) (type : option string)
  : list Transaction.t * Query.Pagination :=
  Query.paged (transactions_filter playerId type) db page limit.

End WalletRoutes.

(* ===================================================================== *)
(** ** The reference definition of the crash point

    Written after the specification: the keyed digest of [seed ‖ roundId],
    its first four bytes as an unsigned big-endian integer [n],
    [u = n / 0xFFFFFFFF], the inverse exponential CDF
    [minCrash + ln (1 - u) / - decayRate], clamped to [[minCrash, maxCrash]].
    [ln 0] is [-Infinity]. *)

Module Reference.
Local Open Scope R_scope.

Definition clamp (x lo hi : jsnum) : jsnum :=
  if js_ltb x lo then lo else if js_ltb hi x then hi else x.

Definition CrashPoint (secretKey seed roundId : string)
    (minCrash maxCrash decayRate : R) : jsnum :=
  let d := Sha256.hmac_sha256 (list_ascii_of_string secretKey)
             (list_ascii_of_string seed ++ list_ascii_of_string roundId) in
  let n := Sha256.be_of_bytes (firstn 4 d) in
  let u := IZR n / 4294967295 in
  clamp (js_add (Fin minCrash)
                (js_div (js_log (Fin (1 - u))) (Fin (- decayRate))))
        (Fin minCrash) (Fin maxCrash).

End Reference.

(** Lines 296-300 of GameManager.js (129-131 of gameRoutes.js) once
    [hashNum], [minCrash] and [maxCrash] are known: the arithmetic the two
    functions share. *)
Definition crash_of (minCrash maxCrash hashNum : jsnum) : jsnum :=
  let uniform := js_div hashNum (Fin 4294967295%R) in
  let crash :=
    js_add minCrash (js_div (js_log (js_sub (Fin 1%R) uniform))
                            (Fin (- (1 / 10))%R)) in
  js_min (js_max crash minCrash) maxCrash.

(** [parseInt(hash.substring(0, 8), 16)] as an integer: the first four
    bytes of the keyed digest, big-endian (lemma [hashNum_be]). *)
Definition hashNum (key seed roundId : string) : Z :=
  Sha256.be_of_bytes
    (firstn 4 (Sha256.hmac_sha256 (list_ascii_of_string key)
                 (list_ascii_of_string (seed ++ roundId)))).

(* ===================================================================== *)
(** * Properties *)

(** ** Test vectors: FIPS 180-4 ["abc"], RFC 4231 test case 2 *)

Example K256_ends :
  (List.length Sha256.K256 = 64%nat
   /\ nth 0 Sha256.K256 0 = 0x428a2f98 /\ nth 63 Sha256.K256 0 = 0xc67178f2
   /\ nth 0 Sha256.H0 0 = 0x6a09e667 /\ nth 7 Sha256.H0 0 = 0x5be0cd19)%Z.
Proof. repeat split. Qed.

Example sha256_abc :
  createHash_hex "abc"
  = "ba7816bf8f01cfea414140de5dae2223b00361a396177a9cb410ff61f20015ad"%string.
Proof. vm_compute. reflexivity. Qed.

Example hmac_sha256_rfc4231 :
  createHmac_hex "Jefe" "what do ya want for nothing?"
  = "5bdcc146bf60754e6a042426089575c75a003f089d2739839dec58b964ec3843"%string.
Proof. vm_compute. reflexivity. Qed.

(** ** Digests have 32 bytes *)

Section DigestLength.
Import Sha256.

Lemma compress_length (h block : list Z) :
  List.length h = 8%nat -> List.length (compress h block) = 8%nat.
Proof.
  intros Hh. unfold compress.
  rewrite length_map, length_combine, Hh. reflexivity.
Qed.

Lemma fold_compress_length (bs : list (list Z)) :
  forall h, List.length h = 8%nat ->
            List.length (fold_left compress bs h) = 8%nat.
Proof.
  induction bs as [|b bs IH]; intros h Hh; simpl.
  - exact Hh.
  - apply IH, compress_length, Hh.
Qed.

Lemma flat_map_bytes_length (h : list Z) :
  List.length (flat_map bytes_of_word h) = (4 * List.length h)%nat.
Proof.
  induction h as [|x h IH]; simpl; [reflexivity|].
  rewrite IH. lia.
Qed.

Lemma sha256_length (msg : list ascii) :
  List.length (sha256 msg) = 32%nat.
Proof.
  unfold sha256. rewrite flat_map_bytes_length.
  rewrite fold_compress_length; reflexivity.
Qed.

Lemma hmac_sha256_length (key msg : list ascii) :
  List.length (hmac_sha256 key msg) = 32%nat.
Proof. unfold hmac_sha256. apply sha256_length. Qed.

(** Four bytes read big-endian stay below [2^32]. *)
Lemma be_of_bytes_4 (b0 b1 b2 b3 : ascii) :
  (0 <= be_of_bytes [b0; b1; b2; b3] <= 4294967295)%Z.
Proof.
  unfold be_of_bytes; simpl.
  pose proof (N_ascii_bounded b0). pose proof (N_ascii_bounded b1).
  pose proof (N_ascii_bounded b2). pose proof (N_ascii_bounded b3).
  lia.
Qed.

End DigestLength.

(** ** [parseInt] of the first eight hex digits is the big-endian value of
    the first four bytes *)

Section HexPrefix.
Import Sha256.

Lemma hex_value_high (b : ascii) :
  hex_value (hex_digit (N_of_ascii b / 16))
  = Some (Z.of_N (N_of_ascii b / 16)).
Proof. destruct b as [[] [] [] [] [] [] [] []]; vm_compute; reflexivity. Qed.

Lemma hex_value_low (b : ascii) :
  hex_value (hex_digit (N_of_ascii b mod 16))
  = Some (Z.of_N (N_of_ascii b mod 16)).
Proof. destruct b as [[] [] [] [] [] [] [] []]; vm_compute; reflexivity. Qed.

Lemma hex_of_byte_digits (b : ascii) (s : string) (acc : Z) :
  hex_digits (String (hex_digit (N_of_ascii b / 16))
                (String (hex_digit (N_of_ascii b mod 16)) s)) acc
  = hex_digits s (256 * acc + Z.of_N (N_of_ascii b))%Z.
Proof.
  cbn [hex_digits]. rewrite hex_value_high, hex_value_low. f_equal.
  rewrite N2Z.inj_div, N2Z.inj_mod.
  pose proof (Z.div_mod (Z.of_N (N_of_ascii b)) 16). lia.
Qed.

Lemma parseInt16_prefix (b0 b1 b2 b3 : ascii) (rest : list ascii) :
  parseInt16 (substring 0 8 (hex (b0 :: b1 :: b2 :: b3 :: rest)))
  = Fin (IZR (be_of_bytes [b0; b1; b2; b3])).
Proof.
  unfold hex. cbn [flat_map hex_of_byte app string_of_list_ascii substring].
  unfold parseInt16.
  rewrite hex_value_high, !hex_of_byte_digits.
  replace (substring 0 0 (string_of_list_ascii (flat_map hex_of_byte rest)))
    with EmptyString
    by (destruct (string_of_list_ascii (flat_map hex_of_byte rest));
        reflexivity).
  cbn [hex_digits]. unfold be_of_bytes. cbn [fold_left]. do 2 f_equal. lia.
Qed.

End HexPrefix.

(** ** The crash formula on a 32-bit integer *)

Section CrashFormula.
Local Open Scope R_scope.

Ltac js_cases :=
  repeat match goal with
         | |- context [Rlt_dec ?a ?b] => destruct (Rlt_dec a b)
         | |- context [Req_dec_T ?a ?b] => destruct (Req_dec_T a b)
         end.

Lemma ln_unit_nonpos (x : R) : 0 < x <= 1 -> ln x <= 0.
Proof.
  intros [H0 H1]. rewrite <- ln_1.
  destruct H1 as [H1 | ->]; [left; apply ln_increasing; assumption | lra].
Qed.

(** The value below the top of the range: the logarithm is finite. *)
Lemma crash_of_finite (lo hi : R) (n : Z) :
  (0 <= n < 4294967295)%Z ->
  crash_of (Fin lo) (Fin hi) (Fin (IZR n))
  = Fin (Rmin (lo + ln (1 - IZR n / 4294967295) / - (1 / 10)) hi)
    \/ hi < lo.
Proof.
  intros [Hn0 Hn1]. apply IZR_le in Hn0. apply IZR_lt in Hn1.
  destruct (Rlt_dec hi lo) as [Hlt | Hge]; [right; exact Hlt | left].
  assert (Hx : 0 < 1 - IZR n / 4294967295 <= 1).
  { split.
    - apply Rlt_0_minus. apply Rmult_lt_reg_r with 4294967295; [lra|].
      unfold Rdiv. rewrite Rmult_assoc, Rinv_l; lra.
    - assert (0 <= IZR n / 4294967295); [|lra].
      apply Rmult_le_pos; [lra|]. left. apply Rinv_0_lt_compat. lra. }
  pose proof (ln_unit_nonpos _ Hx) as Hln.
  assert (Hq : 0 <= ln (1 - IZR n / 4294967295) / - (1 / 10)).
  { unfold Rdiv at 1. replace (/ - (1 / 10)) with (- 10) by (field).
    lra. }
  unfold crash_of, js_sub, js_div, js_neg, js_add, js_log.
  destruct (Req_dec_T 4294967295 0) as [E|_]; [lra|].
  change (1 + - (IZR n / 4294967295)) with (1 - IZR n / 4294967295).
  destruct (Rlt_dec 0 (1 - IZR n / 4294967295)) as [_|N]; [|lra].
  destruct (Req_dec_T (- (1 / 10)) 0) as [E|_]; [lra|].
  unfold js_max, js_min, js_ltb.
  js_cases; f_equal; unfold Rmin; destruct (Rle_dec _ _); lra.
Qed.

(** At the top of the range the logarithm is [-Infinity] and the clamp
    returns [maxCrash]. *)
Lemma crash_of_top (lo hi : R) :
  crash_of (Fin lo) (Fin hi) (Fin (IZR 4294967295)) = Fin hi.
Proof.
  unfold crash_of, js_sub, js_div, js_neg, js_add, js_log.
  destruct (Req_dec_T 4294967295 0) as [E|_]; [lra|].
  replace (1 + - (4294967295 / 4294967295)) with 0 by field.
  destruct (Rlt_dec 0 0) as [F|_]; [lra|].
  destruct (Req_dec_T 0 0) as [_|F]; [|lra].
  destruct (Rlt_dec (- (1 / 10)) 0) as [_|F]; [|lra].
  reflexivity.
Qed.

Lemma crash_of_range (lo hi : R) (n : Z) :
  (0 <= n <= 4294967295)%Z -> lo <= hi ->
  exists r, crash_of (Fin lo) (Fin hi) (Fin (IZR n)) = Fin r /\ lo <= r <= hi.
Proof.
  intros Hn Hle.
  destruct (Z.eq_dec n 4294967295) as [->|Hne].
  - exists hi. rewrite crash_of_top. split; [reflexivity | lra].
  - destruct (crash_of_finite lo hi n) as [E | F]; [lia | | lra].
    rewrite E. eexists; split; [reflexivity|].
    assert (Hn' : (0 <= n < 4294967295)%Z) by lia.
    destruct Hn' as [Hn0 Hn1]. apply IZR_le in Hn0. apply IZR_lt in Hn1.
    assert (Hx : 0 < 1 - IZR n / 4294967295 <= 1).
    { split.
      - apply Rlt_0_minus. apply Rmult_lt_reg_r with 4294967295; [lra|].
        unfold Rdiv. rewrite Rmult_assoc, Rinv_l; lra.
      - assert (0 <= IZR n / 4294967295); [|lra].
        apply Rmult_le_pos; [lra|]. left. apply Rinv_0_lt_compat. lra. }
    pose proof (ln_unit_nonpos _ Hx) as Hln.
    assert (Hq : 0 <= ln (1 - IZR n / 4294967295) / - (1 / 10)).
    { unfold Rdiv at 1. replace (/ - (1 / 10)) with (- 10) by (field).
      lra. }
    unfold Rmin; destruct (Rle_dec _ _); lra.
Qed.

(** With [maxCrash] below [minCrash] the clamp returns [maxCrash],
    whatever the hash. *)
Lemma crash_of_inverted (lo hi : R) (n : Z) :
  (0 <= n <= 4294967295)%Z -> hi < lo ->
  crash_of (Fin lo) (Fin hi) (Fin (IZR n)) = Fin hi.
Proof.
  intros Hn Hlt.
  destruct (Z.eq_dec n 4294967295) as [->|Hne]; [apply crash_of_top|].
  assert (Hn' : (0 <= n < 4294967295)%Z) by lia.
  destruct Hn' as [Hn0 Hn1]. apply IZR_le in Hn0. apply IZR_lt in Hn1.
  assert (Hx : 0 < 1 - IZR n / 4294967295 <= 1).
  { split.
    - apply Rlt_0_minus. apply Rmult_lt_reg_r with 4294967295; [lra|].
      unfold Rdiv. rewrite Rmult_assoc, Rinv_l; lra.
    - assert (0 <= IZR n / 4294967295); [|lra].
      apply Rmult_le_pos; [lra|]. left. apply Rinv_0_lt_compat. lra. }
  pose proof (ln_unit_nonpos _ Hx) as Hln.
  assert (Hq : 0 <= ln (1 - IZR n / 4294967295) / - (1 / 10)).
  { unfold Rdiv at 1. replace (/ - (1 / 10)) with (- 10) by (field).
    lra. }
  unfold crash_of, js_sub, js_div, js_neg, js_add, js_log.
  destruct (Req_dec_T 4294967295 0) as [E|_]; [lra|].
  change (1 + - (IZR n / 4294967295)) with (1 - IZR n / 4294967295).
  destruct (Rlt_dec 0 (1 - IZR n / 4294967295)) as [_|N]; [|lra].
  destruct (Req_dec_T (- (1 / 10)) 0) as [E|_]; [lra|].
  unfold js_max, js_min, js_ltb.
  js_cases; try reflexivity; try (f_equal; lra); lra.
Qed.

(** The code's [Math.min(Math.max(crash, minCrash), maxCrash)] is the
    clamp of the reference on every 32-bit integer. *)
Lemma crash_of_clamp (lo hi : R) (n : Z) :
  (0 <= n <= 4294967295)%Z -> lo <= hi ->
  crash_of (Fin lo) (Fin hi) (Fin (IZR n))
  = Reference.clamp
      (js_add (Fin lo)
         (js_div (js_log (Fin (1 - IZR n / 4294967295))) (Fin (- (1 / 10)))))
      (Fin lo) (Fin hi).
Proof.
  intros Hn Hle.
  unfold crash_of, js_sub, js_neg.
  unfold js_div at 2. destruct (Req_dec_T 4294967295 0) as [E|_]; [lra|].
  unfold js_add at 2.
  change (1 + - (IZR n / 4294967295)) with (1 - IZR n / 4294967295).
  destruct (js_add (Fin lo)
              (js_div (js_log (Fin (1 - IZR n / 4294967295)))
                      (Fin (- (1 / 10))))) as [c| | |];
    unfold Reference.clamp, js_max, js_min, js_ltb; js_cases;
    try reflexivity; try (f_equal; lra); try lra.
Qed.

End CrashFormula.

(** ** The crash point of the engine and of the verification route *)

Section CrashPoint.
Local Open Scope R_scope.

Lemma list_ascii_of_string_app (a b : string) :
  list_ascii_of_string (a ++ b)
  = (list_ascii_of_string a ++ list_ascii_of_string b)%list.
Proof. induction a as [|c a IH]; simpl; [reflexivity | now rewrite IH]. Qed.

(** [parseInt(hash.substring(0, 8), 16)] of an HMAC hex digest. *)
Lemma hashNum_be (key msg : string) :
  parseInt16 (substring 0 8 (createHmac_hex key msg))
  = Fin (IZR (Sha256.be_of_bytes
                (firstn 4 (Sha256.hmac_sha256 (list_ascii_of_string key)
                                              (list_ascii_of_string msg))))).
Proof.
  unfold createHmac_hex.
  pose proof (hmac_sha256_length (list_ascii_of_string key)
                                 (list_ascii_of_string msg)) as L.
  destruct (Sha256.hmac_sha256 _ _) as [|b0 [|b1 [|b2 [|b3 rest]]]];
    try discriminate L.
  rewrite parseInt16_prefix. reflexivity.
Qed.

Lemma hashNum_range (key msg : list ascii) :
  (0 <= Sha256.be_of_bytes (firstn 4 (Sha256.hmac_sha256 key msg))
     <= 4294967295)%Z.
Proof.
  pose proof (hmac_sha256_length key msg) as L.
  destruct (Sha256.hmac_sha256 _ _) as [|b0 [|b1 [|b2 [|b3 rest]]]];
    try discriminate L.
  apply be_of_bytes_4.
Qed.

Lemma calculateCrashPoint_crash_of (env : Env) (seed roundId : string) :
  GameManager.calculateCrashPoint env seed roundId
  = crash_of (GameManager.minCrash env) (GameManager.maxCrash env)
      (Fin (IZR (Sha256.be_of_bytes
         (firstn 4 (Sha256.hmac_sha256
                      (list_ascii_of_string (GameManager.secretKey env))
                      (list_ascii_of_string (seed ++ roundId))))))).
Proof.
  unfold GameManager.calculateCrashPoint. rewrite hashNum_be. reflexivity.
Qed.

Lemma recalculate_crash_of (env : Env) (seed roundId : string) :
  GameRoutes.recalculate env seed roundId
  = crash_of (GameManager.minCrash env) (GameManager.maxCrash env)
      (Fin (IZR (Sha256.be_of_bytes
         (firstn 4 (Sha256.hmac_sha256
                      (list_ascii_of_string
                         (str_or (PROVABLY_FAIR_SECRET env) "default-secret"))
                      (list_ascii_of_string (seed ++ roundId))))))).
Proof.
  unfold GameRoutes.recalculate. rewrite hashNum_be. reflexivity.
Qed.

(** With a configured secret the route recomputes what the engine
    computed. *)
Lemma recalculate_configured (env : Env) (seed roundId : string)
    (c : ascii) (k : string) :
  PROVABLY_FAIR_SECRET env = Some (String c k) ->
  GameRoutes.recalculate env seed roundId
  = GameManager.calculateCrashPoint env seed roundId.
Proof.
  intros H. rewrite recalculate_crash_of, calculateCrashPoint_crash_of.
  unfold GameManager.secretKey. rewrite H. reflexivity.
Qed.

Lemma calculateCrashPoint_range (env : Env) (seed roundId : string)
    (lo hi : R) :
  GameManager.minCrash env = Fin lo ->
  GameManager.maxCrash env = Fin hi ->
  lo <= hi ->
  exists r, GameManager.calculateCrashPoint env seed roundId = Fin r
            /\ lo <= r <= hi.
Proof.
  intros Hlo Hhi Hle. rewrite calculateCrashPoint_crash_of, Hlo, Hhi.
  apply crash_of_range; [apply hashNum_range | exact Hle].
Qed.

(** With [1 < minCrash <= maxCrash], as under the defaults 1.01 and 120,
    every crash point exceeds 1. *)
Lemma calculateCrashPoint_above_one (env : Env) (seed roundId : string)
    (lo hi : R) :
  GameManager.minCrash env = Fin lo ->
  GameManager.maxCrash env = Fin hi ->
  1 < lo <= hi ->
  exists r, GameManager.calculateCrashPoint env seed roundId = Fin r /\ 1 < r.
Proof.
  intros Hlo Hhi [H1 Hle].
  destruct (calculateCrashPoint_range env seed roundId lo hi Hlo Hhi Hle)
    as (r & E & Hr).
  exists r. split; [exact E | lra].
Qed.

(** With [maxCrash] configured below [minCrash], every crash point is
    [maxCrash]. *)
Lemma calculateCrashPoint_inverted (env : Env) (seed roundId : string)
    (lo hi : R) :
  GameManager.minCrash env = Fin lo ->
  GameManager.maxCrash env = Fin hi ->
  hi < lo ->
  GameManager.calculateCrashPoint env seed roundId = Fin hi.
Proof.
  intros Hlo Hhi Hlt. rewrite calculateCrashPoint_crash_of, Hlo, Hhi.
  apply crash_of_inverted; [apply hashNum_range | exact Hlt].
Qed.

(** C1.  Under a configuration with finite [minCrash <= maxCrash],
    [calculateCrashPoint(seed, roundId)] is the reference crash point of the
    specification for the engine's secret key and decay rate 0.1 (HMAC-SHA256
    of [seed ‖ roundId], first four bytes big-endian over [0xFFFFFFFF],
    inverse exponential CDF, clamp), and it lies in [[minCrash, maxCrash]]. *)
Theorem calculateCrashPoint_reference (env : Env) (seed roundId : string)
    (lo hi : R) :
  GameManager.minCrash env = Fin lo ->
  GameManager.maxCrash env = Fin hi ->
  lo <= hi ->
  GameManager.calculateCrashPoint env seed roundId
  = Reference.CrashPoint (GameManager.secretKey env) seed roundId
      lo hi (1 / 10)
  /\ exists r, GameManager.calculateCrashPoint env seed roundId = Fin r
               /\ lo <= r <= hi.
Proof.
  intros Hlo Hhi Hle. split.
  - rewrite calculateCrashPoint_crash_of, Hlo, Hhi.
    rewrite list_ascii_of_string_app.
    unfold Reference.CrashPoint.
    apply crash_of_clamp; [apply hashNum_range | exact Hle].
  - apply calculateCrashPoint_range; assumption.
Qed.

Lemma calculateCrashPoint_reference_witness :
  GameManager.calculateCrashPoint default_env "abc" "round_1"
  = Reference.CrashPoint (GameManager.secretKey default_env) "abc" "round_1"
      (101 / 100) 120 (1 / 10)
  /\ exists r, GameManager.calculateCrashPoint default_env "abc" "round_1"
               = Fin r /\ 101 / 100 <= r <= 120.
Proof.
  apply (calculateCrashPoint_reference default_env "abc" "round_1"
           (101 / 100) 120); [reflexivity | reflexivity | lra].
Defined.

End CrashPoint.

(** ** [POST /verify] *)

Section Verify.
Local Open Scope R_scope.
Import GameRoutes.

Lemma recalculate_range (env : Env) (seed roundId : string) (lo hi : R) :
  GameManager.minCrash env = Fin lo ->
  GameManager.maxCrash env = Fin hi ->
  lo <= hi ->
  exists r, recalculate env seed roundId = Fin r /\ lo <= r <= hi.
Proof.
  intros Hlo Hhi Hle. rewrite recalculate_crash_of, Hlo, Hhi.
  apply crash_of_range; [apply hashNum_range | exact Hle].
Qed.

Lemma js_truthy_Fin (r : R) : r <> 0 -> js_truthy (Fin r) = true.
Proof. intros H. unfold js_truthy. destruct (Req_dec_T r 0); tauto. Qed.

Lemma within_tolerance_Fin (a b : R) :
  within_tolerance (Fin a) (Fin b) = true <-> Rabs (a - b) < 1 / 100.
Proof.
  unfold within_tolerance, js_sub, js_neg, js_add, js_abs, js_ltb.
  change (a + - b) with (a - b).
  destruct (Rlt_dec (Rabs (a - b)) (1 / 100)); split; intros; try tauto;
    discriminate.
Qed.

(** The response once the body is complete and names a crashed round. *)
Lemma verify_crashed (env : Env) (db : list RoundDoc)
    (roundId seed : string) (claimed : jsnum) (round : RoundDoc) :
  roundId <> EmptyString -> seed <> EmptyString ->
  js_truthy claimed = true ->
  findOne db roundId = Some round ->
  GameRound.status round = crashed ->
  outcome (verify env db (mkBody (Some roundId) (Some seed) (Some claimed)))
  = if negb (String.eqb (createHash_hex seed) (GameRound.seedHash round))
    then InvalidSeed
    else if within_tolerance (recalculate env seed roundId)
                             (GameRound.crashPoint round)
         then Verified else Mismatch.
Proof.
  intros Hr Hs Ht Hf Hst. unfold verify.
  cbn [body_roundId body_seed body_expectedCrashPoint].
  destruct roundId as [|c0 rid]; [congruence|].
  destruct seed as [|c1 sd]; [congruence|].
  cbn [missing_str missing_num orb]. rewrite Ht. cbn [negb].
  rewrite Hf, Hst. cbn [Status_eqb negb].
  destruct (String.eqb (createHash_hex (String c1 sd))
                       (GameRound.seedHash round)); cbn [negb].
  - unfold within_tolerance.
    destruct (js_ltb _ _); reflexivity.
  - reflexivity.
Qed.

Lemma findOne_stored (env : Env) (seed roundId : string) :
  findOne [stored_round env seed roundId] roundId
  = Some (stored_round env seed roundId).
Proof.
  unfold findOne. cbn [find stored_round GameRound.roundId].
  rewrite String.eqb_refl. reflexivity.
Qed.

(** With a configured secret, verifying the engine's own round succeeds. *)
Lemma verify_round_trip_configured (env : Env) (seed roundId : string)
    (claimed : jsnum) (c : ascii) (k : string) (lo hi : R) :
  PROVABLY_FAIR_SECRET env = Some (String c k) ->
  GameManager.minCrash env = Fin lo ->
  GameManager.maxCrash env = Fin hi ->
  lo <= hi ->
  roundId <> EmptyString -> seed <> EmptyString ->
  js_truthy claimed = true ->
  outcome (verify env [stored_round env seed roundId]
             (mkBody (Some roundId) (Some seed) (Some claimed)))
  = Verified.
Proof.
  intros Hk Hlo Hhi Hle Hr Hs Ht.
  rewrite (verify_crashed env _ roundId seed claimed
             (stored_round env seed roundId) Hr Hs Ht
             (findOne_stored env seed roundId) eq_refl).
  cbn [stored_round GameRound.seedHash GameRound.crashPoint].
  unfold GameManager.hashSeed. rewrite String.eqb_refl. cbn [negb].
  rewrite (recalculate_configured env seed roundId c k Hk).
  destruct (calculateCrashPoint_range env seed roundId lo hi Hlo Hhi Hle)
    as (r & -> & _).
  replace (within_tolerance (Fin r) (Fin r)) with true; [reflexivity|].
  symmetry. apply within_tolerance_Fin.
  replace (r - r) with 0 by ring. rewrite Rabs_R0. lra.
Qed.

(** C7 as stated fails: the route never compares with the claimed crash
    point.  A genuine crashed round verified with the absurd claim 999 is
    reported valid. *)
Lemma Verify_as_specified_counterexample :
  ~ Verify_as_specified (mkEnv (Some "k"%string) NaN NaN)
      [stored_round (mkEnv (Some "k"%string) NaN NaN) "abc" "round_1"]
      "round_1" "abc" (Fin 999).
Proof.
  intros (Hok & _ & _).
  assert (Ht : js_truthy (Fin 999) = true) by (apply js_truthy_Fin; lra).
  destruct Hok as [_ Hclose].
  - apply (verify_round_trip_configured (mkEnv (Some "k"%string) NaN NaN)
             "abc" "round_1" (Fin 999) "k"%char EmptyString (101 / 100) 120);
      try reflexivity; try discriminate; [lra | exact Ht].
  - destruct (recalculate_range (mkEnv (Some "k"%string) NaN NaN)
                "abc" "round_1" (101 / 100) 120) as (r & Hr & Hlo & Hhi);
      try reflexivity; [lra|].
    rewrite Hr in Hclose. apply within_tolerance_Fin in Hclose.
    unfold Rabs in Hclose. destruct (Rcase_abs _); lra.
Qed.

(** C7, amended.  For a complete request naming a stored, crashed round,
    the route succeeds exactly when [hash(seed)] equals the stored
    [seedHash] and the recomputed crash point is within 0.01 of the crash
    point stored for the round; it answers [Invalid seed] exactly when the
    hash differs, and reports a mismatch exactly when the hash matches and
    the recomputed crash point is not within 0.01 of the stored one.  The
    claimed crash point does not enter the outcome. *)
Theorem verify_outcome (env : Env) (db : list RoundDoc)
    (roundId seed : string) (claimed : jsnum) (round : RoundDoc) :
  roundId <> EmptyString -> seed <> EmptyString ->
  js_truthy claimed = true ->
  findOne db roundId = Some round ->
  GameRound.status round = crashed ->
  let r := verify env db (mkBody (Some roundId) (Some seed) (Some claimed)) in
  let close :=
    within_tolerance (recalculate env seed roundId)
                     (GameRound.crashPoint round) in
  (outcome r = Verified <->
   createHash_hex seed = GameRound.seedHash round /\ close = true)
  /\ (outcome r = InvalidSeed <->
      createHash_hex seed <> GameRound.seedHash round)
  /\ (outcome r = Mismatch <->
      createHash_hex seed = GameRound.seedHash round /\ close = false)
  /\ (forall claimed', js_truthy claimed' = true ->
      outcome (verify env db
                 (mkBody (Some roundId) (Some seed) (Some claimed')))
      = outcome r).
Proof.
  intros Hr Hs Ht Hf Hst r close. subst r close.
  assert (Hall : forall c, js_truthy c = true ->
            outcome (verify env db (mkBody (Some roundId) (Some seed) (Some c)))
            = if negb (String.eqb (createHash_hex seed)
                                  (GameRound.seedHash round))
              then InvalidSeed
              else if within_tolerance (recalculate env seed roundId)
                                       (GameRound.crashPoint round)
                   then Verified else Mismatch).
  { intros c Hc. apply verify_crashed; assumption. }
  rewrite (Hall claimed Ht).
  split; [|split; [|split]].
  - destruct (String.eqb_spec (createHash_hex seed)
                (GameRound.seedHash round)) as [E | N]; cbn [negb];
      destruct (within_tolerance _ _); split; intros H;
      try discriminate; try (destruct H; congruence); auto.
  - destruct (String.eqb_spec (createHash_hex seed)
                (GameRound.seedHash round)) as [E | N]; cbn [negb];
      try destruct (within_tolerance _ _); split; intros H;
      try discriminate; try congruence; auto.
  - destruct (String.eqb_spec (createHash_hex seed)
                (GameRound.seedHash round)) as [E | N]; cbn [negb];
      destruct (within_tolerance _ _); split; intros H;
      try discriminate; try (destruct H; congruence); auto.
  - intros c Hc. apply Hall, Hc.
Qed.

Lemma verify_outcome_witness :
  let env := mkEnv (Some "k"%string) NaN NaN in
  let round := stored_round env "abc" "round_1" in
  let r := verify env [round]
             (mkBody (Some "round_1"%string) (Some "abc"%string)
                     (Some (Fin 999))) in
  let close :=
    within_tolerance (recalculate env "abc" "round_1")
                     (GameRound.crashPoint round) in
  (outcome r = Verified <->
   createHash_hex "abc" = GameRound.seedHash round /\ close = true)
  /\ (outcome r = InvalidSeed <->
      createHash_hex "abc" <> GameRound.seedHash round)
  /\ (outcome r = Mismatch <->
      createHash_hex "abc" = GameRound.seedHash round /\ close = false)
  /\ (forall claimed', js_truthy claimed' = true ->
      outcome (verify env [round]
                 (mkBody (Some "round_1"%string) (Some "abc"%string)
                         (Some claimed')))
      = outcome r).
Proof.
  apply (verify_outcome (mkEnv (Some "k"%string) NaN NaN)
           [stored_round (mkEnv (Some "k"%string) NaN NaN) "abc" "round_1"]
           "round_1" "abc" (Fin 999)
           (stored_round (mkEnv (Some "k"%string) NaN NaN) "abc" "round_1")).
  - discriminate.
  - discriminate.
  - apply js_truthy_Fin; lra.
  - apply findOne_stored.
  - reflexivity.
Defined.

(** Bounds on the logarithm from [1 + x <= exp x]. *)
Lemma ln_le_minus_one (y : R) : 0 < y -> ln y <= y - 1.
Proof.
  intros Hy. pose proof (exp_ineq1_le (ln y)) as H.
  rewrite exp_ln in H by exact Hy. lra.
Qed.

Lemma ln_ge_one_minus_inv (y : R) : 0 < y -> 1 - / y <= ln y.
Proof.
  intros Hy. pose proof (ln_le_minus_one (/ y) (Rinv_0_lt_compat y Hy)) as H.
  rewrite ln_Rinv in H by exact Hy. lra.
Qed.

Lemma ln_gap (a b : R) : 0 < a -> 0 < b -> 1 - a / b <= ln b - ln a.
Proof.
  intros Ha Hb.
  assert (Hq : 0 < a / b) by (apply Rdiv_lt_0_compat; assumption).
  pose proof (ln_le_minus_one (a / b) Hq) as H.
  unfold Rdiv in H. rewrite ln_mult in H;
    [| exact Ha | apply Rinv_0_lt_compat; exact Hb].
  rewrite ln_Rinv in H by exact Hb. unfold Rdiv. lra.
Qed.

(** C2 at a failing input.  With [PROVABLY_FAIR_SECRET] unset the engine
    keys the digest with ['secret'] and the route with ['default-secret']:
    for this seed and round id the engine's crash point is about 3.63, the
    route recomputes about 5.18, and the engine's own round is reported as a
    mismatch. *)
Theorem verify_round_trip_default_secret :
  let seed := "00112233445566778899aabbccddeeff00112233445566778899aabbccddeeff"%string in
  let roundId := "round_1700000000000_0a1b2c3d"%string in
  outcome (verify default_env [stored_round default_env seed roundId]
             (mkBody (Some roundId) (Some seed)
                (Some (GameManager.calculateCrashPoint default_env
                         seed roundId))))
  = Mismatch.
Proof.
  intros seed roundId.
  destruct (calculateCrashPoint_range default_env seed roundId (101 / 100) 120)
    as (c & Hc & Hc1 & _); try reflexivity; [lra|].
  rewrite (verify_crashed default_env _ roundId seed _
             (stored_round default_env seed roundId));
    [ | discriminate | discriminate
      | rewrite Hc; apply js_truthy_Fin; lra
      | apply findOne_stored | reflexivity ].
  cbn [stored_round GameRound.seedHash GameRound.crashPoint].
  unfold GameManager.hashSeed. rewrite String.eqb_refl. cbn [negb].
  replace (within_tolerance (recalculate default_env seed roundId)
             (GameManager.calculateCrashPoint default_env seed roundId))
    with false; [reflexivity|].
  symmetry. clear c Hc Hc1.
  rewrite recalculate_crash_of, calculateCrashPoint_crash_of.
  change (GameManager.secretKey default_env) with "secret"%string.
  change (str_or (PROVABLY_FAIR_SECRET default_env) "default-secret")
    with "default-secret"%string.
  change (GameManager.minCrash default_env) with (Fin (101 / 100)).
  change (GameManager.maxCrash default_env) with (Fin 120).
  assert (H1 : Sha256.be_of_bytes
                 (firstn 4 (Sha256.hmac_sha256
                              (list_ascii_of_string "secret")
                              (list_ascii_of_string (seed ++ roundId))))
               = 991172448%Z) by (vm_compute; reflexivity).
  assert (H2 : Sha256.be_of_bytes
                 (firstn 4 (Sha256.hmac_sha256
                              (list_ascii_of_string "default-secret")
                              (list_ascii_of_string (seed ++ roundId))))
               = 1464148950%Z) by (vm_compute; reflexivity).
  rewrite H1, H2.
  destruct (crash_of_finite (101 / 100) 120 991172448) as [E1 | F];
    [lia | | lra].
  destruct (crash_of_finite (101 / 100) 120 1464148950) as [E2 | F];
    [lia | | lra].
  rewrite E1, E2.
  destruct (within_tolerance _ _) eqn:W; [exfalso | reflexivity].
  apply within_tolerance_Fin in W.
  assert (P1 : 0 < 1 - 991172448 / 4294967295) by lra.
  assert (P2 : 0 < 1 - 1464148950 / 4294967295) by lra.
  pose proof (ln_gap _ _ P2 P1) as G.
  pose proof (ln_ge_one_minus_inv _ P1) as L1.
  pose proof (ln_ge_one_minus_inv _ P2) as L2.
  set (A := ln (1 - 991172448 / 4294967295)) in *.
  set (B := ln (1 - 1464148950 / 4294967295)) in *.
  assert (G' : 1 / 10 <= A - B) by lra.
  assert (L1' : - 1 <= A) by lra.
  assert (L2' : - 1 <= B) by lra.
  clear G L1 L2 E1 E2.
  replace (A / - (1 / 10)) with (- 10 * A) in W by field.
  replace (B / - (1 / 10)) with (- 10 * B) in W by field.
  rewrite !Rmin_left in W by lra.
  unfold Rabs in W. destruct (Rcase_abs _); lra.
Qed.

End Verify.

(* ===================================================================== *)
(** ** [CryptoService.getPrice] *)

Section GetPrice.
Import CryptoService.
Local Open Scope Q_scope.

Lemma cache_get_set (m : PriceCache) (k k' : string) (e : CacheEntry) :
  cache_get (cache_set m k e) k'
  = if String.eqb k k' then Some e else cache_get m k'.
Proof.
  induction m as [|[k0 e0] m IH]; simpl.
  - reflexivity.
  - destruct (String.eqb_spec k0 k) as [-> | N]; simpl.
    + destruct (String.eqb k k'); reflexivity.
    + rewrite IH. destruct (String.eqb_spec k0 k') as [-> | N'].
      * destruct (String.eqb_spec k k'); [congruence | reflexivity].
      * reflexivity.
Qed.

Lemma cache_ok_set (m : PriceCache) (k : string) (e : CacheEntry) :
  cache_ok m -> 0 < price e -> (k = "USDT"%string -> price e = 1) ->
  cache_ok (cache_set m k e).
Proof.
  intros Hm Hp Hu k' e'. rewrite cache_get_set.
  destruct (String.eqb_spec k k') as [<- | N].
  - intros [= <-]. split; assumption.
  - apply Hm.
Qed.

Lemma truthy_positive (q : Q) : 0 <= q -> falsy q = false -> 0 < q.
Proof.
  unfold falsy, Qle, Qlt. simpl. intros H F.
  apply Z.eqb_neq in F. lia.
Qed.

Lemma getPrice_catch_service (cs : t) (s : string) :
  fst (getPrice_catch cs s) = cs.
Proof.
  unfold getPrice_catch.
  destruct (cache_get _ _); [reflexivity|].
  destruct (fallbackPrices _) as [q|]; [destruct (falsy q)|]; reflexivity.
Qed.

(** The invariant of the cache is kept by every call. *)
Lemma getPrice_cache_ok (cs : t) (now : Z) (s : string) (feed : Feed) :
  cache_ok (priceCache cs) -> feed_ok feed ->
  cache_ok (priceCache (fst (run_call (getPrice cs now s) feed))).
Proof.
  intros Hm Hf.
  assert (Hmiss : cache_ok (priceCache
                    (fst (run_call (getPrice_miss cs now s) feed)))).
  { unfold getPrice_miss.
    destruct (String.eqb_spec (toUpperCase s) "USDT") as [E | N].
    - simpl. apply cache_ok_set; [exact Hm | reflexivity | reflexivity].
    - destruct (cryptoMapping (toUpperCase s)); simpl;
        [| rewrite getPrice_catch_service; exact Hm].
      unfold feed_ok in Hf.
      destruct (response feed) as [|[usd|]];
        try (rewrite getPrice_catch_service; exact Hm).
      destruct (falsy usd) eqn:F;
        [rewrite getPrice_catch_service; exact Hm|].
      simpl. apply cache_ok_set; [exact Hm | | congruence].
      simpl. apply truthy_positive; assumption. }
  unfold getPrice.
  destruct (cache_get (priceCache cs) (toUpperCase s)) as [c|];
    [destruct (fresh cs now c)|]; try exact Hmiss.
  simpl. exact Hm.
Qed.

Lemma serve_cache_ok (reqs : list Request) :
  forall cs, cache_ok (priceCache cs) ->
             Forall (fun rq => feed_ok (answer rq)) reqs ->
             cache_ok (priceCache (serve cs reqs)).
Proof.
  induction reqs as [|rq reqs IH]; intros cs Hm Hall; simpl.
  - exact Hm.
  - inversion Hall as [|? ? Hrq Hrest]; subst.
    apply IH; [apply getPrice_cache_ok; assumption | exact Hrest].
Qed.

Lemma cache_ok_create (timeout : Z) : cache_ok (priceCache (create timeout)).
Proof. intros k e. simpl. discriminate. Qed.

(** What the [catch] block returns for a supported symbol. *)
Lemma getPrice_catch_supported (cs : t) (s : string) (c : Currency) :
  toUpperCase s = currency_name c ->
  getPrice_catch cs s
  = (cs, Ok match cache_get (priceCache cs) (currency_name c) with
            | Some cached => price cached
            | None => match c with
                      | BTC => 45000
                      | ETH => 3000
                      | USDT => 1
                      end
            end).
Proof.
  intros E. unfold getPrice_catch. rewrite E.
  destruct (cache_get _ _); [reflexivity|].
  destruct c; reflexivity.
Qed.

(** For a supported symbol a call returns a positive price. *)
Lemma getPrice_supported_positive (cs : t) (now : Z) (s : string)
    (c : Currency) (feed : Feed) :
  cache_ok (priceCache cs) -> feed_ok feed ->
  toUpperCase s = currency_name c ->
  exists cs' p, run_call (getPrice cs now s) feed = (cs', Ok p) /\ 0 < p.
Proof.
  intros Hm Hf E.
  assert (Hcatch : exists cs' p, getPrice_catch cs s = (cs', Ok p) /\ 0 < p).
  { rewrite (getPrice_catch_supported cs s c E).
    eexists _, _. split; [reflexivity|].
    destruct (cache_get _ _) as [e|] eqn:G.
    - apply (Hm _ _ G).
    - destruct c; reflexivity. }
  assert (Hmiss : exists cs' p,
             run_call (getPrice_miss cs now s) feed = (cs', Ok p) /\ 0 < p).
  { unfold getPrice_miss. rewrite E.
    destruct c; cbn [currency_name String.eqb Ascii.eqb Bool.eqb
                     cryptoMapping run_call];
      try (eexists _, _; split; [reflexivity | reflexivity]).
    - unfold feed_ok in Hf. destruct (response feed) as [|[usd|]];
        try exact Hcatch.
      destruct (falsy usd) eqn:F; [exact Hcatch|].
      eexists _, _. split; [reflexivity|]. apply truthy_positive; assumption.
    - unfold feed_ok in Hf. destruct (response feed) as [|[usd|]];
        try exact Hcatch.
      destruct (falsy usd) eqn:F; [exact Hcatch|].
      eexists _, _. split; [reflexivity|]. apply truthy_positive; assumption. }
  unfold getPrice.
  destruct (cache_get (priceCache cs) (toUpperCase s)) as [e|] eqn:G;
    [destruct (fresh cs now e)|]; try exact Hmiss.
  eexists _, _. split; [reflexivity|]. apply (Hm _ _ G).
Qed.

Lemma toUpperCase_currency_name (c : Currency) :
  toUpperCase (currency_name c) = currency_name c.
Proof. destruct c; reflexivity. Qed.

(** [placeBet] is never rejected for lack of a price. *)
Lemma placeBet_price_available (w : GameManager.World) (playerId : string)
    (usdAmount : Q) (c : Currency) (now : Z) (feed : Feed)
    (rand : GameManager.Rand) (msg : string) :
  cache_ok (priceCache (GameManager.cryptoService w)) -> feed_ok feed ->
  snd (GameManager.placeBet w playerId usdAmount c now feed rand)
  <> Err (GameManager.PriceUnavailable msg).
Proof.
  intros Hm Hf. unfold GameManager.placeBet.
  destruct (GameManager.currentRound w) as [r|]; [|discriminate].
  destruct (negb _); [discriminate|].
  destruct (getPrice_supported_positive (GameManager.cryptoService w) now
              (currency_name c) c feed Hm Hf (toUpperCase_currency_name c))
    as (cs' & p & -> & _).
  destruct (Player.findOne _ _); [|discriminate].
  destruct (GameManager.Qltb _ _); discriminate.
Qed.

(** What a call for a supported symbol other than USDT does: a cached
    price younger than the cache duration is returned as it is; otherwise
    one request is issued for the coin of the symbol, and its answer, if it
    carries a price that is not [0], is cached with the time it arrived at
    and returned, while a failure, or an answer without a price, is met by
    the [catch] block. *)
Lemma getPrice_request (cs : t) (now : Z) (s : string) (c : Currency) :
  toUpperCase s = currency_name c -> c <> USDT ->
  (forall cached,
     cache_get (priceCache cs) (currency_name c) = Some cached ->
     fresh cs now cached = true ->
     getPrice cs now s = Done (cs, Ok (price cached)))
  /\ (cache_get (priceCache cs) (currency_name c) = None
      \/ (exists cached,
            cache_get (priceCache cs) (currency_name c) = Some cached
            /\ fresh cs now cached = false) ->
      exists coinId k,
        cryptoMapping (currency_name c) = Some coinId
        /\ getPrice cs now s = Get coinId k
        /\ forall answer,
             k answer
             = match response answer with
               | ApiData (Some p) =>
                   if falsy p then getPrice_catch cs s
                   else (mk (cache_set (priceCache cs) (currency_name c)
                               (mkEntry p (settledAt answer)))
                            (cacheTimeout cs), Ok p)
               | _ => getPrice_catch cs s
               end).
Proof.
  intros E N.
  assert (Hmiss : exists coinId k,
             cryptoMapping (currency_name c) = Some coinId
             /\ getPrice_miss cs now s = Get coinId k
             /\ forall answer,
                  k answer
                  = match response answer with
                    | ApiData (Some p) =>
                        if falsy p then getPrice_catch cs s
                        else (mk (cache_set (priceCache cs) (currency_name c)
                                    (mkEntry p (settledAt answer)))
                                 (cacheTimeout cs), Ok p)
                    | _ => getPrice_catch cs s
                    end).
  { unfold getPrice_miss. rewrite E.
    destruct c; [| |contradiction];
      cbn [currency_name String.eqb Ascii.eqb Bool.eqb cryptoMapping];
      eexists _, _; (split; [reflexivity|]); (split; [reflexivity|]);
      intros answer; cbv beta; destruct (response answer) as [|[p|]];
      reflexivity. }
  unfold getPrice. rewrite E. split.
  - intros cached G F. rewrite G, F. reflexivity.
  - intros [G | (cached & G & F)]; rewrite G; [|rewrite F]; exact Hmiss.
Qed.

(** C10.  On a service that has answered any sequence of calls, with an API
    that reports no negative price, [getPrice] of a supported symbol (in any
    letter case) returns a positive price and does not throw.  USDT is
    answered by 1 without a request.  For BTC and ETH a cached price younger
    than the cache duration is returned without a request; otherwise one
    request is issued for the coin of the symbol: the price it reports, if
    not [0], is cached and returned, and when the request fails, or reports
    no price, the answer is the cached price, expired or not, else the
    fallback 45000 (BTC), 3000 (ETH).  [placeBet] is never rejected for lack
    of a price. *)
Theorem getPrice_supported (timeout : Z) (reqs : list Request) (now : Z)
    (s : string) (c : Currency) (feed : Feed) :
  Forall (fun rq => feed_ok (answer rq)) reqs ->
  feed_ok feed ->
  toUpperCase s = currency_name c ->
  let cs := serve (create timeout) reqs in
  let held :=
    match cache_get (priceCache cs) (currency_name c) with
    | Some cached => price cached
    | None => match c with
              | BTC => 45000
              | ETH => 3000
              | USDT => 1
              end
    end in
  let caching (p : Q) (t : Z) :=
    mk (cache_set (priceCache cs) (currency_name c) (mkEntry p t))
       (cacheTimeout cs) in
  (exists cs' p, run_call (getPrice cs now s) feed = (cs', Ok p) /\ 0 < p)
  /\ (c = USDT ->
      getPrice cs now s = Done (cs, Ok 1)
      \/ getPrice cs now s = Done (caching 1 now, Ok 1))
  /\ (c <> USDT ->
      forall cached,
        cache_get (priceCache cs) (currency_name c) = Some cached ->
        fresh cs now cached = true ->
        getPrice cs now s = Done (cs, Ok (price cached)))
  /\ (c <> USDT ->
      cache_get (priceCache cs) (currency_name c) = None
      \/ (exists cached,
            cache_get (priceCache cs) (currency_name c) = Some cached
            /\ fresh cs now cached = false) ->
      exists coinId k,
        cryptoMapping (currency_name c) = Some coinId
        /\ getPrice cs now s = Get coinId k
        /\ forall answer,
             k answer
             = match response answer with
               | ApiData (Some p) =>
                   if falsy p then (cs, Ok held)
                   else (caching p (settledAt answer), Ok p)
               | _ => (cs, Ok held)
               end)
  /\ (forall w playerId usdAmount rand msg,
        GameManager.cryptoService w = cs ->
        snd (GameManager.placeBet w playerId usdAmount c now feed rand)
        <> Err (GameManager.PriceUnavailable msg)).
Proof.
  intros Hreqs Hf E cs held caching.
  assert (Hm : cache_ok (priceCache cs))
    by (apply serve_cache_ok; [apply cache_ok_create | exact Hreqs]).
  split; [|split; [|split; [|split]]].
  - apply (getPrice_supported_positive cs now s c feed Hm Hf E).
  - intros ->. unfold getPrice. rewrite E. cbn [currency_name].
    destruct (cache_get (priceCache cs) "USDT") as [e|] eqn:G.
    + destruct (fresh cs now e).
      * destruct (Hm _ _ G) as [_ H1]. rewrite (H1 eq_refl). left. reflexivity.
      * right. unfold getPrice_miss. rewrite E. reflexivity.
    + right. unfold getPrice_miss. rewrite E. reflexivity.
  - intros N. apply (getPrice_request cs now s c E N).
  - intros N Hstale.
    destruct (proj2 (getPrice_request cs now s c E N) Hstale)
      as (coinId & k & Hc & Hget & Hk).
    exists coinId, k. split; [exact Hc|]. split; [exact Hget|].
    intros answer. rewrite Hk, (getPrice_catch_supported cs s c E).
    reflexivity.
  - intros w playerId usdAmount rand msg Hw.
    apply placeBet_price_available; [rewrite Hw; exact Hm | exact Hf].
Qed.

Lemma getPrice_supported_witness :
  let feed := mkFeed ApiFailed 20001 in
  let cs := serve (create 10000)
              [mkRequest 0 "BTC" (mkFeed (ApiData (Some 50000)) 5)] in
  let held :=
    match cache_get (priceCache cs) (currency_name BTC) with
    | Some cached => price cached
    | None => 45000
    end in
  let caching (p : Q) (t : Z) :=
    mk (cache_set (priceCache cs) (currency_name BTC) (mkEntry p t))
       (cacheTimeout cs) in
  (exists cs' p, run_call (getPrice cs 20000 "btc") feed = (cs', Ok p)
                 /\ 0 < p)
  /\ (BTC = USDT ->
      getPrice cs 20000 "btc" = Done (cs, Ok 1)
      \/ getPrice cs 20000 "btc" = Done (caching 1 20000%Z, Ok 1))
  /\ (BTC <> USDT ->
      forall cached,
        cache_get (priceCache cs) (currency_name BTC) = Some cached ->
        fresh cs 20000 cached = true ->
        getPrice cs 20000 "btc" = Done (cs, Ok (price cached)))
  /\ (BTC <> USDT ->
      cache_get (priceCache cs) (currency_name BTC) = None
      \/ (exists cached,
            cache_get (priceCache cs) (currency_name BTC) = Some cached
            /\ fresh cs 20000 cached = false) ->
      exists coinId k,
        cryptoMapping (currency_name BTC) = Some coinId
        /\ getPrice cs 20000 "btc" = Get coinId k
        /\ forall answer,
             k answer
             = match response answer with
               | ApiData (Some p) =>
                   if falsy p then (cs, Ok held)
                   else (caching p (settledAt answer), Ok p)
               | _ => (cs, Ok held)
               end)
  /\ (forall w playerId usdAmount rand msg,
        GameManager.cryptoService w = cs ->
        snd (GameManager.placeBet w playerId usdAmount BTC 20000 feed rand)
        <> Err (GameManager.PriceUnavailable msg)).
Proof.
  apply (getPrice_supported 10000
           [mkRequest 0 "BTC" (mkFeed (ApiData (Some 50000)) 5)]
           20000 "btc" BTC (mkFeed ApiFailed 20001)).
  - repeat constructor. unfold feed_ok; simpl. unfold Qle; simpl; lia.
  - exact I.
  - reflexivity.
Defined.

(** The claim as it stands does not hold: [getPrice] tests the price the
    API reports with [!price] only.  A negative price is cached and
    returned, to this call and to the calls of the next ten seconds, and a
    bet placed at it is credited to the wallet instead of debited. *)
Lemma getPrice_negative_counterexample :
  let cs := create 10000 in
  let feed := mkFeed (ApiData (Some (-5))) 1 in
  let cs' := mk [("BTC"%string, mkEntry (-5) 1)] 10000 in
  toUpperCase "btc" = currency_name BTC
  /\ run_call (getPrice cs 0 "btc") feed = (cs', Ok (-5))
  /\ getPrice cs' 9000 "BTC" = Done (cs', Ok (-5))
  /\ -5 < 0
  /\ GameManager.balance GameManager.betting_open "alice" BTC
     = Some (2 # 1000)
  /\ exists bal,
       GameManager.balance
         (fst (GameManager.placeBet_rounded Binary64.binary64
                 GameManager.betting_open "alice" 50 BTC 5 feed
                 (GameManager.mkRand "h1" "t1"))) "alice" BTC
       = Some bal
       /\ 10 < bal.
Proof.
  split; [reflexivity|]. split; [vm_compute; reflexivity|].
  split; [vm_compute; reflexivity|]. split; [reflexivity|].
  split; [reflexivity|]. eexists. split; vm_compute; reflexivity.
Qed.

End GetPrice.

(* ===================================================================== *)
(** ** The engine: bets and wallets *)

Section PlaceBet.
Import GameManager.
Local Open Scope Q_scope.

Lemma Qltb_true (a b : Q) : Qltb a b = true <-> a < b.
Proof.
  unfold Qltb. rewrite negb_true_iff. split; intros H.
  - apply Qnot_le_lt. intros L. apply Qle_bool_iff in L. congruence.
  - destruct (Qle_bool b a) eqn:E; [|reflexivity].
    apply Qle_bool_iff in E. exfalso. eapply Qlt_not_le; eassumption.
Qed.

Lemma Qltb_false (a b : Q) : Qltb a b = false <-> b <= a.
Proof.
  unfold Qltb. rewrite negb_false_iff. apply Qle_bool_iff.
Qed.

Lemma findOne_playerId (db : list Player.t) (pid : string) (p : Player.t) :
  Player.findOne db pid = Some p -> Player.playerId p = pid.
Proof.
  unfold Player.findOne. intros H. apply find_some in H.
  destruct H as [_ H]. apply String.eqb_eq, H.
Qed.

Lemma findOne_save_same (db : list Player.t) (pid : string)
    (p p' : Player.t) :
  Player.findOne db pid = Some p -> Player.playerId p' = pid ->
  Player.findOne (Player.save db p') pid = Some p'.
Proof.
  unfold Player.findOne. intros H E. subst pid.
  induction db as [|q db IH]; simpl in *; [discriminate|].
  destruct (String.eqb_spec (Player.playerId q) (Player.playerId p'))
    as [Eq | N]; simpl.
  - rewrite String.eqb_refl. reflexivity.
  - destruct (String.eqb_spec (Player.playerId q) (Player.playerId p'));
      [contradiction | apply IH, H].
Qed.

Lemma findOne_save_other (db : list Player.t) (q : string) (p' : Player.t) :
  q <> Player.playerId p' ->
  Player.findOne (Player.save db p') q = Player.findOne db q.
Proof.
  unfold Player.findOne. intros N.
  induction db as [|x db IH]; simpl; [reflexivity|].
  destruct (String.eqb_spec (Player.playerId x) (Player.playerId p'))
    as [E | N']; simpl.
  - destruct (String.eqb_spec (Player.playerId p') q); [congruence|].
    destruct (String.eqb_spec (Player.playerId x) q); [congruence|].
    reflexivity.
  - rewrite IH. reflexivity.
Qed.

Lemma Wallet_get_set (wl : Wallet.t) (c c' : Currency) (v : Q) :
  Wallet.get (Wallet.set wl c v) c'
  = if Currency_eqb c c' then v else Wallet.get wl c'.
Proof. destruct c, c'; reflexivity. Qed.

Lemma Currency_eqb_neq (c c' : Currency) :
  c' <> c -> Currency_eqb c c' = false.
Proof. destruct c, c'; intros H; try reflexivity; congruence. Qed.



(** The call run to completion is its segments in order. *)
Lemma placeBet_stages (w : World) (playerId : string) (usdAmount : Q)
    (c : Currency) (now : Z) (feed : CryptoService.Feed) (rand : Rand) :
  placeBet w playerId usdAmount c now feed rand
  = placeBet_staged w playerId usdAmount c now feed rand.
Proof.
  unfold placeBet, placeBet_staged, placeBet_debit_stage,
    placeBet_record_stage.
  destruct (currentRound w) as [r|] eqn:R; [|reflexivity].
  destruct (negb _); [reflexivity|].
  destruct (CryptoService.run_call _ _) as [cs [price | msg]];
    [|reflexivity].
  cbn [players set_cryptoService].
  destruct (Player.findOne (players w) playerId) as [p|]; [|reflexivity].
  destruct (Qltb _ _); [reflexivity|].
  cbn [currentRound set_players set_cryptoService]. rewrite R. reflexivity.
Qed.

(** C6 as stated fails when two calls of one player interleave at their
    awaits.  Both read the balance 0.002 BTC; the first saves 0.001; the
    second, checking and debiting the document it read, succeeds and saves
    0.001 again.  Two bets of 0.001 BTC are recorded and the second success
    has not lowered the balance. *)
Lemma interleaved_bets_counterexample :
  (exists bet1 wallet1, snd first_saved = Ok (bet1, wallet1)
                        /\ Bet.cryptoAmount bet1 == 1 # 1000)
  /\ (exists bet2 wallet2, snd second_saved = Ok (bet2, wallet2)
                           /\ Bet.cryptoAmount bet2 == 1 # 1000)
  /\ (exists b0 b1 b2,
        balance betting_open "alice" BTC = Some b0 /\ b0 == 2 # 1000
        /\ balance (fst first_saved) "alice" BTC = Some b1 /\ b1 == 1 # 1000
        /\ balance (fst second_saved) "alice" BTC = Some b2
        /\ b2 == 1 # 1000)
  /\ List.length (round_bets both_recorded) = 2%nat.
Proof.
  split; [|split; [|split]].
  - eexists _, _. split; vm_compute; reflexivity.
  - eexists _, _. split; vm_compute; reflexivity.
  - eexists _, _, _. repeat split; vm_compute; reflexivity.
  - reflexivity.
Qed.

(** With exact arithmetic [placeBet_rounded] is [placeBet]. *)
Lemma placeBet_rounded_exact (w : World) (playerId : string) (usdAmount : Q)
    (c : Currency) (now : Z) (feed : CryptoService.Feed) (rand : Rand) :
  placeBet_rounded (fun x => x) w playerId usdAmount c now feed rand
  = placeBet w playerId usdAmount c now feed rand.
Proof. reflexivity. Qed.

Lemma round_half_even_nonneg (num den : Z) :
  (0 <= num)%Z -> (0 < den)%Z -> (0 <= Binary64.round_half_even num den)%Z.
Proof.
  intros Hn Hd. unfold Binary64.round_half_even.
  pose proof (Z.div_pos num den Hn Hd) as Hk.
  destruct (2 * (num mod den) ?= den)%Z; [destruct (Z.even _)| |]; lia.
Qed.

Lemma pow2_pos (q : Z) : 0 < Binary64.pow2 q.
Proof.
  unfold Binary64.pow2. destruct (0 <=? q)%Z eqn:E.
  - apply Z.leb_le in E. change 0 with (inject_Z 0). rewrite <- Zlt_Qlt.
    apply Z.pow_pos_nonneg; lia.
  - reflexivity.
Qed.

(** Rounding keeps the sign: a result that is not negative is not rounded
    below [0]. *)
Lemma binary64_nonneg (x : Q) : 0 <= x -> 0 <= Binary64.binary64 x.
Proof.
  intros Hx. unfold Binary64.binary64.
  assert (Hn : (0 <= Qnum x)%Z).
  { unfold Qle in Hx. simpl in Hx. lia. }
  destruct (Z.abs (Qnum x) =? 0)%Z; [apply Qle_refl|].
  destruct (Qnum x <? 0)%Z eqn:S; [apply Z.ltb_lt in S; lia|].
  apply Qmult_le_0_compat; [|apply Qlt_le_weak, pow2_pos].
  change 0 with (inject_Z 0). rewrite <- Zle_Qle.
  destruct (0 <=? _)%Z eqn:E.
  - apply Z.leb_le in E. apply round_half_even_nonneg; [lia|].
    apply Z.mul_pos_pos; [lia | apply Z.pow_pos_nonneg; lia].
  - apply round_half_even_nonneg; [|lia].
    apply Z.mul_nonneg_nonneg; [lia | apply Z.pow_nonneg; lia].
Qed.

(** C6, amended.  For a call on doubles that runs to completion with no
    other call interleaved, in the betting window, with unit price [price]
    looked up and amounts within the range of doubles: the amount staked is
    [cryptoAmount], the double nearest to [usdAmount / price]; when the
    balance is below [cryptoAmount] the call fails with
    [InsufficientBalance] and no player or bet changes; when the call
    succeeds the balance covered [cryptoAmount], the balance saved is the
    double nearest to the balance less [cryptoAmount] and is not negative,
    and the debit is made once (one bet is recorded, the other currencies
    and the other players are untouched, and one bet transaction is logged,
    which the schema accepts when the price is not negative). *)
Theorem placeBet_debit (w : World) (playerId : string) (usdAmount : Q)
    (c : Currency) (now : Z) (feed : CryptoService.Feed) (rand : Rand)
    (r : Round) (cs' : CryptoService.t) (price : Q) :
  currentRound w = Some r ->
  GameRound.status r = waiting ->
  CryptoService.run_call
    (CryptoService.getPrice (cryptoService w) now (currency_name c)) feed
  = (cs', Ok price) ->
  let cryptoAmount := Binary64.binary64 (usdAmount / price) in
  let out :=
    placeBet_rounded Binary64.binary64 w playerId usdAmount c now feed rand in
  Binary64.in_range (usdAmount / price) ->
  (forall bal, balance w playerId c = Some bal ->
               Binary64.in_range (bal - cryptoAmount)) ->
  (forall bal, balance w playerId c = Some bal -> bal < cryptoAmount ->
     snd out = Err InsufficientBalance
     /\ players (fst out) = players w
     /\ round_bets (fst out) = round_bets w)
  /\ (forall bet, snd out = Ok bet ->
      exists bal,
        balance w playerId c = Some bal
        /\ cryptoAmount <= bal
        /\ balance (fst out) playerId c
           = Some (Binary64.binary64 (bal - cryptoAmount))
        /\ 0 <= Binary64.binary64 (bal - cryptoAmount)
        /\ Bet.cryptoAmount bet = cryptoAmount
        /\ round_bets (fst out) = (round_bets w ++ [bet])%list
        /\ (forall c', c' <> c ->
              balance (fst out) playerId c' = balance w playerId c')
        /\ (forall q, q <> playerId ->
              Player.findOne (players (fst out)) q
              = Player.findOne (players w) q)
        /\ (0 <= price ->
            List.length (transactions (fst out))
            = S (List.length (transactions w)))).
Proof.
  intros R St P cryptoAmount out _ _. subst out.
  unfold placeBet_rounded, balance, round_bets.
  rewrite R, St, P. cbn [Status_eqb negb players set_cryptoService].
  fold cryptoAmount.
  destruct (Player.findOne (players w) playerId) as [p|] eqn:F.
  - cbn [option_map]. split.
    + intros bal [= <-] Hlt. apply Qltb_true in Hlt. rewrite Hlt.
      cbn [fst snd players currentRound set_cryptoService]. rewrite R. auto.
    + intros bet.
      destruct (Qltb (Wallet.get (Player.wallet p) c) cryptoAmount) eqn:L;
        [discriminate|].
      apply Qltb_false in L. cbn [fst snd]. intros [= <-].
      pose proof (findOne_playerId _ _ _ F) as Hid.
      exists (Wallet.get (Player.wallet p) c).
      cbn [players currentRound transactions emit logTransaction
           add_transaction set_currentRound set_players set_cryptoService
           Bet.cryptoAmount GameRound.bets set_bets round_with].
      split; [reflexivity|]. split; [exact L|].
      split; [|split; [|split; [|split; [|split; [|split]]]]].
      * erewrite findOne_save_same; [| exact F | exact Hid].
        cbn [option_map Player.wallet]. rewrite Wallet_get_set.
        destruct c; reflexivity.
      * apply binary64_nonneg. apply -> Qle_minus_iff. exact L.
      * reflexivity.
      * reflexivity.
      * intros c' Hc.
        erewrite findOne_save_same; [| exact F | exact Hid].
        cbn [option_map Player.wallet]. rewrite Wallet_get_set.
        rewrite (Currency_eqb_neq c c' Hc). reflexivity.
      * intros q Hq. apply findOne_save_other. cbn [Player.playerId].
        congruence.
      * intros _. rewrite length_app. simpl. lia.
  - cbn [option_map]. split; [discriminate|]. cbn [snd]. discriminate.
Qed.

Lemma placeBet_debit_witness :
  let cryptoAmount := Binary64.binary64 (50 / 50000) in
  let out :=
    placeBet_rounded Binary64.binary64 betting_open "alice" 50 BTC 5
      btc_50000 (mkRand "h1" "t1") in
  (forall bal, balance betting_open "alice" BTC = Some bal ->
     bal < cryptoAmount ->
     snd out = Err InsufficientBalance
     /\ players (fst out) = players betting_open
     /\ round_bets (fst out) = round_bets betting_open)
  /\ (forall bet, snd out = Ok bet ->
      exists bal,
        balance betting_open "alice" BTC = Some bal
        /\ cryptoAmount <= bal
        /\ balance (fst out) "alice" BTC
           = Some (Binary64.binary64 (bal - cryptoAmount))
        /\ 0 <= Binary64.binary64 (bal - cryptoAmount)
        /\ Bet.cryptoAmount bet = cryptoAmount
        /\ round_bets (fst out) = (round_bets betting_open ++ [bet])%list
        /\ (forall c', c' <> BTC ->
              balance (fst out) "alice" c' = balance betting_open "alice" c')
        /\ (forall q, q <> "alice"%string ->
              Player.findOne (players (fst out)) q
              = Player.findOne (players betting_open) q)
        /\ (0 <= 50000 ->
            List.length (transactions (fst out))
            = S (List.length (transactions betting_open)))).
Proof.
  eapply (placeBet_debit betting_open "alice" 50 BTC 5 btc_50000
            (mkRand "h1" "t1")).
  - vm_compute. reflexivity.
  - reflexivity.
  - vm_compute. reflexivity.
  - vm_compute. reflexivity.
  - intros bal H. vm_compute in H. injection H as <-. vm_compute.
    reflexivity.
Defined.

(** The balance is compared with the rounded amount.  A wallet holding the
    double nearest to a third covers a stake of $1 at $3: the call is
    accepted and leaves the balance at [0], although the wallet is below
    the exact quotient. *)
Lemma placeBet_rounded_boundary :
  let third := Binary64.binary64 (1 / 3) in
  let carol := Player.mk "carol" "Carol" (Wallet.mk 0 third 0) 0 0 0 in
  let feed := CryptoService.mkFeed (CryptoService.ApiData (Some 3)) 10 in
  let w := start (create 10000 [carol]) round1 0 in
  let out :=
    placeBet_rounded Binary64.binary64 w "carol" 1 ETH 5 feed
      (mkRand "h1" "t1") in
  third < 1 / 3
  /\ (exists bet, snd out = Ok bet /\ Bet.cryptoAmount bet = third)
  /\ exists bal, balance (fst out) "carol" ETH = Some bal /\ bal == 0.
Proof.
  split; [vm_compute; reflexivity|]. split.
  - eexists. split; vm_compute; reflexivity.
  - eexists. split; vm_compute; reflexivity.
Qed.




End PlaceBet.

(* ===================================================================== *)
(** ** The engine: cash-outs *)

Section CashOut.
Import GameManager.
Local Open Scope Q_scope.

Lemma updatePlayerStats_frame (w : World) (pid : string) (won : bool)
    (amount : Q) :
  exists db, updatePlayerStats w pid won amount = set_players w db.
Proof.
  unfold updatePlayerStats.
  destruct (Player.findOne (players w) pid) as [p|].
  - eexists. reflexivity.
  - exists (players w). destruct w; reflexivity.
Qed.



(** What a successful [cashOut] has read and written. *)
Lemma cashOut_accepted (w w' : World) (pid : string) (rand : Rand)
    (res : CashOutResult) :
  cashOut w pid rand = (w', Ok res) ->
  isGameActive w = true
  /\ exists r bet,
       currentRound w = Some r
       /\ find (unsettled pid) (GameRound.bets r) = Some bet
       /\ res_multiplier res = currentMultiplier w
       /\ res_payout res
          = Payout.mk (Bet.cryptoAmount bet * currentMultiplier w)
              (Bet.cryptoAmount bet * currentMultiplier w
               * Bet.priceAtTime bet)
       /\ currentRound w'
          = Some (set_bets r
                    (mark_first pid (res_multiplier res) (res_payout res)
                       (GameRound.bets r))).
Proof.
  unfold cashOut.
  destruct (currentRound w) as [r|] eqn:R; [|discriminate].
  destruct (isGameActive w) eqn:A; cbn [negb]; [|discriminate].
  destruct (find (unsettled pid) (GameRound.bets r)) as [bet|] eqn:F;
    [|discriminate].
  cbn [players set_currentRound].
  destruct (Player.findOne (players w) pid) as [p|]; [|discriminate].
  intros [= <- <-]. split; [reflexivity|].
  exists r, bet. repeat split; try reflexivity; try assumption.
  cbn [res_multiplier res_payout].
  match goal with
  | |- currentRound (emit (updatePlayerStats ?x ?a ?b ?c) _ _) = _ =>
      destruct (updatePlayerStats_frame x a b c) as [db ->]
  end.
  reflexivity.
Qed.




(** *** The invariant of the event loop *)

Lemma endRound_fold_frame (bs : list Bet.t) :
  forall w, exists db,
    fold_left
      (fun w bet =>
         if Bet.cashedOut bet then w
         else updatePlayerStats w (Bet.playerId bet) false (Bet.usdAmount bet))
      bs w
    = set_players w db.
Proof.
  induction bs as [|b bs IH]; intros w; simpl.
  - exists (players w). destruct w; reflexivity.
  - destruct (Bet.cashedOut b); [apply IH|].
    destruct (updatePlayerStats_frame w (Bet.playerId b) false
                (Bet.usdAmount b)) as [db ->].
    destruct (IH (set_players w db)) as [db' ->].
    exists db'. reflexivity.
Qed.

Lemma round_ok_start (cacheTimeout : Z) (db : list Player.t) (d : Draw)
    (now : Z) :
  valid_draw d -> round_ok (start (create cacheTimeout db) d now).
Proof.
  intros Hd. unfold round_ok. simpl. repeat split; auto.
Qed.

Lemma Forall_mark_first (P : Bet.t -> Prop) (pid : string) (m : Q)
    (po : Payout.t) (bs : list Bet.t) :
  Forall P bs -> (forall b, P b -> P (settled b m po)) ->
  Forall P (mark_first pid m po bs).
Proof.
  intros H Hs. induction H as [|b bs Hb Hbs IH]; simpl; [constructor|].
  destruct (unsettled pid b); constructor; auto.
Qed.

(** The fields of the manager after [crashGame] in a running round. *)
Lemma crashGame_running (w : World) (now : Z) (r : Round) :
  currentRound w = Some r -> isGameActive w = true ->
  GameRound.status r <> crashed ->
  currentRound (crashGame w now)
  = Some (set_status (set_endTime r now) crashed)
  /\ isGameActive (crashGame w now) = false
  /\ currentMultiplier (crashGame w now) = currentMultiplier w
  /\ timeouts (crashGame w now) = (timeouts w ++ [TStartNewRound])%list
  /\ emitted (crashGame w now)
     = (emitted w
        ++ [ ("round:crashed"%string,
              [ ("roundId"%string, VStr (GameRound.roundId r));
                ("crashPoint"%string, VNum (GameRound.crashPoint r));
                ("finalMultiplier"%string, VNum (currentMultiplier w)) ]) ])%list.
Proof.
  intros R A Hst. unfold crashGame. rewrite R, A. cbn [negb].
  assert (E : forall x, currentRound x = Some r ->
            exists db, endRound x now
                       = set_players
                           (set_currentRound x
                              (Some (set_status (set_endTime r now) crashed)))
                           db).
  { intros x Rx. unfold endRound. rewrite Rx.
    destruct (Status_eqb (GameRound.status r) crashed) eqn:S.
    - destruct (GameRound.status r); try discriminate S. congruence.
    - apply endRound_fold_frame. }
  change (multiplierInterval (set_isGameActive w false))
    with (multiplierInterval w).
  destruct (multiplierInterval w) as [h|].
  - destruct (E (clearInterval (set_isGameActive w false) h)) as [db ->];
      [exact R|]. cbn. repeat split.
  - destruct (E (set_isGameActive w false)) as [db ->]; [exact R|].
    cbn. repeat split.
Qed.

Lemma round_ok_tick (w : World) (now : Z) :
  round_ok w -> round_ok (updateMultiplier w now).
Proof.
  unfold updateMultiplier.
  destruct (currentRound w) as [r|] eqn:R; [|auto].
  destruct (isGameActive w) eqn:A; cbn [negb]; [|auto].
  unfold round_ok at 1. rewrite R, A. intros (Hcp & Hbets & Hst & _ & Ht).
  match goal with
  | |- context [Qgeb ?m ?c] => destruct (Qgeb m c) eqn:G
  end.
  - match goal with
    | |- round_ok (crashGame ?x now) =>
        destruct (crashGame_running x now
                    (set_maxMultiplier r
                       (Math_max
                          (if CryptoService.falsy (GameRound.maxMultiplier r)
                           then 1 else GameRound.maxMultiplier r)
                          (currentMultiplier x))))
          as (C1 & C2 & C3 & C4 & _)
    end; try reflexivity; try exact A.
    { cbn. rewrite Hst. discriminate. }
    unfold round_ok. rewrite C1, C2, C4. cbn. rewrite Ht.
    repeat split; auto.
  - unfold round_ok. cbn. rewrite A. repeat split; auto.
    unfold Qgeb in G.
    cbn [GameRound.crashPoint set_maxMultiplier round_with] in G.
    apply Qnot_le_lt. intros L. apply Qle_bool_iff in L. congruence.
Qed.

Lemma round_ok_placeBet (w : World) (pid : string) (usd : Q) (c : Currency)
    (now : Z) (feed : CryptoService.Feed) (rand : Rand) :
  round_ok w -> round_ok (fst (placeBet w pid usd c now feed rand)).
Proof.
  intros H. unfold placeBet.
  destruct (currentRound w) as [r|] eqn:R; [|exact H].
  destruct (negb _); [exact H|].
  destruct (CryptoService.run_call _ _) as [cs [price | msg]];
    cbn [fst players set_cryptoService].
  - unfold round_ok in H. rewrite R in H.
    destruct H as (Hcp & Hbets & Hph).
    destruct (Player.findOne (players w) pid) as [p|];
      [destruct (Qltb _ _)|]; cbn [fst]; unfold round_ok; cbn;
      try (rewrite R; repeat split; assumption).
    repeat split; try assumption.
    apply Forall_app. split; [exact Hbets|].
    constructor; [|constructor]. cbn. discriminate.
  - unfold round_ok in *. cbn. exact H.
Qed.

Lemma round_ok_cashOut (w : World) (pid : string) (rand : Rand) :
  round_ok w -> round_ok (fst (cashOut w pid rand)).
Proof.
  intros H. unfold cashOut.
  destruct (currentRound w) as [r|] eqn:R; [|exact H].
  destruct (isGameActive w) eqn:A; cbn [negb]; [|exact H].
  destruct (find (unsettled pid) (GameRound.bets r)) as [bet|];
    [|exact H].
  unfold round_ok in H. rewrite R, A in H.
  destruct H as (Hcp & Hbets & Hst & Hm & Ht).
  assert (Hbets' : forall po,
            Forall (fun b => forall m, Bet.cashoutMultiplier b = Some m ->
                                       m < GameRound.crashPoint r)
                   (mark_first pid (currentMultiplier w) po
                      (GameRound.bets r))).
  { intros po. apply Forall_mark_first; [exact Hbets|].
    intros b _ m [= <-]. exact Hm. }
  cbn [players set_currentRound].
  destruct (Player.findOne (players w) pid) as [p|]; cbn [fst].
  - match goal with
    | |- round_ok (emit (updatePlayerStats ?x ?a ?b ?c) _ _) =>
        destruct (updatePlayerStats_frame x a b c) as [db ->]
    end.
    unfold round_ok. cbn. rewrite A. repeat split; auto.
  - unfold round_ok. cbn. rewrite A. repeat split; auto.
Qed.

Lemma round_ok_stop (w : World) : round_ok w -> round_ok (stop w).
Proof.
  unfold stop. destruct (multiplierInterval w); [|auto].
  unfold round_ok. cbn. auto.
Qed.

Lemma round_ok_step (w : World) (a : Action) :
  round_ok w -> valid_action a -> round_ok (step w a).
Proof.
  intros H Ha. destruct a as [now | d now | now | pid usd c now feed rand
                              | pid rand | | doc pid usd c price rand
                              | bet wallet' rand]; cbn [step].
  - (* the betting window ends *)
    unfold pending. pose proof H as H'. unfold round_ok in H'.
    destruct (currentRound w) as [r|] eqn:R.
    + destruct H' as (Hcp & Hbets & Hph).
      destruct (isGameActive w) eqn:A.
      * destruct Hph as (_ & _ & Ht). rewrite Ht. exact H.
      * destruct Hph as [(Hst & Ht) | (Hst & Ht)]; rewrite Ht;
          cbn [existsb Timeout_eqb orb]; [|exact H].
        unfold startGamePhase, fired. cbn [currentRound]. rewrite R.
        unfold round_ok. cbn. rewrite Ht. cbn. repeat split; auto.
    + destruct H' as (_ & Ht). rewrite Ht. exact H.
  - (* the cool-down ends *)
    unfold pending. pose proof H as H'. unfold round_ok in H'.
    destruct (currentRound w) as [r|] eqn:R.
    + destruct H' as (Hcp & Hbets & Hph).
      destruct (isGameActive w) eqn:A.
      * destruct Hph as (_ & _ & Ht). rewrite Ht. exact H.
      * destruct Hph as [(Hst & Ht) | (Hst & Ht)]; rewrite Ht;
          cbn [existsb Timeout_eqb orb]; [exact H|].
        unfold startNewRound, fired. cbn [currentRound isGameActive].
        rewrite R, A. unfold round_ok. cbn. rewrite Ht. cbn.
        repeat split; auto.
    + destruct H' as (_ & Ht). rewrite Ht. exact H.
  - destruct (intervals w); [exact H | apply round_ok_tick, H].
  - apply round_ok_placeBet, H.
  - apply round_ok_cashOut, H.
  - apply round_ok_stop, H.
  - unfold placeBet_debit_stage.
    destruct doc as [p|]; [destruct (Qltb _ _)|]; exact H.
  - unfold placeBet_record_stage.
    destruct (currentRound w) as [r|] eqn:R; [|exact H].
    unfold round_ok in *. rewrite R in H.
    destruct H as (Hcp & Hbets & Hph). destruct Ha as [_ Hm]. cbn.
    repeat split; try assumption.
    apply Forall_app. split; [exact Hbets|].
    constructor; [|constructor]. rewrite Hm. discriminate.
Qed.

Lemma round_ok_run (acts : list Action) :
  forall w, round_ok w -> Forall valid_action acts -> round_ok (run w acts).
Proof.
  induction acts as [|a acts IH]; intros w H Hall; simpl; [exact H|].
  inversion Hall as [|? ? Ha Hrest]; subst.
  apply IH; [apply round_ok_step; assumption | exact Hrest].
Qed.

(** C3.  Provided every round is drawn with a crash point above 1 (lemma
    [calculateCrashPoint_above_one]: so it is when [1 < minCrash <= maxCrash],
    as under the defaults), in every execution of a started engine: a
    [cashOut] while the current round is not active — not started, or
    crashed — fails with [RoundNotActive] and leaves the whole state as it
    was; a [cashOut] that succeeds does so in an active round at a
    multiplier below its crash point; and no bet of the current round
    records a cash-out multiplier at or above the crash point.  Without the
    proviso the last two parts fail
    ([cashOut_at_crash_point_counterexample]). *)
Theorem cashOut_only_while_active (cacheTimeout : Z) (db : list Player.t)
    (d : Draw) (now : Z) (acts : list Action) :
  valid_draw d -> Forall valid_action acts ->
  let w := run (start (create cacheTimeout db) d now) acts in
  forall pid rand,
    (phase w <> Some active -> cashOut w pid rand = (w, Err RoundNotActive))
    /\ (forall w' res,
          cashOut w pid rand = (w', Ok res) ->
          exists r, currentRound w = Some r
                    /\ GameRound.status r = active
                    /\ res_multiplier res < GameRound.crashPoint r)
    /\ (forall r b m,
          currentRound w = Some r -> In b (GameRound.bets r) ->
          Bet.cashoutMultiplier b = Some m -> m < GameRound.crashPoint r).
Proof.
  intros Hd Hacts w pid rand.
  assert (H : round_ok w)
    by (apply round_ok_run; [apply round_ok_start, Hd | exact Hacts]).
  unfold round_ok in H. repeat split.
  - intros Hph. unfold cashOut, phase in *.
    destruct (currentRound w) as [r|]; [|reflexivity].
    destruct (isGameActive w); [|reflexivity].
    destruct H as (_ & _ & Hst & _). cbn in Hph. congruence.
  - intros w' res Hok.
    destruct (cashOut_accepted w w' pid rand res Hok)
      as (A & r & bet & R & _ & Hm & _).
    rewrite R, A in H. destruct H as (_ & _ & Hst & Hlt & _).
    exists r. rewrite Hm. auto.
  - intros r b m R Hin Hb. rewrite R in H. destruct H as (_ & Hbets & _).
    rewrite Forall_forall in Hbets. apply (Hbets b Hin m Hb).
Qed.

Lemma cashOut_only_while_active_witness :
  let w := run (start (create 10000 [alice]) round1 0)
             [ DoPlaceBet "alice" 50 BTC 5 btc_50000 (mkRand "h1" "t1");
               FireStartGamePhase 3000; Tick 6000;
               DoCashOut "alice" (mkRand "h3" "t3"); Tick 18000 ] in
  let rand := mkRand "h4" "t4" in
  (phase w <> Some active ->
   cashOut w "alice" rand = (w, Err RoundNotActive))
  /\ (forall w' res,
        cashOut w "alice" rand = (w', Ok res) ->
        exists r, currentRound w = Some r
                  /\ GameRound.status r = active
                  /\ res_multiplier res < GameRound.crashPoint r)
  /\ (forall r b m,
        currentRound w = Some r -> In b (GameRound.bets r) ->
        Bet.cashoutMultiplier b = Some m -> m < GameRound.crashPoint r).
Proof.
  apply (cashOut_only_while_active 10000 [alice] round1 0
           [ DoPlaceBet "alice" 50 BTC 5 btc_50000 (mkRand "h1" "t1");
             FireStartGamePhase 3000; Tick 6000;
             DoCashOut "alice" (mkRand "h3" "t3"); Tick 18000 ]).
  - reflexivity.
  - repeat constructor.
Defined.

(** The claim as it stands does not hold.  With [MAX_CRASH_MULTIPLIER=1]
    and [minCrash] at its default 1.01, [calculateCrashPoint] returns 1 for
    every round.  A game phase starts at multiplier 1, and a cash-out that
    arrives before the first tick succeeds at 1, which is not below the
    crash point. *)
Lemma cashOut_at_crash_point_counterexample :
  let env := mkEnv None (Fin 1%R) NaN in
  let d := mkDraw "round_1" "abc" 1 in
  let w := run (start (create 10000 [alice]) d 0)
             [ DoPlaceBet "alice" 50 BTC 5 btc_50000 (mkRand "h1" "t1");
               FireStartGamePhase 3000 ] in
  let out := cashOut w "alice" (mkRand "h3" "t3") in
  calculateCrashPoint env (drawnSeed d) (drawnRoundId d)
  = Fin (Q2R (drawnCrashPoint d))
  /\ phase w = Some active
  /\ exists res r b,
       snd out = Ok res
       /\ currentRound (fst out) = Some r
       /\ In b (GameRound.bets r)
       /\ Bet.cashoutMultiplier b = Some (res_multiplier res)
       /\ GameRound.crashPoint r <= res_multiplier res.
Proof.
  split; [|split].
  - cbn [drawnSeed drawnRoundId drawnCrashPoint].
    replace (Q2R 1) with 1%R by (unfold Q2R; cbn; lra).
    apply (calculateCrashPoint_inverted _ _ _ (101 / 100)%R 1%R);
      [reflexivity | | lra].
    unfold maxCrash, js_or, js_truthy. cbn.
    destruct (Req_dec_T 1 0); [lra | reflexivity].
  - vm_compute. reflexivity.
  - eexists _, _, _.
    split; [vm_compute; reflexivity|].
    split; [vm_compute; reflexivity|].
    split; [left; reflexivity|].
    split; [reflexivity|]. vm_compute. discriminate.
Qed.

End CashOut.

(* ===================================================================== *)
(** ** The engine: [stop()] *)

Section Stop.
Import GameManager.
Local Open Scope Q_scope.

(** [stop()] cancels no timeout. *)
Lemma stop_timeouts (w : World) : timeouts (stop w) = timeouts w.
Proof. unfold stop. destruct (multiplierInterval w); reflexivity. Qed.

(** C8 at a failing input.  [stop()] is called in the betting window of
    the first round.  The timeout that starts the game phase is still
    pending; when it fires the round becomes active and an interval is
    set, the multiplier ticks, the round crashes and schedules the next
    round, which is created. *)
Theorem stop_while_betting_not_quiescent :
  timeouts stopped_while_betting = [TStartGamePhase]
  /\ phase stopped_while_betting = Some waiting
  /\ phase (run stopped_while_betting [FireStartGamePhase 3000])
     = Some active
  /\ intervals (run stopped_while_betting [FireStartGamePhase 3000]) <> []
  /\ currentMultiplier
       (run stopped_while_betting [FireStartGamePhase 3000; Tick 6000])
     == 13 # 10
  /\ phase (run stopped_while_betting
              [FireStartGamePhase 3000; Tick 6000; Tick 18000])
     = Some crashed
  /\ timeouts (run stopped_while_betting
                 [FireStartGamePhase 3000; Tick 6000; Tick 18000])
     = [TStartNewRound]
  /\ option_map GameRound.roundId
       (currentRound
          (run stopped_while_betting
             [FireStartGamePhase 3000; Tick 6000; Tick 18000;
              FireStartNewRound round2 21000]))
     = Some "round_2"%string.
Proof.
  repeat split; try (vm_compute; reflexivity).
  vm_compute. discriminate.
Qed.

End Stop.

(* ===================================================================== *)
(** ** Where the seed is sent *)

Section SeedReveal.
Import GameManager.
Local Open Scope Q_scope.





















End SeedReveal.

(* ===================================================================== *)
(** * Further properties of the code *)

(** ** The commitment *)

Section SeedHash.
Import Sha256.

Lemma hex_digit_lower (n : N) : (n < 16)%N -> is_lower_hex (hex_digit n) = true.
Proof.
  intros H. unfold is_lower_hex, hex_digit.
  destruct (n <? 10)%N eqn:E.
  - apply N.ltb_lt in E. rewrite N_ascii_embedding by lia.
    apply orb_true_iff. left. apply andb_true_iff.
    split; apply N.leb_le; lia.
  - apply N.ltb_ge in E. rewrite N_ascii_embedding by lia.
    apply orb_true_iff. right. apply andb_true_iff.
    split; apply N.leb_le; lia.
Qed.

Lemma hex_chars (bs : list ascii) :
  Forall (fun c => is_lower_hex c = true) (flat_map hex_of_byte bs)
  /\ List.length (flat_map hex_of_byte bs) = (2 * List.length bs)%nat.
Proof.
  induction bs as [|b bs [IH1 IH2]]; simpl;
    [split; [constructor | reflexivity]|].
  pose proof (N_ascii_bounded b) as Hb. split.
  - constructor; [|constructor; [|exact IH1]]; apply hex_digit_lower.
    + apply N.Div0.div_lt_upper_bound. lia.
    + apply N.mod_lt. lia.
  - rewrite IH2. lia.
Qed.

Lemma string_of_list_length (l : list ascii) :
  String.length (string_of_list_ascii l) = List.length l.
Proof. induction l; simpl; congruence. Qed.

(** X1.  [hashSeed] returns 64 lower-case hexadecimal digits, whatever the
    seed. *)
Theorem hashSeed_format (seed : string) :
  String.length (GameManager.hashSeed seed) = 64%nat
  /\ Forall (fun c => is_lower_hex c = true)
            (list_ascii_of_string (GameManager.hashSeed seed)).
Proof.
  unfold GameManager.hashSeed, createHash_hex, hex.
  destruct (hex_chars (sha256 (list_ascii_of_string seed))) as [H1 H2].
  split.
  - rewrite string_of_list_length, H2, sha256_length. reflexivity.
  - rewrite list_ascii_of_string_of_list_ascii. exact H1.
Qed.

End SeedHash.

(** ** The crash point as a function of the digest *)

Section CrashMonotone.
Local Open Scope R_scope.

Lemma unit_interval (n : Z) :
  (0 <= n < 4294967295)%Z -> 0 < 1 - IZR n / 4294967295 <= 1.
Proof.
  intros [Hn0 Hn1]. apply IZR_le in Hn0. apply IZR_lt in Hn1. split.
  - apply Rlt_0_minus. apply Rmult_lt_reg_r with 4294967295; [lra|].
    unfold Rdiv. rewrite Rmult_assoc, Rinv_l; lra.
  - assert (0 <= IZR n / 4294967295); [|lra].
    apply Rmult_le_pos; [lra|]. left. apply Rinv_0_lt_compat. lra.
Qed.

Lemma crash_of_monotone (lo hi : R) (n m : Z) :
  (0 <= n <= m)%Z -> (m <= 4294967295)%Z -> lo <= hi ->
  exists a b,
    crash_of (Fin lo) (Fin hi) (Fin (IZR n)) = Fin a
    /\ crash_of (Fin lo) (Fin hi) (Fin (IZR m)) = Fin b
    /\ a <= b.
Proof.
  intros Hn Hm Hle.
  destruct (Z.eq_dec m 4294967295) as [-> | Hm'].
  - destruct (crash_of_range lo hi n) as (a & Ea & Ha); [lia | exact Hle |].
    exists a, hi. rewrite crash_of_top. repeat split; [exact Ea | lra].
  - destruct (crash_of_finite lo hi n) as [En | F]; [lia | | lra].
    destruct (crash_of_finite lo hi m) as [Em | F]; [lia | | lra].
    eexists _, _. split; [exact En|]. split; [exact Em|].
    pose proof (unit_interval n ltac:(lia)) as [Hn0 _].
    pose proof (unit_interval m ltac:(lia)) as [Hm0 _].
    assert (Hx : 1 - IZR m / 4294967295 <= 1 - IZR n / 4294967295).
    { assert (IZR n <= IZR m) by (apply IZR_le; lia).
      unfold Rdiv.
      assert (IZR n * / 4294967295 <= IZR m * / 4294967295); [|lra].
      apply Rmult_le_compat_r; [|assumption].
      left. apply Rinv_0_lt_compat. lra. }
    assert (Hln : ln (1 - IZR m / 4294967295) <= ln (1 - IZR n / 4294967295)).
    { destruct Hx as [Hx | Hx]; [left; apply ln_increasing; assumption|].
      rewrite Hx. lra. }
    replace (ln (1 - IZR n / 4294967295) / - (1 / 10))
      with (- 10 * ln (1 - IZR n / 4294967295)) by field.
    replace (ln (1 - IZR m / 4294967295) / - (1 / 10))
      with (- 10 * ln (1 - IZR m / 4294967295)) by field.
    apply Rle_min_compat_r. lra.
Qed.

Lemma crash_of_bottom (lo hi : R) :
  lo <= hi -> crash_of (Fin lo) (Fin hi) (Fin (IZR 0)) = Fin lo.
Proof.
  intros Hle. destruct (crash_of_finite lo hi 0) as [E | F]; [lia | | lra].
  rewrite E. f_equal.
  replace (1 - IZR 0 / 4294967295) with 1 by (simpl; field).
  rewrite ln_1. replace (lo + 0 / - (1 / 10)) with lo by field.
  apply Rmin_left. exact Hle.
Qed.

(** X2.  The crash point grows with the digest: of two rounds under one
    configuration, the one whose digest starts with the larger 32-bit number
    does not crash earlier.  The smallest digest gives [minCrash], the
    largest (where [uniform] is 1 and the logarithm [-Infinity]) gives
    [maxCrash]. *)
Theorem calculateCrashPoint_monotone (env : Env)
    (seed1 roundId1 seed2 roundId2 : string) (lo hi : R) :
  GameManager.minCrash env = Fin lo ->
  GameManager.maxCrash env = Fin hi ->
  lo <= hi ->
  (hashNum (GameManager.secretKey env) seed1 roundId1
   <= hashNum (GameManager.secretKey env) seed2 roundId2)%Z ->
  (exists a b,
     GameManager.calculateCrashPoint env seed1 roundId1 = Fin a
     /\ GameManager.calculateCrashPoint env seed2 roundId2 = Fin b
     /\ a <= b)
  /\ crash_of (Fin lo) (Fin hi) (Fin (IZR 0)) = Fin lo
  /\ crash_of (Fin lo) (Fin hi) (Fin (IZR 4294967295)) = Fin hi.
Proof.
  intros Hlo Hhi Hle Hn. split; [|split].
  - rewrite !calculateCrashPoint_crash_of, Hlo, Hhi.
    unfold hashNum in Hn.
    apply crash_of_monotone; [split; [apply hashNum_range | exact Hn]
                             | apply hashNum_range | exact Hle].
  - apply crash_of_bottom, Hle.
  - apply crash_of_top.
Qed.

Lemma calculateCrashPoint_monotone_witness :
  (exists a b,
     GameManager.calculateCrashPoint default_env "abc" "round_2" = Fin a
     /\ GameManager.calculateCrashPoint default_env "abc" "round_1" = Fin b
     /\ a <= b)
  /\ crash_of (Fin (101 / 100)) (Fin 120) (Fin (IZR 0)) = Fin (101 / 100)
  /\ crash_of (Fin (101 / 100)) (Fin 120) (Fin (IZR 4294967295)) = Fin 120.
Proof.
  apply (calculateCrashPoint_monotone default_env "abc" "round_2"
           "abc" "round_1" (101 / 100) 120).
  - reflexivity.
  - reflexivity.
  - lra.
  - vm_compute. discriminate.
Defined.

End CrashMonotone.

(** ** The life of a round *)

Section Lifecycle.
Import GameManager.
Local Open Scope Q_scope.

Lemma same_identity_refl (r : Round) : same_identity r r.
Proof. repeat split. Qed.

Lemma stake_mark_first (pid : string) (m : Q) (po : Payout.t)
    (bs : list Bet.t) :
  map stake (mark_first pid m po bs) = map stake bs.
Proof.
  induction bs as [|b bs IH]; simpl; [reflexivity|].
  destruct (unsettled pid b); simpl; [reflexivity | now rewrite IH].
Qed.

Lemma round_moves_refl (r : Round) : round_moves r r.
Proof.
  left. split; [apply same_identity_refl|]. split; [lia|].
  exists []. rewrite app_nil_r. reflexivity.
Qed.

Ltac same_round more :=
  left; split; [repeat split|]; split;
  [ cbn;
    repeat match goal with
           | H : GameRound.status _ = _ |- _ => rewrite H
           end; cbn; lia
  | first [ exists more; cbn;
            rewrite ?stake_mark_first, ?map_app, ?app_nil_r; reflexivity
          | eexists; cbn; rewrite ?map_app; reflexivity ] ].

(** X3.  The phase never regresses and a round keeps its identity: in a started
    engine every step leaves the current round the same round ([roundId],
    [startTime], [crashPoint], [seed], [seedHash] unchanged) in the same or
    a later phase, with the stakes already placed untouched, unless the
    round has crashed and the step creates the next one, which starts in
    the betting window without bets. *)
Theorem round_never_regresses (w : World) (a : Action) (r : Round) :
  round_ok w -> currentRound w = Some r ->
  exists r', currentRound (step w a) = Some r' /\ round_moves r r'.
Proof.
  intros H R. pose proof H as H'. unfold round_ok in H'. rewrite R in H'.
  destruct H' as (Hcp & Hbets & Hph).
  assert (Same : currentRound w = Some r /\ round_moves r r)
    by (split; [exact R | apply round_moves_refl]).
  destruct a as [now | d now | now | pid usd c now feed rand
                 | pid rand | | doc pid usd c price rand
                 | bet wallet' rand]; cbn [step].
  - unfold pending. destruct (isGameActive w) eqn:A.
    + destruct Hph as (_ & _ & Ht). rewrite Ht. cbn. eauto.
    + destruct Hph as [(Hst & Ht) | (Hst & Ht)]; rewrite Ht; cbn - [rank];
        [|eauto].
      unfold startGamePhase, fired. cbn [currentRound]. rewrite R.
      eexists. split; [reflexivity|].
      same_round (@nil (string * Q * Q * Currency * Q)).
  - unfold pending. destruct (isGameActive w) eqn:A.
    + destruct Hph as (_ & _ & Ht). rewrite Ht. cbn. eauto.
    + destruct Hph as [(Hst & Ht) | (Hst & Ht)]; rewrite Ht; cbn - [rank];
        [eauto|].
      eexists. split; [reflexivity|]. right. cbn. auto.
  - destruct (intervals w); [eauto|].
    unfold updateMultiplier. rewrite R.
    destruct (isGameActive w) eqn:A; cbn [negb]; [|eauto].
    destruct Hph as (Hst & Hm & Ht).
    destruct (Qgeb _ _).
    + match goal with
      | |- context [crashGame ?x now] =>
          destruct (crashGame_running x now
                      (set_maxMultiplier r
                         (Math_max
                            (if CryptoService.falsy (GameRound.maxMultiplier r)
                             then 1 else GameRound.maxMultiplier r)
                            (multiplier_at w now))))
            as (C1 & _)
      end; try reflexivity; try exact A.
      { cbn. rewrite Hst. discriminate. }
      rewrite C1. eexists. split; [reflexivity|].
      same_round (@nil (string * Q * Q * Currency * Q)).
    + eexists. split; [reflexivity|].
      same_round (@nil (string * Q * Q * Currency * Q)).
  - unfold placeBet. rewrite R.
    destruct (negb _); [eauto|].
    destruct (CryptoService.run_call _ _) as [cs [price | msg]];
      cbn [fst players set_cryptoService]; [|eauto].
    destruct (Player.findOne (players w) pid) as [p|];
      [destruct (Qltb _ _)|]; cbn [fst]; try (cbn; eauto).
    eexists. split; [reflexivity|].
    same_round (@nil (string * Q * Q * Currency * Q)).
  - unfold cashOut. rewrite R.
    destruct (isGameActive w); cbn [negb]; [|eauto].
    destruct (find _ _) as [bet|]; [|eauto].
    cbn [players set_currentRound].
    destruct (Player.findOne (players w) pid) as [p|]; cbn [fst].
    + match goal with
      | |- context [emit (updatePlayerStats ?x ?a ?b ?c) _ _] =>
          destruct (updatePlayerStats_frame x a b c) as [db ->]
      end.
      eexists. split; [reflexivity|].
      same_round (@nil (string * Q * Q * Currency * Q)).
    + eexists. split; [reflexivity|].
      same_round (@nil (string * Q * Q * Currency * Q)).
  - unfold stop. destruct (multiplierInterval w); cbn; eauto.
  - unfold placeBet_debit_stage.
    destruct doc as [p|]; [destruct (Qltb _ _)|]; cbn; eauto.
  - unfold placeBet_record_stage. rewrite R.
    eexists. split; [reflexivity|].
    same_round (@nil (string * Q * Q * Currency * Q)).
Qed.

Lemma round_never_regresses_witness :
  exists r',
    currentRound (step betting_open (FireStartGamePhase 3000)) = Some r'
    /\ round_moves
         (GameRound.mk Q "round_1" 0 None (25 # 10) "abc" (hashSeed "abc")
            [] waiting 1) r'.
Proof.
  apply (round_never_regresses betting_open (FireStartGamePhase 3000) _
           (round_ok_start 10000 [alice] round1 0 eq_refl) eq_refl).
Defined.

(** *** Timers and commitment of a started engine *)

Lemma endRound_intervals_frame (w : World) (now : Z) :
  intervals (endRound w now) = intervals w.
Proof.
  unfold endRound. destruct (currentRound w); [|reflexivity].
  destruct (Status_eqb _ _); [reflexivity|].
  match goal with
  | |- context [fold_left ?f ?bs ?y] =>
      destruct (endRound_fold_frame bs y) as [db ->]
  end. reflexivity.
Qed.

Lemma crashGame_timers (w : World) (now : Z) :
  timers_ok w -> timers_ok (crashGame w now).
Proof.
  unfold crashGame. destruct (currentRound w) as [r|]; [|auto].
  destruct (isGameActive w) eqn:A; cbn [negb]; [|auto].
  intros T. unfold timers_ok in T.
  change (multiplierInterval (set_isGameActive w false))
    with (multiplierInterval w).
  assert (E : forall x, intervals x = [] ->
            timers_ok
              match currentRound (endRound x now) with
              | Some r0 =>
                  setTimeout
                    (emit (endRound x now) "round:crashed"
                       [("roundId"%string, VStr (GameRound.roundId r0));
                        ("crashPoint"%string, VNum (GameRound.crashPoint r0));
                        ("finalMultiplier"%string,
                         VNum (currentMultiplier (endRound x now)))])
                    TStartNewRound
              | None => endRound x now
              end).
  { intros x Hx.
    assert (Hi : intervals (endRound x now) = []).
    { unfold endRound. destruct (currentRound x); [|exact Hx].
      destruct (Status_eqb _ _); [exact Hx|].
      match goal with
      | |- context [fold_left ?f ?bs ?y] =>
          destruct (endRound_fold_frame bs y) as [db ->]
      end. exact Hx. }
    destruct (currentRound (endRound x now)); unfold timers_ok; cbn;
      rewrite Hi; exact I. }
  destruct (multiplierInterval w) as [h|] eqn:M.
  - apply E. cbn.
    destruct (intervals w) as [|h' [|h'' l]]; [reflexivity | | contradiction].
    destruct T as [T _]. assert (h' = h) by congruence. subst h'.
    cbn. rewrite Nat.eqb_refl. reflexivity.
  - apply E. cbn.
    destruct (intervals w) as [|h' [|h'' l]]; [reflexivity | | contradiction].
    destruct T as [T _]. congruence.
Qed.

Lemma timers_ok_step (w : World) (a : Action) :
  round_ok w -> timers_ok w -> timers_ok (step w a).
Proof.
  intros H T. pose proof H as H'. unfold round_ok in H'.
  destruct a as [now | d now | now | pid usd c now feed rand
                 | pid rand | | doc pid usd c price rand
                 | bet wallet' rand]; cbn [step].
  - unfold pending. destruct (currentRound w) as [r|] eqn:R.
    + destruct H' as (_ & _ & Hph). destruct (isGameActive w) eqn:A.
      * destruct Hph as (_ & _ & Ht). rewrite Ht. exact T.
      * destruct Hph as [(Hst & Ht) | (Hst & Ht)]; rewrite Ht;
          cbn [existsb Timeout_eqb orb]; [|exact T].
        unfold startGamePhase, fired. cbn [currentRound]. rewrite R.
        unfold timers_ok in *. cbn.
        destruct (intervals w) as [|h [|h' l]]; [auto | | contradiction].
        destruct T as [_ T]. congruence.
    + destruct H' as (_ & Ht). rewrite Ht. exact T.
  - unfold pending. destruct (currentRound w) as [r|] eqn:R.
    + destruct H' as (_ & _ & Hph). destruct (isGameActive w) eqn:A.
      * destruct Hph as (_ & _ & Ht). rewrite Ht. exact T.
      * destruct Hph as [(Hst & Ht) | (Hst & Ht)]; rewrite Ht;
          cbn [existsb Timeout_eqb orb]; [exact T|].
        unfold startNewRound, fired. cbn [currentRound isGameActive].
        rewrite R, A. unfold timers_ok in *. cbn. rewrite A in T. exact T.
    + destruct H' as (_ & Ht). rewrite Ht. exact T.
  - destruct (intervals w) eqn:I; [exact T|]. clear I.
    unfold updateMultiplier.
    destruct (currentRound w) as [r|]; [|exact T].
    destruct (isGameActive w) eqn:A; cbn [negb]; [|exact T].
    destruct (Qgeb _ _).
    + apply crashGame_timers. unfold timers_ok in *. cbn. exact T.
    + unfold timers_ok in *. cbn. exact T.
  - unfold placeBet. destruct (currentRound w) as [r|]; [|exact T].
    destruct (negb _); [exact T|].
    destruct (CryptoService.run_call _ _) as [cs [price | msg]];
      cbn [fst players set_cryptoService]; [|exact T].
    destruct (Player.findOne (players w) pid) as [p|];
      [destruct (Qltb _ _)|]; exact T.
  - unfold cashOut. destruct (currentRound w) as [r|]; [|exact T].
    destruct (isGameActive w) eqn:A; cbn [negb]; [|exact T].
    destruct (find _ _) as [bet|]; [|exact T].
    cbn [players set_currentRound].
    destruct (Player.findOne (players w) pid) as [p|]; cbn [fst].
    + match goal with
      | |- context [emit (updatePlayerStats ?x ?a ?b ?c) _ _] =>
          destruct (updatePlayerStats_frame x a b c) as [db ->]
      end.
      unfold timers_ok in *. cbn. exact T.
    + unfold timers_ok in *. cbn. exact T.
  - unfold stop. destruct (multiplierInterval w) as [h|] eqn:M; [|exact T].
    unfold timers_ok in *. cbn.
    destruct (intervals w) as [|h' [|h'' l]]; [exact I | | contradiction].
    destruct T as [T _]. assert (h' = h) by congruence. subst h'.
    cbn. rewrite Nat.eqb_refl. exact I.
  - unfold placeBet_debit_stage.
    destruct doc as [p|]; [destruct (Qltb _ _)|]; exact T.
  - unfold placeBet_record_stage.
    destruct (currentRound w) as [r|]; exact T.
Qed.

Lemma rewritten_refl (o : option Round) : rewritten o o.
Proof.
  destruct o as [r|]; [|reflexivity]. cbn.
  exists r, (GameRound.endTime r), (GameRound.bets r), (GameRound.status r),
    (GameRound.maxMultiplier r).
  split; [reflexivity | destruct r; reflexivity].
Qed.

Lemma rewritten_with (r : Round) (e : option Z) (b : list Bet.t)
    (s : Status) (m : Q) :
  rewritten (Some r) (Some (round_with r e b s m)).
Proof. cbn. exists r, e, b, s, m. auto. Qed.

Lemma rewritten_trans (o1 o2 o3 : option Round) :
  rewritten o1 o2 -> rewritten o2 o3 -> rewritten o1 o3.
Proof.
  unfold rewritten. destruct o3 as [r3|].
  - intros H12 (r2 & e & b & s & m & -> & ->).
    destruct H12 as (r1 & e' & b' & s' & m' & -> & ->).
    exists r1, e, b, s, m. auto.
  - intros H12 ->. exact H12.
Qed.

Ltac rewritten_now :=
  unfold rewritten; do 5 eexists; split; reflexivity.

Lemma endRound_rewritten (w : World) (now : Z) :
  rewritten (currentRound w) (currentRound (endRound w now)).
Proof.
  unfold endRound. destruct (currentRound w) as [r|] eqn:R;
    [|cbn [fst]; rewrite ?R; apply rewritten_refl].
  destruct (Status_eqb _ _); [rewrite R; apply rewritten_refl|].
  match goal with
  | |- context [fold_left ?f ?bs ?y] =>
      destruct (endRound_fold_frame bs y) as [db ->]
  end.
  cbn [currentRound set_players set_currentRound].
  rewritten_now.
Qed.

Lemma crashGame_rewritten (w : World) (now : Z) :
  rewritten (currentRound w) (currentRound (crashGame w now)).
Proof.
  unfold crashGame. destruct (currentRound w) as [r|] eqn:R;
    [|cbn [fst]; rewrite ?R; apply rewritten_refl].
  destruct (isGameActive w); cbn [negb]; [|rewrite R; apply rewritten_refl].
  change (multiplierInterval (set_isGameActive w false))
    with (multiplierInterval w).
  assert (E : forall x, currentRound x = Some r ->
            rewritten (Some r)
              (currentRound
                 match currentRound (endRound x now) with
                 | Some r0 =>
                     setTimeout
                       (emit (endRound x now) "round:crashed"
                          [("roundId"%string, VStr (GameRound.roundId r0));
                           ("crashPoint"%string,
                            VNum (GameRound.crashPoint r0));
                           ("finalMultiplier"%string,
                            VNum (currentMultiplier (endRound x now)))])
                       TStartNewRound
                 | None => endRound x now
                 end)).
  { intros x Rx. pose proof (endRound_rewritten x now) as Hx.
    rewrite Rx in Hx.
    destruct (currentRound (endRound x now)) as [r0|] eqn:R0; cbn;
      rewrite ?R0; exact Hx. }
  destruct (multiplierInterval w); apply E; exact R.
Qed.

Ltac unchanged R := cbn [fst]; rewrite ?R; apply rewritten_refl.

(** After any step the current round is the one before with some of its
    mutable fields rewritten, or the round [startNewRound] has just drawn. *)
Lemma step_rewritten (w : World) (a : Action) :
  rewritten (currentRound w) (currentRound (step w a))
  \/ exists d now,
       currentRound (step w a)
       = Some (GameRound.mk Q (drawnRoundId d) now None (drawnCrashPoint d)
                 (drawnSeed d) (hashSeed (drawnSeed d)) [] waiting 1).
Proof.
  destruct a as [now | d now | now | pid usd c now feed rand
                 | pid rand | | doc pid usd c price rand
                 | bet wallet' rand]; cbn [step].
  - left. destruct (pending _ _); [|apply rewritten_refl].
    unfold startGamePhase, fired. cbn [currentRound].
    destruct (currentRound w) as [r|] eqn:R; [|unchanged R].
    rewritten_now.
  - destruct (pending _ _); [|left; apply rewritten_refl].
    right. exists d, now. reflexivity.
  - left. destruct (intervals w); [apply rewritten_refl|].
    unfold updateMultiplier.
    destruct (currentRound w) as [r|] eqn:R; [|unchanged R].
    destruct (isGameActive w); cbn [negb]; [|unchanged R].
    destruct (Qgeb _ _).
    + eapply rewritten_trans; [|apply crashGame_rewritten].
      rewritten_now.
    + rewritten_now.
  - left. unfold placeBet.
    destruct (currentRound w) as [r|] eqn:R; [|unchanged R].
    destruct (negb _); [unchanged R|].
    destruct (CryptoService.run_call _ _) as [cs [price | msg]];
      cbn [fst players set_cryptoService];
      [|cbn; unchanged R].
    destruct (Player.findOne (players w) pid) as [p|];
      [destruct (Qltb _ _)|]; cbn [fst];
      try (cbn; unchanged R).
    rewritten_now.
  - left. unfold cashOut.
    destruct (currentRound w) as [r|] eqn:R; [|unchanged R].
    destruct (isGameActive w); cbn [negb]; [|unchanged R].
    destruct (find _ _) as [bet|]; [|unchanged R].
    cbn [players set_currentRound].
    destruct (Player.findOne (players w) pid) as [p|]; cbn [fst].
    + match goal with
      | |- context [emit (updatePlayerStats ?x ?a ?b ?c) _ _] =>
          destruct (updatePlayerStats_frame x a b c) as [db ->]
      end.
      rewritten_now.
    + rewritten_now.
  - left. unfold stop. destruct (multiplierInterval w); apply rewritten_refl.
  - left. unfold placeBet_debit_stage.
    destruct doc as [p|]; [destruct (Qltb _ _)|]; apply rewritten_refl.
  - left. unfold placeBet_record_stage.
    destruct (currentRound w) as [r|] eqn:R; [|unchanged R].
    rewritten_now.
Qed.

Lemma committed_step (w : World) (a : Action) :
  committed w -> currentRound w <> None ->
  committed (step w a) /\ currentRound (step w a) <> None.
Proof.
  intros C N. unfold committed in *.
  destruct (step_rewritten w a) as [Hr | (d & now & ->)].
  - unfold rewritten in Hr.
    destruct (currentRound (step w a)) as [r'|]; [|contradiction].
    destruct Hr as (r & e & b & s & m & Hw & ->). rewrite Hw in C.
    split; [exact C | discriminate].
  - split; [reflexivity | discriminate].
Qed.

(** X4.  In every execution of a started engine whose rounds are drawn with
    a crash point above 1, there is a current round whose published
    [seedHash] is the hash of its seed; at most one timeout is pending and
    at most one interval is live, never both; and an interval is live only
    while the round is active. *)
Theorem started_engine_invariants (cacheTimeout : Z) (db : list Player.t)
    (d : Draw) (now : Z) (acts : list Action) :
  valid_draw d -> Forall valid_action acts ->
  let w := run (start (create cacheTimeout db) d now) acts in
  (exists r, currentRound w = Some r
             /\ GameRound.seedHash r = hashSeed (GameRound.seed r))
  /\ (List.length (timeouts w) + List.length (intervals w) <= 1)%nat
  /\ (intervals w <> [] -> phase w = Some active).
Proof.
  intros Hd Hacts w. subst w.
  set (w0 := start (create cacheTimeout db) d now).
  assert (H0 : round_ok w0 /\ timers_ok w0
               /\ committed w0 /\ currentRound w0 <> None).
  { split; [apply round_ok_start, Hd|].
    split; [exact I|]. split; [reflexivity | discriminate]. }
  clearbody w0. revert w0 H0.
  induction Hacts as [|a acts Ha Hacts IH]; intros w (H & T & C & N).
  - cbn [run fold_left]. unfold round_ok in H. unfold timers_ok in T.
    unfold committed in C. unfold phase.
    destruct (currentRound w) as [r|]; [|contradiction].
    destruct H as (_ & _ & Hph). cbn [option_map].
    split; [exists r; auto|].
    destruct (isGameActive w) eqn:A.
    + destruct Hph as (Hst & _ & Ht). rewrite Ht, Hst.
      split; [|congruence].
      destruct (intervals w) as [|h [|h' l]]; cbn; try lia; contradiction.
    + destruct (intervals w) as [|h [|h' l]];
        [|destruct T; congruence|contradiction].
      destruct Hph as [(Hst & Ht) | (Hst & Ht)]; rewrite Ht, Hst;
        (split; [cbn; lia | congruence]).
  - cbn [run fold_left]. apply (IH (step w a)).
    destruct (committed_step w a C N) as [C' N'].
    split; [apply round_ok_step; assumption|].
    split; [apply timers_ok_step; assumption|]. split; assumption.
Qed.

Lemma started_engine_invariants_witness :
  let w := run (start (create 10000 [alice]) round1 0)
             [ DoPlaceBet "alice" 50 BTC 5 btc_50000 (mkRand "h1" "t1");
               FireStartGamePhase 3000; Tick 6000; DoStop; Tick 7000 ] in
  (exists r, currentRound w = Some r
             /\ GameRound.seedHash r = hashSeed (GameRound.seed r))
  /\ (List.length (timeouts w) + List.length (intervals w) <= 1)%nat
  /\ (intervals w <> [] -> phase w = Some active).
Proof.
  apply (started_engine_invariants 10000 [alice] round1 0
           [ DoPlaceBet "alice" 50 BTC 5 btc_50000 (mkRand "h1" "t1");
             FireStartGamePhase 3000; Tick 6000; DoStop; Tick 7000 ]).
  - reflexivity.
  - repeat constructor.
Defined.

End Lifecycle.

(* ===================================================================== *)
(** ** Ticks, cash-outs and losses *)

Section Settlement.
Import GameManager.
Local Open Scope Q_scope.

(** *** The tick on doubles *)

Lemma updatePlayerStats_rounded_frame (fl : Q -> Q) (w : World)
    (pid : string) (won : bool) (amount : Q) :
  exists db, updatePlayerStats_rounded fl w pid won amount = set_players w db.
Proof.
  unfold updatePlayerStats_rounded.
  destruct (Player.findOne (players w) pid) as [p|].
  - eexists. reflexivity.
  - exists (players w). destruct w; reflexivity.
Qed.

Lemma endRound_rounded_fold_frame (fl : Q -> Q) (bs : list Bet.t) :
  forall w, exists db,
    fold_left
      (fun w bet =>
         if Bet.cashedOut bet then w
         else updatePlayerStats_rounded fl w (Bet.playerId bet) false
                (Bet.usdAmount bet))
      bs w
    = set_players w db.
Proof.
  induction bs as [|b bs IH]; intros w; simpl.
  - exists (players w). destruct w; reflexivity.
  - destruct (Bet.cashedOut b); [apply IH|].
    destruct (updatePlayerStats_rounded_frame fl w (Bet.playerId b) false
                (Bet.usdAmount b)) as [db ->].
    destruct (IH (set_players w db)) as [db' ->].
    exists db'. reflexivity.
Qed.

(** The fields of the manager after [crashGame] in a running round: the
    flag is cleared, the interval is cleared as [stop()] clears it, the
    round is crashed, the next round is scheduled and the crash is
    announced. *)
Lemma crashGame_rounded_running (fl : Q -> Q) (w : World) (now : Z)
    (r : Round) :
  currentRound w = Some r -> isGameActive w = true ->
  GameRound.status r <> crashed ->
  currentRound (crashGame_rounded fl w now)
  = Some (set_status (set_endTime r now) crashed)
  /\ isGameActive (crashGame_rounded fl w now) = false
  /\ currentMultiplier (crashGame_rounded fl w now) = currentMultiplier w
  /\ intervals (crashGame_rounded fl w now) = intervals (stop w)
  /\ timeouts (crashGame_rounded fl w now)
     = (timeouts w ++ [TStartNewRound])%list
  /\ emitted (crashGame_rounded fl w now)
     = (emitted w
        ++ [ ("round:crashed"%string,
              [ ("roundId"%string, VStr (GameRound.roundId r));
                ("crashPoint"%string, VNum (GameRound.crashPoint r));
                ("finalMultiplier"%string, VNum (currentMultiplier w)) ]) ])%list.
Proof.
  intros R A Hst. unfold crashGame_rounded, stop. rewrite R, A. cbn [negb].
  assert (E : forall x, currentRound x = Some r ->
            exists db, endRound_rounded fl x now
                       = set_players
                           (set_currentRound x
                              (Some (set_status (set_endTime r now) crashed)))
                           db).
  { intros x Rx. unfold endRound_rounded. rewrite Rx.
    destruct (Status_eqb (GameRound.status r) crashed) eqn:S.
    - destruct (GameRound.status r); try discriminate S. congruence.
    - apply endRound_rounded_fold_frame. }
  change (multiplierInterval (set_isGameActive w false))
    with (multiplierInterval w).
  destruct (multiplierInterval w) as [h|].
  - destruct (E (clearInterval (set_isGameActive w false) h)) as [db ->];
      [exact R|]. cbn. repeat split.
  - destruct (E (set_isGameActive w false)) as [db ->]; [exact R|].
    cbn. repeat split.
Qed.

(** What a tick does once the multiplier [m] is computed. *)
Lemma updateMultiplier_rounded_outcome (fl : Q -> Q) (w : World) (now : Z)
    (r : Round) (m : Q) :
  currentRound w = Some r -> isGameActive w = true ->
  GameRound.status r = active ->
  multiplier_at_rounded fl w now = m ->
  let w' := updateMultiplier_rounded fl w now in
  currentMultiplier w' = m
  /\ (GameRound.crashPoint r <= m ->
      phase w' = Some crashed
      /\ isGameActive w' = false
      /\ intervals w' = intervals (stop w)
      /\ timeouts w' = (timeouts w ++ [TStartNewRound])%list
      /\ emitted w'
         = (emitted w
            ++ [ ("round:crashed"%string,
                  [ ("roundId"%string, VStr (GameRound.roundId r));
                    ("crashPoint"%string, VNum (GameRound.crashPoint r));
                    ("finalMultiplier"%string, VNum m) ]) ])%list)
  /\ (m < GameRound.crashPoint r ->
      phase w' = Some active
      /\ isGameActive w' = true
      /\ intervals w' = intervals w /\ timeouts w' = timeouts w
      /\ emitted w'
         = (emitted w
            ++ [ ("multiplier:update"%string,
                  [ ("roundId"%string, VStr (GameRound.roundId r));
                    ("multiplier"%string,
                     VNum (fl (toFixed m 2))) ]) ])%list)
  /\ (exists r', currentRound w' = Some r'
                 /\ m <= GameRound.maxMultiplier r').
Proof.
  intros R A Hst M w'.
  set (r1 := set_maxMultiplier r
               (Math_max
                  (if CryptoService.falsy (GameRound.maxMultiplier r)
                   then 1 else GameRound.maxMultiplier r) m)).
  set (x := set_currentRound (set_currentMultiplier w m) (Some r1)).
  assert (Hmax : m <= GameRound.maxMultiplier r1).
  { cbn. unfold Math_max. destruct (Qltb _ m) eqn:L; [apply Qle_refl|].
    apply Qltb_false in L. exact L. }
  assert (Hcrash : Qgeb m (GameRound.crashPoint r) = true ->
            w' = crashGame_rounded fl x now).
  { intros G. subst w'. unfold updateMultiplier_rounded. rewrite R, A.
    cbn [negb]. rewrite M. fold r1. fold x.
    cbn [GameRound.crashPoint set_maxMultiplier round_with r1]. rewrite G.
    reflexivity. }
  assert (Hstay : Qgeb m (GameRound.crashPoint r) = false ->
            w' = emit x "multiplier:update"
                   [ ("roundId"%string, VStr (GameRound.roundId r1));
                     ("multiplier"%string, VNum (fl (toFixed m 2))) ]).
  { intros G. subst w'. unfold updateMultiplier_rounded. rewrite R, A.
    cbn [negb]. rewrite M. fold r1. fold x.
    cbn [GameRound.crashPoint set_maxMultiplier round_with r1]. rewrite G.
    reflexivity. }
  clearbody w'.
  assert (Hrun := crashGame_rounded_running fl x now r1 eq_refl A).
  destruct Hrun as (C1 & C2 & C3 & C4 & C5 & C6).
  { cbn. rewrite Hst. discriminate. }
  assert (C4' : intervals (stop x) = intervals (stop w)).
  { unfold stop. change (multiplierInterval x) with (multiplierInterval w).
    destruct (multiplierInterval w); reflexivity. }
  split; [|split; [|split]].
  - destruct (Qgeb m (GameRound.crashPoint r)) eqn:G.
    + rewrite (Hcrash eq_refl). exact C3.
    + rewrite (Hstay eq_refl). reflexivity.
  - intros Hge.
    assert (G : Qgeb m (GameRound.crashPoint r) = true)
      by (unfold Qgeb; apply Qle_bool_iff; exact Hge).
    rewrite (Hcrash G). unfold phase. rewrite C1, C2, C4, C4', C5, C6.
    repeat split.
  - intros Hlt.
    assert (G : Qgeb m (GameRound.crashPoint r) = false).
    { unfold Qgeb. destruct (Qle_bool (GameRound.crashPoint r) m) eqn:L;
        [|reflexivity].
      apply Qle_bool_iff in L. exfalso. eapply Qlt_not_le; eassumption. }
    rewrite (Hstay G). unfold phase. cbn. rewrite Hst, A. repeat split.
  - destruct (Qgeb m (GameRound.crashPoint r)) eqn:G.
    + rewrite (Hcrash eq_refl), C1. eexists. split; [reflexivity|].
      exact Hmax.
    + rewrite (Hstay eq_refl). cbn. eexists. split; [reflexivity|].
      exact Hmax.
Qed.

(** X5.  One tick of a running round started at [t0], on doubles, its
    handler run to completion with no other handler in between.  The
    multiplier becomes [1 + (now - t0) / 1000 * 0.1], each operation
    rounded.  If that has reached the crash point, the tick crashes the
    round: it clears the flag and the interval, schedules the next round and
    announces the crash with that multiplier as [finalMultiplier].
    Otherwise the round stays active, the timers are untouched and the
    multiplier is announced rounded to two digits.  Either way the highest
    multiplier recorded on the round is not below the multiplier shown. *)
Theorem tick_outcome (w : World) (now t0 : Z) (r : Round) :
  currentRound w = Some r -> isGameActive w = true ->
  GameRound.status r = active -> gameStartTime w = Some t0 ->
  (Z.abs (now - t0) < 2 ^ 53)%Z ->
  let fl := Binary64.binary64 in
  let m := fl (1 + fl (fl (inject_Z (now - t0) / 1000) * fl (1 # 10))) in
  let w' := updateMultiplier_rounded fl w now in
  currentMultiplier w' = m
  /\ (GameRound.crashPoint r <= m ->
      phase w' = Some crashed
      /\ isGameActive w' = false
      /\ intervals w' = intervals (stop w)
      /\ timeouts w' = (timeouts w ++ [TStartNewRound])%list
      /\ emitted w'
         = (emitted w
            ++ [ ("round:crashed"%string,
                  [ ("roundId"%string, VStr (GameRound.roundId r));
                    ("crashPoint"%string, VNum (GameRound.crashPoint r));
                    ("finalMultiplier"%string, VNum m) ]) ])%list)
  /\ (m < GameRound.crashPoint r ->
      phase w' = Some active
      /\ isGameActive w' = true
      /\ intervals w' = intervals w /\ timeouts w' = timeouts w
      /\ emitted w'
         = (emitted w
            ++ [ ("multiplier:update"%string,
                  [ ("roundId"%string, VStr (GameRound.roundId r));
                    ("multiplier"%string,
                     VNum (fl (toFixed m 2))) ]) ])%list)
  /\ (exists r', currentRound w' = Some r'
                 /\ m <= GameRound.maxMultiplier r').
Proof.
  intros R A Hst T _ fl m.
  apply (updateMultiplier_rounded_outcome fl w now r m R A Hst).
  unfold multiplier_at_rounded. rewrite T. reflexivity.
Qed.

Lemma tick_outcome_witness :
  let fl := Binary64.binary64 in
  let m := fl (1 + fl (fl (inject_Z (18000 - 3000) / 1000) * fl (1 # 10))) in
  let w' := updateMultiplier_rounded fl running 18000 in
  currentMultiplier w' = m
  /\ phase w' = Some crashed
  /\ emitted w'
     = (emitted running
        ++ [ ("round:crashed"%string,
              [ ("roundId"%string, VStr "round_1");
                ("crashPoint"%string, VNum (25 # 10));
                ("finalMultiplier"%string, VNum m) ]) ])%list.
Proof.
  destruct (tick_outcome running 18000 3000 running_round
              eq_refl eq_refl eq_refl eq_refl) as (Hm & Hc & _).
  - lia.
  - destruct Hc as (H1 & _ & _ & _ & H5); [vm_compute; discriminate|].
    split; [exact Hm|]. split; [exact H1 | exact H5].
Defined.





(** With exact arithmetic [cashOut_rounded] is [cashOut]. *)
Lemma cashOut_rounded_exact (w : World) (pid : string) (rand : Rand) :
  cashOut_rounded (fun x => x) w pid rand = cashOut w pid rand.
Proof. reflexivity. Qed.

(** What [cashOut] on doubles returns and writes when it finds the bet and
    the player. *)
Lemma cashOut_rounded_paid (fl : Q -> Q) (w : World) (pid : string)
    (rand : Rand) (r : Round) (bet : Bet.t) (p : Player.t) :
  currentRound w = Some r -> isGameActive w = true ->
  find (unsettled pid) (GameRound.bets r) = Some bet ->
  document w pid = Some p ->
  let m := currentMultiplier w in
  let c := Bet.cryptocurrency bet in
  let cryptoPayout := fl (Bet.cryptoAmount bet * m) in
  let usdPayout := fl (cryptoPayout * Bet.priceAtTime bet) in
  let wallet' :=
    Wallet.set (Player.wallet p) c
      (fl (Wallet.get (Player.wallet p) c + cryptoPayout)) in
  let out := cashOut_rounded fl w pid rand in
  snd out = Ok (mkCashOut m (Payout.mk cryptoPayout usdPayout))
  /\ document (fst out) pid
     = Some (Player.mk (Player.playerId p) (Player.username p) wallet'
               (Player.totalGamesPlayed p + 1)
               (fl (Player.totalWon p + fl (usdPayout - Bet.usdAmount bet)))
               (Player.totalLost p))
  /\ (forall q, q <> pid -> document (fst out) q = document w q)
  /\ transactions (fst out)
     = (transactions w
        ++ [ Transaction.mk (txId rand) pid (GameRound.roundId r) tx_cashout
               usdPayout cryptoPayout c (Bet.priceAtTime bet) (txHash rand)
               (Some m) wallet' ])%list
  /\ currentRound (fst out)
     = Some (set_bets r
               (mark_first pid m (Payout.mk cryptoPayout usdPayout)
                  (GameRound.bets r)))
  /\ isGameActive (fst out) = true.
Proof.
  intros R A F P m c cryptoPayout usdPayout wallet' out. subst out.
  unfold cashOut_rounded, document in *. rewrite R, A. cbn [negb]. rewrite F.
  cbn [players set_currentRound]. rewrite P. cbn [fst snd].
  pose proof (findOne_playerId _ _ _ P) as Hid.
  fold m. fold c. fold cryptoPayout. fold usdPayout. fold wallet'.
  unfold updatePlayerStats_rounded, logTransaction.
  cbn [players set_players add_transaction emit transactions currentRound
       set_currentRound isGameActive].
  rewrite (findOne_save_same _ pid p); [|exact P|exact Hid].
  cbn [Player.playerId Player.username Player.wallet Player.totalGamesPlayed
       Player.totalWon Player.totalLost players set_players currentRound
       transactions isGameActive].
  split; [reflexivity|]. split.
  { apply (findOne_save_same _ pid
             (Player.mk (Player.playerId p) (Player.username p) wallet'
                (Player.totalGamesPlayed p) (Player.totalWon p)
                (Player.totalLost p))).
    - apply (findOne_save_same _ pid p); [exact P | exact Hid].
    - exact Hid. }
  split; [|split; [reflexivity | split; [reflexivity | exact A]]].
  intros q Hq. rewrite !findOne_save_other; [reflexivity | |]; cbn; congruence.
Qed.

(** X9.  A [cashOut] on doubles that runs to completion on its own (no other
    handler writes the player between its awaits), in a running round, by a
    player with a stored document and an open bet, when no operation
    overflows and neither the balance to save nor the price of the bet is
    negative (the schemas refuse to save a negative one).  It returns the multiplier shown and the payout: the crypto
    amount of the bet times the multiplier, and the value of that at the
    price of the bet, each rounded.  It credits the wallet in the currency
    of the bet with the crypto payout, counts one game played and adds the
    USD profit to [totalWon]; it writes one [cashout] transaction that
    carries the payout, the multiplier and the wallet as saved; and it
    leaves every other player as stored. *)
Theorem cashOut_credit (w : World) (pid : string) (rand : Rand) (r : Round)
    (bet : Bet.t) (p : Player.t) :
  currentRound w = Some r -> isGameActive w = true ->
  find (unsettled pid) (GameRound.bets r) = Some bet ->
  document w pid = Some p ->
  let fl := Binary64.binary64 in
  let m := currentMultiplier w in
  let c := Bet.cryptocurrency bet in
  let cryptoPayout := fl (Bet.cryptoAmount bet * m) in
  let usdPayout := fl (cryptoPayout * Bet.priceAtTime bet) in
  let profit := fl (usdPayout - Bet.usdAmount bet) in
  let wallet' :=
    Wallet.set (Player.wallet p) c
      (fl (Wallet.get (Player.wallet p) c + cryptoPayout)) in
  Forall Binary64.in_range
    [ Bet.cryptoAmount bet * m; cryptoPayout * Bet.priceAtTime bet;
      Wallet.get (Player.wallet p) c + cryptoPayout;
      usdPayout - Bet.usdAmount bet; Player.totalWon p + profit ] ->
  0 <= Wallet.get (Player.wallet p) c + cryptoPayout ->
  0 <= Bet.priceAtTime bet ->
  let out := cashOut_rounded fl w pid rand in
  snd out = Ok (mkCashOut m (Payout.mk cryptoPayout usdPayout))
  /\ document (fst out) pid
     = Some (Player.mk (Player.playerId p) (Player.username p) wallet'
               (Player.totalGamesPlayed p + 1)
               (fl (Player.totalWon p + profit)) (Player.totalLost p))
  /\ (forall q, q <> pid -> document (fst out) q = document w q)
  /\ transactions (fst out)
     = (transactions w
        ++ [ Transaction.mk (txId rand) pid (GameRound.roundId r) tx_cashout
               usdPayout cryptoPayout c (Bet.priceAtTime bet) (txHash rand)
               (Some m) wallet' ])%list.
Proof.
  intros R A F P fl m c cryptoPayout usdPayout profit wallet' _ _ _ out.
  destruct (cashOut_rounded_paid fl w pid rand r bet p R A F P)
    as (H1 & H2 & H3 & H4 & _).
  split; [exact H1|]. split; [exact H2|]. split; [exact H3 | exact H4].
Qed.

Lemma cashOut_credit_witness :
  let fl := Binary64.binary64 in
  let bet := Bet.mk "alice" 50 (50 / 50000) BTC 50000 false None None "h1" in
  let m := currentMultiplier running in
  let cryptoPayout := fl (Bet.cryptoAmount bet * m) in
  let usdPayout := fl (cryptoPayout * Bet.priceAtTime bet) in
  let profit := fl (usdPayout - Bet.usdAmount bet) in
  let wallet' :=
    Wallet.set (Player.wallet alice_after_bets) BTC
      (fl (Wallet.get (Player.wallet alice_after_bets) BTC + cryptoPayout)) in
  let out := cashOut_rounded fl running "alice" (mkRand "h3" "t3") in
  snd out = Ok (mkCashOut m (Payout.mk cryptoPayout usdPayout))
  /\ document (fst out) "alice"
     = Some (Player.mk "alice" "Alice" wallet' (0 + 1)
               (fl (0 + profit)) 0)
  /\ (forall q, q <> "alice"%string ->
        document (fst out) q = document running q)
  /\ transactions (fst out)
     = (transactions running
        ++ [ Transaction.mk "t3" "alice" "round_1" tx_cashout
               usdPayout cryptoPayout BTC 50000 "h3" (Some m) wallet' ])%list.
Proof.
  apply (cashOut_credit running "alice" (mkRand "h3" "t3") running_round
           (Bet.mk "alice" 50 (50 / 50000) BTC 50000 false None None "h1")
           alice_after_bets).
  - reflexivity.
  - reflexivity.
  - reflexivity.
  - reflexivity.
  - repeat constructor; vm_compute; reflexivity.
  - vm_compute. discriminate.
  - vm_compute. discriminate.
Defined.

Lemma frozen_step (w : World) (m : Q) (a : Action) :
  frozen w m -> frozen (step w a) m.
Proof.
  intros (A & M & T & I & r & R & Hst).
  destruct a as [now | d now | now | pid usd c now feed rand
                 | pid rand | | doc pid usd c price rand
                 | bet wallet' rand]; cbn [step].
  - unfold pending. rewrite T. cbn. unfold frozen. eauto 10.
  - unfold pending. rewrite T. cbn. unfold frozen. eauto 10.
  - rewrite I. unfold frozen. eauto 10.
  - unfold placeBet. rewrite R, Hst. cbn. unfold frozen. eauto 10.
  - unfold cashOut. rewrite R, A. cbn [negb].
    destruct (find _ _) as [bet|]; [|cbn; unfold frozen; eauto 10].
    cbn [players set_currentRound].
    destruct (Player.findOne (players w) pid) as [p|]; cbn [fst].
    + match goal with
      | |- context [emit (updatePlayerStats ?x ?a ?b ?c) _ _] =>
          destruct (updatePlayerStats_frame x a b c) as [db ->]
      end.
      unfold frozen. cbn. repeat split; try assumption.
      eexists. split; [reflexivity | exact Hst].
    + unfold frozen. cbn. repeat split; try assumption.
      eexists. split; [reflexivity | exact Hst].
  - unfold stop. destruct (multiplierInterval w) as [h|];
      unfold frozen; cbn; rewrite ?I; cbn; eauto 10.
  - unfold placeBet_debit_stage.
    destruct doc as [p|]; [destruct (Qltb _ _)|]; cbn;
      unfold frozen; cbn; eauto 10.
  - unfold placeBet_record_stage. rewrite R. unfold frozen. cbn.
    repeat split; try assumption.
    eexists. split; [reflexivity | exact Hst].
Qed.

Lemma timers_ok_run (acts : list Action) :
  Forall valid_action acts ->
  forall w, round_ok w -> timers_ok w -> timers_ok (run w acts).
Proof.
  induction 1 as [|a acts Ha Hacts IH]; intros w H T; [exact T|].
  cbn [run fold_left]. apply (IH (step w a)).
  - apply round_ok_step; assumption.
  - apply timers_ok_step; assumption.
Qed.

Lemma frozen_run (m : Q) (acts : list Action) :
  forall w, frozen w m -> frozen (run w acts) m.
Proof.
  induction acts as [|a acts IH]; intros w H; [exact H|].
  cbn [run fold_left]. apply (IH (step w a)), frozen_step, H.
Qed.

(** X7.  [stop()] while the tick interval is running freezes the round, in
    every execution of a started engine whose rounds are drawn with a crash
    point above 1.  The interval is cleared and nothing else is: the round
    stays active and the multiplier stays where it was, whatever handlers
    are started afterwards.  No tick and no timeout is left to crash the
    round, bets are refused, and every cash-out that then succeeds is paid
    at the frozen multiplier. *)
Theorem stop_while_active_freezes (cacheTimeout : Z) (db : list Player.t)
    (d : Draw) (now : Z) (before after : list Action) :
  valid_draw d -> Forall valid_action before ->
  let w := run (start (create cacheTimeout db) d now) before in
  intervals w <> [] ->
  let w' := run (stop w) after in
  phase w' = Some active
  /\ currentMultiplier w' = currentMultiplier w
  /\ timeouts w' = [] /\ intervals w' = []
  /\ (forall pid usd c t feed rand,
        snd (placeBet w' pid usd c t feed rand) = Err BettingClosed)
  /\ (forall pid rand w'' res,
        cashOut w' pid rand = (w'', Ok res) ->
        res_multiplier res = currentMultiplier w).
Proof.
  intros Hd Hb w Hi w'.
  assert (H : round_ok w)
    by (apply round_ok_run; [apply round_ok_start, Hd | exact Hb]).
  assert (T : timers_ok w).
  { apply timers_ok_run; [exact Hb | apply round_ok_start, Hd | exact I]. }
  assert (F : frozen w' (currentMultiplier w)).
  { apply frozen_run. unfold round_ok in H. unfold timers_ok in T.
    destruct (intervals w) as [|h [|h' l]] eqn:I;
      [contradiction| |contradiction].
    destruct T as [Hh A].
    destruct (currentRound w) as [r|] eqn:R;
      [|destruct H as [H _]; congruence].
    destruct H as (_ & _ & Hp). rewrite A in Hp.
    destruct Hp as (Hst & _ & Ht).
    unfold frozen, stop. rewrite Hh. cbn. rewrite I. cbn.
    rewrite Nat.eqb_refl. cbn. repeat split; eauto. }
  destruct F as (A & M & Ti & I & r & R & Hst).
  unfold phase. rewrite R. cbn. rewrite Hst.
  repeat split; try assumption.
  - intros pid usd c t feed rand. unfold placeBet. rewrite R, Hst.
    reflexivity.
  - intros pid rand w'' res Hok.
    destruct (cashOut_accepted w' w'' pid rand res Hok)
      as (_ & _ & _ & _ & _ & Hm & _).
    rewrite Hm. exact M.
Qed.

Lemma stop_while_active_freezes_witness :
  let w := run (start (create 10000 [alice]) round1 0)
             [ DoPlaceBet "alice" 50 BTC 5 btc_50000 (mkRand "h1" "t1");
               FireStartGamePhase 3000; Tick 6000 ] in
  let w' := run (stop w)
              [ Tick 18000; FireStartNewRound round2 21000;
                DoCashOut "alice" (mkRand "h3" "t3"); Tick 30000 ] in
  phase w' = Some active
  /\ currentMultiplier w' = currentMultiplier w
  /\ timeouts w' = [] /\ intervals w' = []
  /\ (forall pid usd c t feed rand,
        snd (placeBet w' pid usd c t feed rand) = Err BettingClosed)
  /\ (forall pid rand w'' res,
        cashOut w' pid rand = (w'', Ok res) ->
        res_multiplier res = currentMultiplier w).
Proof.
  apply (stop_while_active_freezes 10000 [alice] round1 0
           [ DoPlaceBet "alice" 50 BTC 5 btc_50000 (mkRand "h1" "t1");
             FireStartGamePhase 3000; Tick 6000 ]
           [ Tick 18000; FireStartNewRound round2 21000;
             DoCashOut "alice" (mkRand "h3" "t3"); Tick 30000 ]).
  - reflexivity.
  - repeat constructor.
  - vm_compute. discriminate.
Defined.

End Settlement.

(* ===================================================================== *)
(** ** The price cache *)

Section PriceCache.
Import CryptoService.
Local Open Scope Z_scope.

Lemma supported_mapping (k : string) :
  In k getSupportedCryptos <-> cryptoMapping k <> None.
Proof.
  unfold getSupportedCryptos, cryptoMapping. split.
  - intros [<- | [<- | [<- | []]]]; discriminate.
  - destruct (String.eqb_spec k "BTC") as [-> | _]; [simpl; auto|].
    destruct (String.eqb_spec k "ETH") as [-> | _]; [simpl; auto|].
    destruct (String.eqb_spec k "USDT") as [-> | _]; [simpl; auto|].
    congruence.
Qed.

Lemma supported_upper (k : string) :
  In k getSupportedCryptos -> toUpperCase k = k.
Proof. intros [<- | [<- | [<- | []]]]; reflexivity. Qed.

Lemma cache_set_keys (m : PriceCache) (k : string) (e : CacheEntry) :
  map fst (cache_set m k e)
  = if existsb (String.eqb k) (map fst m) then map fst m
    else (map fst m ++ [k])%list.
Proof.
  induction m as [|[k0 e0] m IH]; simpl; [reflexivity|].
  rewrite (String.eqb_sym k k0).
  destruct (String.eqb_spec k0 k) as [-> | N]; simpl; [reflexivity|].
  rewrite IH. destruct (existsb _ _); reflexivity.
Qed.

Lemma keys_ok_set (m : PriceCache) (k : string) (e : CacheEntry) :
  keys_ok m -> In k getSupportedCryptos -> keys_ok (cache_set m k e).
Proof.
  intros [Hn Hs] Hk. unfold keys_ok. rewrite cache_set_keys.
  destruct (existsb (String.eqb k) (map fst m)) eqn:X; [split; assumption|].
  split.
  - apply NoDup_app; [exact Hn | repeat constructor; auto |].
    intros x Hx [E | []]. subst x.
    assert (existsb (String.eqb k) (map fst m) = true); [|congruence].
    apply existsb_exists. exists k. split; [exact Hx | apply String.eqb_refl].
  - apply Forall_app. split; [exact Hs|].
    constructor; [exact Hk | constructor].
Qed.

Lemma getPrice_keys_ok (cs : t) (now : Z) (s : string) (feed : Feed) :
  keys_ok (priceCache cs) ->
  keys_ok (priceCache (fst (run_call (getPrice cs now s) feed)))
  /\ cacheTimeout (fst (run_call (getPrice cs now s) feed)) = cacheTimeout cs.
Proof.
  intros Hm.
  assert (Hmiss :
    keys_ok (priceCache (fst (run_call (getPrice_miss cs now s) feed)))
    /\ cacheTimeout (fst (run_call (getPrice_miss cs now s) feed))
       = cacheTimeout cs).
  { unfold getPrice_miss.
    destruct (String.eqb_spec (toUpperCase s) "USDT") as [E | N].
    - simpl. split; [|reflexivity]. apply keys_ok_set; [exact Hm|].
      rewrite E. simpl. auto.
    - destruct (cryptoMapping (toUpperCase s)) eqn:Mp; simpl;
        [| rewrite getPrice_catch_service; auto].
      destruct (response feed) as [|[usd|]];
        try (rewrite getPrice_catch_service; auto).
      destruct (falsy usd); [rewrite getPrice_catch_service; auto|].
      simpl. split; [|reflexivity]. apply keys_ok_set; [exact Hm|].
      apply supported_mapping. congruence. }
  unfold getPrice.
  destruct (cache_get (priceCache cs) (toUpperCase s)) as [c|];
    [destruct (fresh cs now c)|]; try exact Hmiss.
  simpl. auto.
Qed.

Lemma serve_keys_ok (reqs : list Request) :
  forall cs, keys_ok (priceCache cs) ->
             keys_ok (priceCache (serve cs reqs))
             /\ cacheTimeout (serve cs reqs) = cacheTimeout cs.
Proof.
  induction reqs as [|rq reqs IH]; intros cs Hm; simpl; [auto|].
  destruct (getPrice_keys_ok cs (at_time rq) (symbol rq) (answer rq) Hm)
    as [Hk Ht].
  destruct (IH _ Hk) as [Hk' Ht']. split; [exact Hk' | congruence].
Qed.

Lemma keys_ok_create (timeout : Z) : keys_ok (priceCache (create timeout)).
Proof. split; constructor. Qed.

Lemma cache_get_keys (m : PriceCache) (k : string) (e : CacheEntry) :
  cache_get m k = Some e -> In k (map fst m).
Proof.
  induction m as [|[k0 e0] m IH]; simpl; [discriminate|].
  destruct (String.eqb_spec k0 k); auto.
Qed.

Lemma cache_get_In (m : PriceCache) (k : string) (e : CacheEntry) :
  NoDup (map fst m) -> In (k, e) m -> cache_get m k = Some e.
Proof.
  induction m as [|[k0 e0] m IH]; simpl; [contradiction|].
  intros Hn [[= -> ->] | Hin].
  - rewrite String.eqb_refl. reflexivity.
  - inversion Hn as [|? ? Hk0 Hn']; subst.
    destruct (String.eqb_spec k0 k) as [-> | N]; [|auto].
    exfalso. apply Hk0. apply (in_map fst) in Hin. exact Hin.
Qed.

(** X13.  A price fetched from the API is served from the cache, without a
    request and whatever the case of the symbol, for [cacheTimeout]
    milliseconds after the response settled; from then on a call asks the
    API again. *)
Theorem getPrice_cache_window (cs : t) (now : Z) (s coinId : string)
    (feed : Feed) (p : Q) :
  cryptoMapping (toUpperCase s) = Some coinId ->
  toUpperCase s <> "USDT"%string ->
  match cache_get (priceCache cs) (toUpperCase s) with
  | Some cached => fresh cs now cached = false
  | None => True
  end ->
  response feed = ApiData (Some p) -> falsy p = false ->
  let cs' := fst (run_call (getPrice cs now s) feed) in
  snd (run_call (getPrice cs now s) feed) = Ok p
  /\ forall later s',
       toUpperCase s' = toUpperCase s ->
       (later - settledAt feed < cacheTimeout cs ->
        getPrice cs' later s' = Done (cs', Ok p))
       /\ (cacheTimeout cs <= later - settledAt feed ->
           exists k, getPrice cs' later s' = Get coinId k).
Proof.
  intros Mp Nu Stale Hr Hp cs'.
  assert (E : run_call (getPrice cs now s) feed
              = (mk (cache_set (priceCache cs) (toUpperCase s)
                       (mkEntry p (settledAt feed)))
                    (cacheTimeout cs), Ok p)).
  { assert (Hmiss : run_call (getPrice_miss cs now s) feed
                    = (mk (cache_set (priceCache cs) (toUpperCase s)
                             (mkEntry p (settledAt feed)))
                          (cacheTimeout cs), Ok p)).
    { unfold getPrice_miss.
      destruct (String.eqb_spec (toUpperCase s) "USDT"); [contradiction|].
      rewrite Mp. simpl. rewrite Hr, Hp. reflexivity. }
    unfold getPrice.
    destruct (cache_get (priceCache cs) (toUpperCase s)) as [c|];
      [rewrite Stale|]; exact Hmiss. }
  subst cs'. rewrite E. cbn [fst snd]. split; [reflexivity|].
  intros later s' Hs. unfold getPrice. cbn [priceCache cacheTimeout].
  rewrite Hs, cache_get_set, String.eqb_refl.
  unfold fresh. cbn [timestamp price cacheTimeout]. split; intros H.
  - apply Z.ltb_lt in H. rewrite H. reflexivity.
  - apply Z.ltb_ge in H. rewrite H. unfold getPrice_miss. rewrite Hs.
    destruct (String.eqb_spec (toUpperCase s) "USDT"); [contradiction|].
    rewrite Mp. eexists. reflexivity.
Qed.

Lemma getPrice_cache_window_witness :
  let cs := create 10000 in
  let cs' := fst (run_call (getPrice cs 5 "btc") GameManager.btc_50000) in
  snd (run_call (getPrice cs 5 "btc") GameManager.btc_50000)
  = Ok (50000 : Q)
  /\ forall later s',
       toUpperCase s' = toUpperCase "btc" ->
       (later - 10 < 10000 ->
        getPrice cs' later s' = Done (cs', Ok (50000 : Q)))
       /\ (10000 <= later - 10 ->
           exists k, getPrice cs' later s' = Get "bitcoin" k).
Proof.
  apply (getPrice_cache_window (create 10000) 5 "btc" "bitcoin"
           GameManager.btc_50000 50000); try reflexivity.
  discriminate.
Defined.

Lemma getPrice_refused (cs : t) (now : Z) (s : string) :
  keys_ok (priceCache cs) -> cryptoMapping (toUpperCase s) = None ->
  getPrice cs now s = Done (cs, Err ("Unable to get price for " ++ s)%string).
Proof.
  intros [_ Hs] Mp.
  assert (G : cache_get (priceCache cs) (toUpperCase s) = None).
  { destruct (cache_get (priceCache cs) (toUpperCase s)) as [e|] eqn:G;
      [|reflexivity].
    apply cache_get_keys in G. rewrite Forall_forall in Hs.
    apply Hs, supported_mapping in G. contradiction. }
  assert (F : fallbackPrices (toUpperCase s) = None).
  { unfold cryptoMapping in Mp. unfold fallbackPrices.
    destruct (String.eqb (toUpperCase s) "BTC"); [discriminate|].
    destruct (String.eqb (toUpperCase s) "ETH"); [discriminate|].
    destruct (String.eqb (toUpperCase s) "USDT"); [discriminate|].
    reflexivity. }
  unfold getPrice. rewrite G. unfold getPrice_miss.
  destruct (String.eqb_spec (toUpperCase s) "USDT") as [E | _].
  { rewrite E in Mp. discriminate. }
  rewrite Mp. unfold getPrice_catch. rewrite G, F. reflexivity.
Qed.

(** Upper case is the one of JavaScript: a long s reads [S], a sharp s
    reads [SS], a ligature reads its letters. *)
Lemma toUpperCase_beyond_ascii :
  toUpperCase "uſdt" = "USDT"%string
  /\ toUpperCase "groß" = "GROSS"%string
  /\ toUpperCase "ﬁat" = "FIAT"%string
  /\ toUpperCase "ıota" = "IOTA"%string.
Proof. repeat split. Qed.

(** X14.  A symbol whose upper case is none of BTC, ETH and USDT is refused
    without a request and without a change of the service, whatever calls
    went before; the error that reaches the caller is the one of the [catch]
    block, "Unable to get price for", not "Unsupported cryptocurrency". *)
Theorem getPrice_unsupported (timeout : Z) (reqs : list Request) (now : Z)
    (s : string) :
  cryptoMapping (toUpperCase s) = None ->
  let cs := serve (create timeout) reqs in
  getPrice cs now s = Done (cs, Err ("Unable to get price for " ++ s)%string)
  /\ forall feed, serve cs [mkRequest now s feed] = cs.
Proof.
  intros Mp cs.
  destruct (serve_keys_ok reqs (create timeout) (keys_ok_create timeout))
    as [Hk _]. fold cs in Hk.
  pose proof (getPrice_refused cs now s Hk Mp) as E.
  split; [exact E|]. intros feed. unfold serve. cbn. rewrite E. reflexivity.
Qed.

Lemma getPrice_unsupported_witness :
  let cs := serve (create 10000)
              [mkRequest 5 "btc" GameManager.btc_50000] in
  getPrice cs 20 "doge"
  = Done (cs, Err ("Unable to get price for " ++ "doge")%string)
  /\ forall feed, serve cs [mkRequest 20 "doge" feed] = cs.
Proof.
  apply (getPrice_unsupported 10000
           [mkRequest 5 "btc" GameManager.btc_50000] 20 "doge").
  reflexivity.
Defined.

(** X15.  [getCacheStats] of a service, whatever calls it has served: [size] is
    the number of entries and is at most three; the entries are distinct
    supported symbols; an entry is reported expired exactly when it is older
    than [cacheTimeout]; an entry younger than [cacheTimeout] is what
    [getPrice] returns, without a request; and an entry of BTC or ETH whose
    age is [cacheTimeout] or more, the one of exactly [cacheTimeout] not
    reported expired among them, makes [getPrice] ask the API. *)
Theorem getCacheStats_reachable (timeout : Z) (reqs : list Request)
    (now : Z) :
  let cs := serve (create timeout) reqs in
  let stats := getCacheStats cs now in
  fst stats = List.length (snd stats)
  /\ (fst stats <= 3)%nat
  /\ NoDup (map crypto (snd stats))
  /\ forall st,
       In st (snd stats) ->
       In (crypto st) getSupportedCryptos
       /\ (expired st = true <-> timeout < age st)
       /\ (age st < timeout ->
           getPrice cs now (crypto st) = Done (cs, Ok (stat_price st)))
       /\ (timeout <= age st -> crypto st <> "USDT"%string ->
           exists coinId k, getPrice cs now (crypto st) = Get coinId k).
Proof.
  intros cs stats.
  destruct (serve_keys_ok reqs (create timeout) (keys_ok_create timeout))
    as [[Hn Hs] Ht]. fold cs in Hn, Hs, Ht. cbn in Ht.
  subst stats. unfold getCacheStats. cbn [fst snd].
  assert (Hk : map crypto
                 (map (fun entry : string * CacheEntry =>
                         let (crypto, data) := entry in
                         mkStat crypto (price data) (now - timestamp data)
                           (cacheTimeout cs <? now - timestamp data))
                      (priceCache cs))
               = map fst (priceCache cs)).
  { rewrite map_map. apply map_ext. intros [k e]. reflexivity. }
  split; [rewrite length_map; reflexivity|]. split.
  { rewrite <- (length_map fst).
    apply (NoDup_incl_length Hn (l' := getSupportedCryptos)).
    intros k Hin. rewrite Forall_forall in Hs. apply Hs, Hin. }
  split; [rewrite Hk; exact Hn|].
  intros st Hin. apply in_map_iff in Hin. destruct Hin as ([k e] & <- & Hin).
  cbn [crypto age expired stat_price].
  assert (Sk : In k getSupportedCryptos).
  { rewrite Forall_forall in Hs. apply Hs.
    apply (in_map fst) in Hin. exact Hin. }
  pose proof (cache_get_In _ _ _ Hn Hin) as G.
  rewrite Ht. split; [exact Sk|]. split; [apply Z.ltb_lt|].
  unfold getPrice. rewrite (supported_upper k Sk), G. unfold fresh.
  rewrite Ht. split; intros H.
  - apply Z.ltb_lt in H. rewrite H. reflexivity.
  - intros Nu. apply Z.ltb_ge in H. rewrite H. unfold getPrice_miss.
    rewrite (supported_upper k Sk).
    destruct (String.eqb_spec k "USDT"); [contradiction|].
    apply supported_mapping in Sk.
    destruct (cryptoMapping k) as [coinId|]; [|contradiction].
    eexists _, _. reflexivity.
Qed.







(** X17.  [clearCache] forgets every price and keeps the timeout: the statistics
    are empty, the next [getPrice] of BTC or ETH asks the API, and if that
    request fails the price returned is the built-in fallback, not the last
    price known before the cache was cleared; USDT is answered by 1. *)
Theorem clearCache_forgets (cs : t) (now : Z) (s : string) (c : Currency)
    (feed : Feed) :
  toUpperCase s = currency_name c ->
  let cs' := clearCache cs in
  cacheTimeout cs' = cacheTimeout cs
  /\ getCacheStats cs' now = (O, [])
  /\ (c <> USDT ->
      (exists coinId k, getPrice cs' now s = Get coinId k)
      /\ (response feed = ApiFailed ->
          run_call (getPrice cs' now s) feed
          = (cs', Ok match c with
                     | BTC => 45000
                     | ETH => 3000
                     | USDT => 1
                     end%Q)))
  /\ (c = USDT -> snd (run_call (getPrice cs' now s) feed) = Ok 1%Q).
Proof.
  intros E cs'. subst cs'. unfold clearCache.
  split; [reflexivity|]. split; [reflexivity|].
  unfold getPrice, getPrice_miss. cbn [priceCache cache_get]. rewrite E.
  split.
  - intros N. destruct c; try contradiction; cbn; split;
      try (eexists _, _; reflexivity);
      intros ->; unfold getPrice_catch; rewrite E; reflexivity.
  - intros ->. reflexivity.
Qed.

Lemma clearCache_forgets_witness :
  let cs := serve (create 10000) [mkRequest 5 "btc" GameManager.btc_50000] in
  let feed := mkFeed ApiFailed 30 in
  let cs' := clearCache cs in
  cacheTimeout cs' = cacheTimeout cs
  /\ getCacheStats cs' 20 = (O, [])
  /\ (BTC <> USDT ->
      (exists coinId k, getPrice cs' 20 "Btc" = Get coinId k)
      /\ (response feed = ApiFailed ->
          run_call (getPrice cs' 20 "Btc") feed = (cs', Ok 45000%Q)))
  /\ (BTC = USDT -> snd (run_call (getPrice cs' 20 "Btc") feed) = Ok 1%Q).
Proof.
  apply (clearCache_forgets
           (serve (create 10000) [mkRequest 5 "btc" GameManager.btc_50000])
           20 "Btc" BTC (mkFeed ApiFailed 30)).
  reflexivity.
Defined.

End PriceCache.

(* ===================================================================== *)
(** ** Bets over the socket *)

Section Sockets.
Import GameManager WebSocketHandler.
Local Open Scope Q_scope.

Lemma currency_of_name (s : string) (c : Currency) :
  currency_of s = Some c -> s = currency_name c.
Proof.
  unfold currency_of.
  destruct (String.eqb_spec s "BTC") as [-> | _]; [intros [= <-]; auto|].
  destruct (String.eqb_spec s "ETH") as [-> | _]; [intros [= <-]; auto|].
  destruct (String.eqb_spec s "USDT") as [-> | _]; [intros [= <-]; auto|].
  discriminate.
Qed.


(** The same for the call on doubles. *)
Lemma placeBet_rounded_returned (fl : Q -> Q) (w w' : World) (pid : string)
    (usd : Q) (c : Currency) (now : Z) (feed : CryptoService.Feed)
    (rand : Rand) (bet : Bet.t) :
  placeBet_rounded fl w pid usd c now feed rand = (w', Ok bet) ->
  phase w = Some waiting
  /\ exists cs price p,
       CryptoService.run_call
         (CryptoService.getPrice (cryptoService w) now (currency_name c))
         feed = (cs, Ok price)
       /\ document w pid = Some p
       /\ fl (usd / price) <= Wallet.get (Player.wallet p) c
       /\ bet = Bet.mk pid usd (fl (usd / price)) c price false None None
                  (txHash rand)
       /\ balance w' pid c
          = Some (fl (Wallet.get (Player.wallet p) c - fl (usd / price))).
Proof.
  unfold placeBet_rounded, phase, document, balance.
  destruct (currentRound w) as [r|] eqn:R; [|discriminate].
  destruct (GameRound.status r) eqn:St; cbn [Status_eqb negb];
    try discriminate.
  destruct (CryptoService.run_call _ _) as [cs [price | msg]] eqn:G;
    [|discriminate].
  cbn [players set_cryptoService].
  destruct (Player.findOne (players w) pid) as [p|] eqn:F; [|discriminate].
  destruct (Qltb _ _) eqn:L; [discriminate|].
  intros [= <- <-]. cbn [option_map]. split; [rewrite St; reflexivity|].
  exists cs, price, p. repeat split.
  - apply Qltb_false, L.
  - cbn [players emit logTransaction add_transaction set_currentRound
         set_players set_cryptoService].
    erewrite findOne_save_same;
      [| exact F | exact (findOne_playerId _ _ _ F)].
    cbn [option_map Player.wallet]. rewrite Wallet_get_set.
    destruct c; reflexivity.
Qed.

Lemma placeBet_rounded_rejected (fl : Q -> Q) (w : World) (playerId : string)
    (usdAmount : Q) (c : Currency) (now : Z) (feed : CryptoService.Feed)
    (rand : Rand) (e : Error) :
  snd (placeBet_rounded fl w playerId usdAmount c now feed rand) = Err e ->
  players (fst (placeBet_rounded fl w playerId usdAmount c now feed rand))
  = players w
  /\ round_bets
       (fst (placeBet_rounded fl w playerId usdAmount c now feed rand))
     = round_bets w.
Proof.
  unfold placeBet_rounded, round_bets.
  destruct (currentRound w) as [r|] eqn:R; [|simpl; rewrite R; auto].
  destruct (negb _); [simpl; rewrite R; auto|].
  destruct (CryptoService.run_call _ _) as [cs [price | msg]]; simpl;
    [|rewrite R; auto].
  destruct (Player.findOne _ _) as [p|]; simpl; [|rewrite R; auto].
  destruct (Qltb _ _); simpl; [rewrite R; auto | discriminate].
Qed.

(** X18.  A ['game:bet'] message whose [usdAmount] is a number or is missing,
    handled with no other handler between the awaits, over stored balances
    that are not negative and an API that reports no negative price.  It is
    answered by exactly one message to the socket.  That is
    ['bet:confirmed'] only if the socket has joined, the amount is positive,
    the currency is a string that reads BTC, ETH or USDT in any case,
    betting is open and the balance covers the stake; the bet then holds
    that amount and, as crypto amount, the double nearest to the amount
    divided by the price, and the balance saved is the double nearest to the
    balance less the crypto amount.  Otherwise the answer is ['error'], and no
    player and no bet has changed. *)
Theorem handleBet_reply (w : World) (socket : Socket) (data : BetData)
    (now : Z) (feed : CryptoService.Feed) (rand : Rand) :
  CryptoService.cache_ok (CryptoService.priceCache (cryptoService w)) ->
  CryptoService.feed_ok feed ->
  solvent (players w) ->
  let w' := fst (handleBet w socket data now feed rand) in
  let socket' := snd (handleBet w socket data now feed rand) in
  (exists pid usd symbol c price bal,
     let cryptoAmount := Binary64.binary64 (usd / price) in
     playerId socket = Some pid /\ pid <> ""%string
     /\ usdAmount data = Some usd /\ 0 < usd
     /\ cryptocurrency data = Text symbol
     /\ CryptoService.toUpperCase symbol = currency_name c
     /\ phase w = Some waiting
     /\ 0 < price
     /\ placeBet_rounded Binary64.binary64 w pid usd c now feed rand
        = (w', Ok (Bet.mk pid usd cryptoAmount c price false None None
                     (txHash rand)))
     /\ balance w pid c = Some bal
     /\ 0 <= cryptoAmount <= bal
     /\ balance w' pid c = Some (Binary64.binary64 (bal - cryptoAmount))
     /\ sent socket'
        = (sent socket
           ++ [ ("bet:confirmed"%string,
                 [ ("usdAmount"%string, VNum usd);
                   ("cryptoAmount"%string, VNum cryptoAmount);
                   ("cryptocurrency"%string, VStr (currency_name c));
                   ("priceAtTime"%string, VNum price) ]) ])%list)
  \/ (exists msg,
        sent socket'
        = (sent socket
           ++ [ ("error"%string, [ ("message"%string, VStr msg) ]) ])%list
        /\ players w' = players w /\ round_bets w' = round_bets w).
Proof.
  intros Hc Hf _ w' socket'. subst w' socket'. unfold handleBet.
  destruct (playerId socket) as [[|a pid]|] eqn:P;
    try (right; eexists; cbn; auto; fail).
  destruct (usdAmount data) as [usd|] eqn:U;
    try (right; eexists; cbn; auto; fail).
  destruct (CryptoService.falsy usd || Qle_bool usd 0)%bool eqn:V;
    try (right; eexists; cbn; auto; fail).
  apply orb_false_iff in V. destruct V as [_ V].
  assert (Hpos : 0 < usd).
  { apply Qnot_le_lt. intros L. apply Qle_bool_iff in L. congruence. }
  destruct (cryptocurrency data) as [|[|b symbol]|] eqn:S;
    try (right; eexists; cbn; auto; fail).
  destruct (currency_of _) as [c|] eqn:C;
    try (right; eexists; cbn; auto; fail).
  apply currency_of_name in C.
  destruct (placeBet_rounded Binary64.binary64 w (String a pid) usd c now
              feed rand) as [w1 [bet | e]] eqn:PB; cbn [fst snd].
  - left.
    destruct (placeBet_rounded_returned _ _ _ _ _ _ _ _ _ _ PB)
      as (Hph & cs & price & p & G & D & Hle & -> & Hb).
    destruct (getPrice_supported_positive (cryptoService w) now
                (currency_name c) c feed Hc Hf (toUpperCase_currency_name c))
      as (cs0 & p0 & G0 & Hp).
    rewrite G in G0. injection G0 as <- <-.
    exists (String a pid), usd, (String b symbol), c, price.
    exists (Wallet.get (Player.wallet p) c).
    cbn [Bet.usdAmount Bet.cryptoAmount Bet.cryptocurrency Bet.priceAtTime].
    cbv zeta.
    split; [reflexivity|]. split; [discriminate|].
    split; [reflexivity|]. split; [exact Hpos|].
    split; [reflexivity|]. split; [exact C|]. split; [exact Hph|].
    split; [exact Hp|]. split; [first [reflexivity | exact PB]|].
    split; [unfold balance; unfold document in D; rewrite D; reflexivity|].
    split; [|split; [exact Hb | reflexivity]].
    split; [|exact Hle]. apply binary64_nonneg.
    apply Qlt_le_weak, Qlt_shift_div_l; [exact Hp|].
    rewrite Qmult_0_l. exact Hpos.
  - right. exists (message e).
    pose proof (placeBet_rounded_rejected Binary64.binary64 w (String a pid)
                  usd c now feed rand e) as Hr.
    rewrite PB in Hr. cbn [fst snd] in Hr. destruct (Hr eq_refl) as [H1 H2].
    cbn. auto.
Qed.

Lemma handleBet_reply_witness :
  let socket := mkSocket (Some "alice"%string) [] in
  let data := mkBetData (Some 50) (Text "btc") in
  let w' := fst (handleBet betting_open socket data 5 btc_50000
                   (mkRand "h1" "t1")) in
  let socket' := snd (handleBet betting_open socket data 5 btc_50000
                        (mkRand "h1" "t1")) in
  (exists pid usd symbol c price bal,
     let cryptoAmount := Binary64.binary64 (usd / price) in
     playerId socket = Some pid /\ pid <> ""%string
     /\ usdAmount data = Some usd /\ 0 < usd
     /\ cryptocurrency data = Text symbol
     /\ CryptoService.toUpperCase symbol = currency_name c
     /\ phase betting_open = Some waiting
     /\ 0 < price
     /\ placeBet_rounded Binary64.binary64 betting_open pid usd c 5
          btc_50000 (mkRand "h1" "t1")
        = (w', Ok (Bet.mk pid usd cryptoAmount c price false None None
                     (txHash (mkRand "h1" "t1"))))
     /\ balance betting_open pid c = Some bal
     /\ 0 <= cryptoAmount <= bal
     /\ balance w' pid c = Some (Binary64.binary64 (bal - cryptoAmount))
     /\ sent socket'
        = (sent socket
           ++ [ ("bet:confirmed"%string,
                 [ ("usdAmount"%string, VNum usd);
                   ("cryptoAmount"%string, VNum cryptoAmount);
                   ("cryptocurrency"%string, VStr (currency_name c));
                   ("priceAtTime"%string, VNum price) ]) ])%list)
  \/ (exists msg,
        sent socket'
        = (sent socket
           ++ [ ("error"%string, [ ("message"%string, VStr msg) ]) ])%list
        /\ players w' = players betting_open
        /\ round_bets w' = round_bets betting_open).
Proof.
  apply (handleBet_reply betting_open (mkSocket (Some "alice"%string) [])
           (mkBetData (Some 50) (Text "btc")) 5 btc_50000
           (mkRand "h1" "t1")).
  - intros k e H. vm_compute in H. discriminate H.
  - vm_compute. discriminate.
  - repeat constructor. intros c. destruct c; vm_compute; discriminate.
Defined.



Lemma cashOut_rounded_refused (fl : Q -> Q) (w w' : World) (pid : string)
    (rand : Rand) (e : Error) :
  cashOut_rounded fl w pid rand = (w', Err e) ->
  players w' = players w /\ transactions w' = transactions w
  /\ emitted w' = emitted w /\ (e <> TypeError "wallet" -> w' = w).
Proof.
  unfold cashOut_rounded.
  destruct (currentRound w) as [r|];
    [|intros [= <- _]; repeat split].
  destruct (isGameActive w); cbn [negb];
    [|intros [= <- _]; repeat split].
  destruct (find _ _) as [bet|]; [|intros [= <- _]; repeat split].
  cbn [players set_currentRound].
  destruct (Player.findOne (players w) pid) as [p|]; [discriminate|].
  intros [= <- <-]. repeat split. intros N. contradiction.
Qed.

(** [cashOut] reads [wallet] on [null] only when the player has no stored
    document. *)
Lemma cashOut_rounded_missing (fl : Q -> Q) (w w' : World) (pid : string)
    (rand : Rand) :
  cashOut_rounded fl w pid rand = (w', Err (TypeError "wallet")) ->
  document w pid = None.
Proof.
  unfold cashOut_rounded, document.
  destruct (currentRound w) as [r|]; [|discriminate].
  destruct (isGameActive w); cbn [negb]; [|discriminate].
  destruct (find _ _) as [bet|]; [|discriminate].
  cbn [players set_currentRound].
  destruct (Player.findOne (players w) pid) as [p|]; [discriminate|].
  reflexivity.
Qed.

Lemma cashOut_rounded_accepted (fl : Q -> Q) (w w' : World) (pid : string)
    (rand : Rand) (res : CashOutResult) :
  cashOut_rounded fl w pid rand = (w', Ok res) ->
  isGameActive w = true
  /\ exists r bet,
       currentRound w = Some r
       /\ find (unsettled pid) (GameRound.bets r) = Some bet
       /\ document w pid <> None
       /\ res = mkCashOut (currentMultiplier w)
                  (Payout.mk (fl (Bet.cryptoAmount bet * currentMultiplier w))
                     (fl (fl (Bet.cryptoAmount bet * currentMultiplier w)
                          * Bet.priceAtTime bet))).
Proof.
  unfold cashOut_rounded, document.
  destruct (currentRound w) as [r|] eqn:R; [|discriminate].
  destruct (isGameActive w) eqn:A; cbn [negb]; [|discriminate].
  destruct (find (unsettled pid) (GameRound.bets r)) as [bet|] eqn:F;
    [|discriminate].
  cbn [players set_currentRound].
  destruct (Player.findOne (players w) pid) as [p|]; [|discriminate].
  intros [= _ <-]. split; [reflexivity|].
  exists r, bet. repeat split; try reflexivity; try assumption. discriminate.
Qed.

(** X19.  A ['game:cashout'] message, handled with no other handler between
    the awaits, in a world whose balances, multiplier and crypto amounts are
    not negative and whose numbers are of moderate size.  It is answered by
    exactly one message to the socket.  That is ['cashout:confirmed'] only
    if the socket has joined, the game is active and the player has an open
    bet and a stored document; it carries the multiplier shown at that
    moment and the payout of the first open bet of the player: its crypto
    amount times that multiplier, and the value of that at the price of the
    bet, each rounded to a double.  Otherwise the answer is ['error'] and no
    wallet, no transaction and no broadcast has changed; unless the socket
    has joined as a player who has no stored document, nothing has changed
    at all. *)
Theorem handleCashout_reply (w : World) (socket : Socket) (rand : Rand) :
  sound w -> tame w ->
  let w' := fst (handleCashout w socket rand) in
  let socket' := snd (handleCashout w socket rand) in
  (exists pid r bet,
     let m := currentMultiplier w in
     let cryptoPayout := Binary64.binary64 (Bet.cryptoAmount bet * m) in
     let usdPayout :=
       Binary64.binary64 (cryptoPayout * Bet.priceAtTime bet) in
     playerId socket = Some pid /\ pid <> ""%string
     /\ isGameActive w = true /\ currentRound w = Some r
     /\ find (unsettled pid) (GameRound.bets r) = Some bet
     /\ document w pid <> None
     /\ cashOut_rounded Binary64.binary64 w pid rand
        = (w', Ok (mkCashOut m (Payout.mk cryptoPayout usdPayout)))
     /\ sent socket'
        = (sent socket
           ++ [ ("cashout:confirmed"%string,
                 [ ("multiplier"%string, VNum m);
                   ("payout"%string,
                    VObj [ ("cryptoAmount"%string, VNum cryptoPayout);
                           ("usdAmount"%string, VNum usdPayout) ]) ]) ])%list)
  \/ (exists msg,
        sent socket'
        = (sent socket
           ++ [ ("error"%string, [ ("message"%string, VStr msg) ]) ])%list
        /\ players w' = players w /\ transactions w' = transactions w
        /\ emitted w' = emitted w
        /\ ((forall pid, playerId socket = Some pid ->
                         document w pid <> None) -> w' = w)).
Proof.
  intros _ _ w' socket'. subst w' socket'. unfold handleCashout.
  destruct (playerId socket) as [[|a pid]|] eqn:P;
    try (right; eexists; cbn; repeat split; fail).
  destruct (cashOut_rounded Binary64.binary64 w (String a pid) rand)
    as [w1 [res | e]] eqn:CO; cbn [fst snd].
  - left.
    destruct (cashOut_rounded_accepted _ w w1 (String a pid) rand res CO)
      as (A & r & bet & R & F & D & ->).
    exists (String a pid), r, bet. cbv zeta.
    cbn [res_multiplier res_payout Payout.cryptoAmount Payout.usdAmount].
    split; [reflexivity|]. split; [discriminate|].
    split; [exact A|]. split; [exact R|]. split; [exact F|].
    split; [exact D|]. split; [exact CO | reflexivity].
  - right. exists (message e).
    destruct (cashOut_rounded_refused _ w w1 (String a pid) rand e CO)
      as (H1 & H2 & H3 & H4).
    cbn. repeat split; try assumption.
    intros N. apply H4. intros ->.
    apply (cashOut_rounded_missing _ w w1 (String a pid) rand) in CO.
    exact (N _ eq_refl CO).
Qed.

Lemma handleCashout_reply_witness :
  let socket := mkSocket (Some "alice"%string) [] in
  let rand := mkRand "h3" "t3" in
  let w' := fst (handleCashout running socket rand) in
  let socket' := snd (handleCashout running socket rand) in
  (exists pid r bet,
     let m := currentMultiplier running in
     let cryptoPayout := Binary64.binary64 (Bet.cryptoAmount bet * m) in
     let usdPayout :=
       Binary64.binary64 (cryptoPayout * Bet.priceAtTime bet) in
     playerId socket = Some pid /\ pid <> ""%string
     /\ isGameActive running = true /\ currentRound running = Some r
     /\ find (unsettled pid) (GameRound.bets r) = Some bet
     /\ document running pid <> None
     /\ cashOut_rounded Binary64.binary64 running pid rand
        = (w', Ok (mkCashOut m (Payout.mk cryptoPayout usdPayout)))
     /\ sent socket'
        = (sent socket
           ++ [ ("cashout:confirmed"%string,
                 [ ("multiplier"%string, VNum m);
                   ("payout"%string,
                    VObj [ ("cryptoAmount"%string, VNum cryptoPayout);
                           ("usdAmount"%string, VNum usdPayout) ]) ]) ])%list)
  \/ (exists msg,
        sent socket'
        = (sent socket
           ++ [ ("error"%string, [ ("message"%string, VStr msg) ]) ])%list
        /\ players w' = players running
        /\ transactions w' = transactions running
        /\ emitted w' = emitted running
        /\ ((forall pid, playerId socket = Some pid ->
                         document running pid <> None) -> w' = running)).
Proof.
  apply (handleCashout_reply running (mkSocket (Some "alice"%string) [])
           (mkRand "h3" "t3")).
  - split; [|split; [|split]].
    + apply Forall_forall. intros p Hin. vm_compute in Hin.
      destruct Hin as [<- | []]. intros c. destruct c; vm_compute; discriminate.
    + intros k e.
      replace (CryptoService.priceCache (cryptoService running))
        with [("BTC"%string, CryptoService.mkEntry 50000 10)]
        by (vm_compute; reflexivity).
      cbn [CryptoService.cache_get].
      destruct (String.eqb_spec "BTC" k) as [<- | _]; [|discriminate].
      intros [= <-]. split; [reflexivity | discriminate].
    + vm_compute. discriminate.
    + apply Forall_forall. intros b Hin. vm_compute in Hin.
      destruct Hin as [<- | [<- | []]]; vm_compute; discriminate.
  - split; [vm_compute; reflexivity|]. split.
    + apply Forall_forall. intros b Hin. vm_compute in Hin.
      destruct Hin as [<- | [<- | []]]; repeat split; vm_compute; reflexivity.
    + apply Forall_forall. intros p Hin. vm_compute in Hin.
      destruct Hin as [<- | []]. split; [vm_compute; reflexivity|].
      intros c. destruct c; vm_compute; reflexivity.
Defined.

End Sockets.

(* ===================================================================== *)
(** ** Paged histories *)

Section Pages.
Import Query.

Lemma firstn_plus {A : Type} (a b : nat) (l : list A) :
  firstn (a + b) l = (firstn a l ++ firstn b (skipn a l))%list.
Proof.
  revert l. induction a as [|a IH]; intros l; [reflexivity|].
  destruct l as [|x l]; simpl.
  - rewrite firstn_nil. reflexivity.
  - rewrite IH. reflexivity.
Qed.

Lemma In_firstn {A : Type} (n : nat) (l : list A) (x : A) :
  In x (firstn n l) -> In x l.
Proof.
  intros H. rewrite <- (firstn_skipn n l). apply in_or_app. left. exact H.
Qed.

Lemma In_skipn {A : Type} (n : nat) (l : list A) (x : A) :
  In x (skipn n l) -> In x l.
Proof.
  intros H. rewrite <- (firstn_skipn n l). apply in_or_app. right. exact H.
Qed.

Lemma chunks_cover {A : Type} (n : nat) (l : list A) (k : nat) :
  List.concat (map (fun i => firstn n (skipn (i * n) l)) (seq 0 k))
  = firstn (k * n) l.
Proof.
  induction k as [|k IH]; [reflexivity|].
  rewrite seq_S, map_app, concat_app, IH. simpl.
  rewrite app_nil_r, (Nat.add_comm n (k * n)), firstn_plus. reflexivity.
Qed.

Lemma ceiling_covers (t : Z) (n : positive) :
  (0 <= t)%Z ->
  (0 <= Qceiling (inject_Z t / inject_Z (Z.pos n))
   /\ t <= Qceiling (inject_Z t / inject_Z (Z.pos n)) * Z.pos n)%Z.
Proof.
  intros Ht.
  set (x := (inject_Z t / inject_Z (Z.pos n))%Q).
  assert (Hn : (0 < inject_Z (Z.pos n))%Q) by reflexivity.
  assert (Hx : (0 <= x)%Q).
  { unfold x. apply Qle_shift_div_l; [exact Hn|].
    rewrite Qmult_0_l. change (inject_Z 0 <= inject_Z t)%Q.
    rewrite <- Zle_Qle. exact Ht. }
  pose proof (Qle_ceiling x) as Hc.
  split.
  - rewrite Zle_Qle. eapply Qle_trans; eassumption.
  - rewrite Zle_Qle, inject_Z_mult.
    assert (E : (inject_Z t == x * inject_Z (Z.pos n))%Q).
    { unfold x. field. discriminate. }
    rewrite E. apply Qmult_le_compat_r; [exact Hc|].
    apply Qlt_le_weak, Hn.
Qed.

Lemma skip_of_page (page limit : positive) :
  Z.to_nat ((Z.pos page - 1) * Z.pos limit)
  = ((Pos.to_nat page - 1) * Pos.to_nat limit)%nat.
Proof.
  rewrite Z2Nat.inj_mul by lia. rewrite Z2Nat.inj_sub by lia.
  rewrite !Z2Nat.inj_pos. reflexivity.
Qed.

(** What a paged query returns, page by page and all pages together. *)
Lemma paged_pages {A : Type} (filter : A -> bool) (collection : list A)
    (limit : positive) :
  let all := sort_createdAt_desc (find filter collection) in
  let pages := Qceiling (inject_Z (Z.of_nat (List.length all))
                         / inject_Z (Z.pos limit)) in
  (forall page,
     (List.length (fst (paged filter collection page limit))
      <= Pos.to_nat limit)%nat
     /\ incl (fst (paged filter collection page limit)) all
     /\ snd (paged filter collection page limit)
        = mkPagination (Z.pos page) (Z.pos limit)
            (Z.of_nat (List.length all)) pages
     /\ ((pages < Z.pos page)%Z ->
         fst (paged filter collection page limit) = []))
  /\ List.concat
       (map (fun i => fst (paged filter collection (Pos.of_nat i) limit))
            (seq 1 (Z.to_nat pages)))
     = all.
Proof.
  intros all pages.
  assert (Hlen : List.length all = List.length (find filter collection))
    by apply length_rev.
  destruct (ceiling_covers (Z.of_nat (List.length all)) limit
              (Nat2Z.is_nonneg _)) as [Hp0 Hp]. fold pages in Hp0, Hp.
  split.
  - intros page. unfold paged. cbn [fst snd]. fold all.
    rewrite skip_of_page. repeat split.
    + rewrite length_firstn. apply Nat.le_min_l.
    + intros x Hx. apply In_firstn, In_skipn in Hx. exact Hx.
    + unfold countDocuments, pages. rewrite Hlen. reflexivity.
    + intros Hlt. rewrite skipn_all2; [apply firstn_nil|]. nia.
  - unfold paged. cbn [fst]. fold all.
    rewrite <- seq_shift, map_map.
    rewrite (map_ext _ (fun i => firstn (Pos.to_nat limit)
                                   (skipn (i * Pos.to_nat limit) all))).
    + rewrite chunks_cover. apply firstn_all2. nia.
    + intros i. rewrite skip_of_page.
      replace (Pos.to_nat (Pos.of_nat (S i)) - 1)%nat with i by lia.
      reflexivity.
Qed.

Lemma history_paged (db : list GameRoutes.RoundDoc) (page limit : positive) :
  GameRoutes.history db page limit
  = (map GameRoutes.select
       (fst (paged (fun r => Status_eqb (GameRound.status r) crashed) db
               page limit)),
     snd (paged (fun r => Status_eqb (GameRound.status r) crashed) db
            page limit)).
Proof. reflexivity. Qed.

(** X20.  [GET /history] lists crashed rounds only, newest first, at most
    [limit] a page, and of each round only its id, crash point, times and
    highest multiplier.  [total] counts the crashed rounds; the pages from 1
    to [totalPages] hold each of them once, in order; later pages are
    empty. *)
Theorem history_pages (db : list GameRoutes.RoundDoc) (limit : positive) :
  let finished :=
    rev (filter (fun r => Status_eqb (GameRound.status r) crashed) db) in
  let pages := totalPages (snd (GameRoutes.history db 1 limit)) in
  (forall page,
     (List.length (fst (GameRoutes.history db page limit))
      <= Pos.to_nat limit)%nat
     /\ (forall e,
           In e (fst (GameRoutes.history db page limit)) ->
           exists r, In r db /\ GameRound.status r = crashed
                     /\ e = GameRoutes.select r)
     /\ snd (GameRoutes.history db page limit)
        = mkPagination (Z.pos page) (Z.pos limit)
            (Z.of_nat (List.length finished)) pages
     /\ ((pages < Z.pos page)%Z ->
         fst (GameRoutes.history db page limit) = []))
  /\ List.concat
       (map (fun i => fst (GameRoutes.history db (Pos.of_nat i) limit))
            (seq 1 (Z.to_nat pages)))
     = map GameRoutes.select finished.
Proof.
  intros finished pages.
  destruct (paged_pages (fun r => Status_eqb (GameRound.status r) crashed)
              db limit) as [Hpage Hall].
  assert (Hp : pages
               = Qceiling (inject_Z (Z.of_nat (List.length finished))
                           / inject_Z (Z.pos limit))).
  { subst pages. rewrite history_paged. cbn [snd].
    destruct (Hpage 1%positive) as (_ & _ & -> & _). reflexivity. }
  clearbody pages. subst pages. split.
  - intros page. rewrite history_paged. cbn [fst snd].
    destruct (Hpage page) as (Hlen & Hincl & Hsnd & Hlast).
    rewrite length_map. repeat split.
    + exact Hlen.
    + intros e He. apply in_map_iff in He. destruct He as (r & <- & Hr).
      apply Hincl in Hr. unfold sort_createdAt_desc, find in Hr.
      apply in_rev, filter_In in Hr. destruct Hr as [Hin Hst].
      exists r. repeat split; [exact Hin|].
      destruct (GameRound.status r); try discriminate Hst. reflexivity.
    + rewrite Hsnd. reflexivity.
    + intros Hlt. rewrite Hlast; [reflexivity | exact Hlt].
  - rewrite (map_ext _
               (fun i => map GameRoutes.select
                           (fst (paged
                                   (fun r => Status_eqb (GameRound.status r)
                                                        crashed)
                                   db (Pos.of_nat i) limit))))
      by (intros i; rewrite history_paged; reflexivity).
    rewrite <- (map_map
                  (fun i => fst (paged
                                   (fun r => Status_eqb (GameRound.status r)
                                                        crashed)
                                   db (Pos.of_nat i) limit))
                  (map GameRoutes.select)).
    rewrite <- concat_map. unfold finished.
    f_equal. exact Hall.
Qed.

Lemma type_of_known (s : string) (ty : TxType) :
  type_of s = Some ty ->
  In s ["bet"; "cashout"; "deposit"; "withdrawal"]%string.
Proof.
  unfold type_of.
  destruct (String.eqb_spec s "bet") as [-> | _]; [simpl; auto|].
  destruct (String.eqb_spec s "cashout") as [-> | _]; [simpl; auto|].
  destruct (String.eqb_spec s "deposit") as [-> | _]; [simpl; auto|].
  destruct (String.eqb_spec s "withdrawal") as [-> | _]; [simpl; auto|].
  discriminate.
Qed.

(** X21.  [GET /transactions/:playerId] lists transactions of that player only,
    newest first, at most [limit] a page, and of the type asked for when it
    is one of bet, cashout, deposit and withdrawal; any other [type] is
    ignored, as if none were given.  The pages from 1 to [totalPages] hold
    each matching transaction once, in order; later pages are empty. *)
Theorem getTransactions_pages (db : list Transaction.t) (playerId : string)
    (limit : positive) (type : option string) :
  let matching :=
    rev (filter (WalletRoutes.transactions_filter playerId type) db) in
  let pages :=
    totalPages
      (snd (WalletRoutes.getTransactions db playerId 1 limit type)) in
  (forall page,
     let docs :=
       fst (WalletRoutes.getTransactions db playerId page limit type) in
     (List.length docs <= Pos.to_nat limit)%nat
     /\ (forall t,
           In t docs ->
           In t db /\ Transaction.playerId t = playerId
           /\ forall s ty, type = Some s -> type_of s = Some ty ->
                           Transaction.type t = ty)
     /\ snd (WalletRoutes.getTransactions db playerId page limit type)
        = mkPagination (Z.pos page) (Z.pos limit)
            (Z.of_nat (List.length matching)) pages
     /\ ((pages < Z.pos page)%Z -> docs = []))
  /\ List.concat
       (map (fun i =>
               fst (WalletRoutes.getTransactions db playerId (Pos.of_nat i)
                      limit type))
            (seq 1 (Z.to_nat pages)))
     = matching
  /\ forall s page,
       type_of s = None ->
       WalletRoutes.getTransactions db playerId page limit (Some s)
       = WalletRoutes.getTransactions db playerId page limit None.
Proof.
  intros matching pages. unfold WalletRoutes.getTransactions in *.
  destruct (paged_pages (WalletRoutes.transactions_filter playerId type)
              db limit) as [Hpage Hall].
  assert (Hp : pages
               = Qceiling (inject_Z (Z.of_nat (List.length matching))
                           / inject_Z (Z.pos limit))).
  { subst pages. destruct (Hpage 1%positive) as (_ & _ & -> & _).
    reflexivity. }
  clearbody pages. subst pages. split; [|split].
  - intros page.
    destruct (Hpage page) as (Hlen & Hincl & Hsnd & Hlast).
    split; [exact Hlen|]. split; [|split].
    + intros t H. apply Hincl in H. unfold sort_createdAt_desc, find in H.
      apply in_rev, filter_In in H. destruct H as [Hin H].
      unfold WalletRoutes.transactions_filter in H.
      apply andb_true_iff in H. destruct H as [Hid Hty].
      split; [exact Hin|]. split; [apply String.eqb_eq, Hid|].
      intros s ty -> Hs. rewrite Hs in Hty.
      destruct (Transaction.type t), ty; try discriminate Hty; reflexivity.
    + rewrite Hsnd. reflexivity.
    + exact Hlast.
  - exact Hall.
  - intros s page Hs. unfold paged, countDocuments, find.
    rewrite (filter_ext (WalletRoutes.transactions_filter playerId (Some s))
               (WalletRoutes.transactions_filter playerId None));
      [reflexivity|].
    intros t. unfold WalletRoutes.transactions_filter. rewrite Hs.
    reflexivity.
Qed.

End Pages.

(* ===================================================================== *)
(** ** Deposits *)

Section Deposit.
Import CryptoService WalletRoutes.
Local Open Scope Q_scope.

(** X22.  [POST /deposit] with a body whose [playerId] is a string or is
    missing and whose [amount] is a number or is missing, handled with no
    other handler between the awaits, over stored balances that are not
    negative and an API that reports no negative price, with numbers of
    moderate size.  It answers 500 only when [cryptocurrency] is neither a
    string nor falsy, and then changes nothing.  It answers 200 only for an
    existing player, a positive amount and a string that reads BTC, ETH or
    USDT in any case; the balance of that currency is then the double
    nearest to the balance plus the amount, nothing else of the player and
    no other player changes, and one [deposit] transaction is appended for
    that amount at the price returned, valued at their product rounded.
    Every other request is answered 400 or 404 and changes nothing. *)
Theorem deposit_outcome (st : Store) (body : DepositBody) (now : Z)
    (feed : Feed) (rand : GameManager.Rand) :
  cache_ok (priceCache (cryptoService st)) -> feed_ok feed ->
  GameManager.solvent (players st) ->
  Forall (fun p => forall c,
            GameManager.moderate (Wallet.get (Player.wallet p) c))
         (players st) ->
  (forall amount, body_amount body = Some amount ->
                  GameManager.moderate amount) ->
  let st' := fst (deposit st body now feed rand) in
  let res := snd (deposit st body now feed rand) in
  (exists pid amount symbol c p price,
     let previous := Wallet.get (Player.wallet p) c in
     let wallet' :=
       Wallet.set (Player.wallet p) c
         (Binary64.binary64
            ((if falsy previous then 0 else previous) + amount)) in
     body_playerId body = Some pid /\ body_amount body = Some amount
     /\ body_cryptocurrency body = Text symbol
     /\ 0 < amount /\ toUpperCase symbol = currency_name c
     /\ Player.findOne (players st) pid = Some p /\ 0 < price
     /\ GameRoutes.statusCode res = 200%Z
     /\ Player.findOne (players st') pid
        = Some (Player.mk (Player.playerId p) (Player.username p) wallet'
                  (Player.totalGamesPlayed p) (Player.totalWon p)
                  (Player.totalLost p))
     /\ (forall q, q <> pid ->
           Player.findOne (players st') q = Player.findOne (players st) q)
     /\ exists tx,
          transactions st' = (transactions st ++ [tx])%list
          /\ Transaction.playerId tx = pid
          /\ Transaction.type tx = tx_deposit
          /\ Transaction.roundId tx = "deposit"%string
          /\ Transaction.cryptocurrency tx = c
          /\ Transaction.cryptoAmount tx = amount
          /\ Transaction.priceAtTime tx = price
          /\ Transaction.balanceAfter tx = wallet'
          /\ (Binary64.in_range (amount * price) ->
              Transaction.usdAmount tx
              = Binary64.binary64 (amount * price)))
  \/ ((GameRoutes.statusCode res = 400%Z \/ GameRoutes.statusCode res = 404%Z)
      /\ st' = st)
  \/ (body_cryptocurrency body = Other
      /\ GameRoutes.statusCode res = 500%Z /\ st' = st).
Proof.
  intros Hc Hf _ _ _ st' res. subst st' res.
  unfold deposit, bad_request, server_error.
  destruct (body_playerId body) as [[|a pid]|] eqn:P;
    try (right; left; cbn; auto; fail);
    try (destruct (body_amount body);
         [destruct (body_cryptocurrency body) as [|[|? ?]|]|];
         right; left; cbn; auto; fail).
  destruct (body_amount body) as [amount|] eqn:A;
    [|right; left; cbn; auto].
  destruct (body_cryptocurrency body) as [|[|b symbol]|] eqn:S;
    try (right; left; cbn; auto; fail).
  - destruct (falsy amount); [right; left; cbn; auto|].
    destruct (Qle_bool amount 0) eqn:V; [right; left; cbn; auto|].
    assert (Hpos : 0 < amount).
    { apply Qnot_le_lt. intros L. apply Qle_bool_iff in L. congruence. }
    destruct (currency_of _) as [c|] eqn:C; [|right; left; cbn; auto].
    apply currency_of_name in C.
    destruct (Player.findOne (players st) (String a pid)) as [p|] eqn:F;
      [|right; left; cbn; auto].
    assert (Hup : toUpperCase (toUpperCase (String b symbol))
                  = currency_name c).
    { rewrite C. apply toUpperCase_currency_name. }
    destruct (getPrice_supported_positive (cryptoService st) now
                (toUpperCase (String b symbol)) c feed Hc Hf Hup)
      as (cs & price & -> & Hp).
    left. cbn [fst snd players transactions GameRoutes.statusCode].
    pose proof (findOne_playerId _ _ _ F) as Hid.
    exists (String a pid), amount, (String b symbol), c, p, price.
    cbv zeta.
    split; [reflexivity|]. split; [reflexivity|]. split; [reflexivity|].
    split; [exact Hpos|]. split; [exact C|]. split; [exact F|].
    split; [exact Hp|]. split; [reflexivity|].
    split; [apply (findOne_save_same _ _ p); [exact F | exact Hid]|].
    split; [intros q Hq; apply findOne_save_other; cbn; congruence|].
    eexists. split; [reflexivity|]. cbn. repeat split.
  - destruct (falsy amount); [right; left; cbn; auto|].
    destruct (Qle_bool amount 0); [right; left; cbn; auto|].
    right; right. cbn. auto.
Qed.

Lemma deposit_outcome_witness :
  let st := mkStore [GameManager.alice] [] (create 10000) in
  let body := mkDeposit (Some "alice"%string) (Some (1 # 100)) (Text "btc") in
  let st' := fst (deposit st body 5 GameManager.btc_50000
                    (GameManager.mkRand "h1" "t1")) in
  let res := snd (deposit st body 5 GameManager.btc_50000
                    (GameManager.mkRand "h1" "t1")) in
  (exists pid amount symbol c p price,
     let previous := Wallet.get (Player.wallet p) c in
     let wallet' :=
       Wallet.set (Player.wallet p) c
         (Binary64.binary64
            ((if falsy previous then 0 else previous) + amount)) in
     body_playerId body = Some pid /\ body_amount body = Some amount
     /\ body_cryptocurrency body = Text symbol
     /\ 0 < amount /\ toUpperCase symbol = currency_name c
     /\ Player.findOne (players st) pid = Some p /\ 0 < price
     /\ GameRoutes.statusCode res = 200%Z
     /\ Player.findOne (players st') pid
        = Some (Player.mk (Player.playerId p) (Player.username p) wallet'
                  (Player.totalGamesPlayed p) (Player.totalWon p)
                  (Player.totalLost p))
     /\ (forall q, q <> pid ->
           Player.findOne (players st') q = Player.findOne (players st) q)
     /\ exists tx,
          transactions st' = (transactions st ++ [tx])%list
          /\ Transaction.playerId tx = pid
          /\ Transaction.type tx = tx_deposit
          /\ Transaction.roundId tx = "deposit"%string
          /\ Transaction.cryptocurrency tx = c
          /\ Transaction.cryptoAmount tx = amount
          /\ Transaction.priceAtTime tx = price
          /\ Transaction.balanceAfter tx = wallet'
          /\ (Binary64.in_range (amount * price) ->
              Transaction.usdAmount tx
              = Binary64.binary64 (amount * price)))
  \/ ((GameRoutes.statusCode res = 400%Z \/ GameRoutes.statusCode res = 404%Z)
      /\ st' = st)
  \/ (body_cryptocurrency body = Other
      /\ GameRoutes.statusCode res = 500%Z /\ st' = st).
Proof.
  apply (deposit_outcome (mkStore [GameManager.alice] [] (create 10000))
           (mkDeposit (Some "alice"%string) (Some (1 # 100)) (Text "btc"))
           5 GameManager.btc_50000 (GameManager.mkRand "h1" "t1")).
  - intros k e H. vm_compute in H. discriminate H.
  - vm_compute. discriminate.
  - constructor; [|constructor]. intros c. destruct c; vm_compute; discriminate.
  - constructor; [|constructor]. intros c. destruct c; vm_compute; reflexivity.
  - intros amount [= <-]. vm_compute. reflexivity.
Defined.

End Deposit.

(* ===================================================================== *)
(** ** Solvency *)

Section Solvency.
Import GameManager.
Local Open Scope Q_scope.

Ltac sound_split := split; [|split; [|split]].

Lemma solvent_save (db : list Player.t) (p : Player.t) :
  solvent db -> (forall c, 0 <= Wallet.get (Player.wallet p) c) ->
  solvent (Player.save db p).
Proof.
  unfold solvent. intros H Hp. induction H as [|q db Hq Hdb IH]; simpl.
  - constructor.
  - destruct (String.eqb _ _); constructor; auto.
Qed.

Lemma solvent_findOne (db : list Player.t) (pid : string) (p : Player.t) :
  solvent db -> Player.findOne db pid = Some p ->
  forall c, 0 <= Wallet.get (Player.wallet p) c.
Proof.
  unfold solvent, Player.findOne. intros H F. apply find_some in F.
  rewrite Forall_forall in H. apply H, F.
Qed.

Lemma Wallet_set_nonneg (wl : Wallet.t) (c : Currency) (v : Q) :
  (forall c', 0 <= Wallet.get wl c') -> 0 <= v ->
  forall c', 0 <= Wallet.get (Wallet.set wl c v) c'.
Proof.
  intros H Hv c'. rewrite Wallet_get_set.
  destruct (Currency_eqb c c'); [exact Hv | apply H].
Qed.

Lemma solvent_updatePlayerStats (w : World) (pid : string) (won : bool)
    (amount : Q) :
  solvent (players w) ->
  solvent (players (updatePlayerStats w pid won amount)).
Proof.
  intros H. unfold updatePlayerStats.
  destruct (Player.findOne (players w) pid) as [p|] eqn:F; [|exact H].
  cbn [players set_players]. apply solvent_save; [exact H|].
  pose proof (solvent_findOne _ _ _ H F) as Hp.
  destruct won; exact Hp.
Qed.

Lemma solvent_endRound (w : World) (now : Z) :
  solvent (players w) -> solvent (players (endRound w now)).
Proof.
  intros H. unfold endRound.
  destruct (currentRound w) as [r|]; [|exact H].
  destruct (Status_eqb _ _); [exact H|].
  cbv zeta.
  assert (G : forall bs x, solvent (players x) ->
            solvent (players
              (fold_left
                 (fun w bet =>
                    if Bet.cashedOut bet then w
                    else updatePlayerStats w (Bet.playerId bet) false
                           (Bet.usdAmount bet))
                 bs x))).
  { induction bs as [|b bs IH]; intros x Hx; simpl; [exact Hx|].
    apply IH. destruct (Bet.cashedOut b); [exact Hx|].
    apply solvent_updatePlayerStats, Hx. }
  apply G. exact H.
Qed.

Lemma endRound_frame (w : World) (now : Z) :
  cryptoService (endRound w now) = cryptoService w
  /\ currentMultiplier (endRound w now) = currentMultiplier w
  /\ round_bets (endRound w now) = round_bets w.
Proof.
  unfold endRound, round_bets.
  destruct (currentRound w) as [r|] eqn:R; [|rewrite R; auto].
  destruct (Status_eqb _ _); [rewrite R; auto|].
  match goal with
  | |- context [fold_left ?f ?bs ?y] =>
      destruct (endRound_fold_frame bs y) as [db ->]
  end.
  cbn. auto.
Qed.

Lemma sound_same (w w' : World) :
  players w' = players w -> cryptoService w' = cryptoService w ->
  currentMultiplier w' = currentMultiplier w ->
  round_bets w' = round_bets w -> sound w -> sound w'.
Proof. unfold sound. intros -> -> -> ->. auto. Qed.

Lemma sound_crashGame (w : World) (now : Z) :
  sound w -> sound (crashGame w now).
Proof.
  intros S. pose proof S as (Hs & Hc & Hm & Hb). unfold crashGame.
  destruct (currentRound w) as [r|] eqn:R; [|exact S].
  destruct (isGameActive w); cbn [negb]; [|exact S].
  change (multiplierInterval (set_isGameActive w false))
    with (multiplierInterval w).
  assert (E : forall x,
            players x = players w -> cryptoService x = cryptoService w ->
            currentMultiplier x = currentMultiplier w ->
            round_bets x = round_bets w ->
            sound
              match currentRound (endRound x now) with
              | Some r0 =>
                  setTimeout
                    (emit (endRound x now) "round:crashed"
                       [("roundId"%string, VStr (GameRound.roundId r0));
                        ("crashPoint"%string,
                         VNum (GameRound.crashPoint r0));
                        ("finalMultiplier"%string,
                         VNum (currentMultiplier (endRound x now)))])
                    TStartNewRound
              | None => endRound x now
              end).
  { intros x Px Cx Mx Bx.
    destruct (endRound_frame x now) as (F1 & F2 & F3).
    pose proof (solvent_endRound x now) as F4. rewrite Px in F4.
    specialize (F4 Hs).
    assert (S0 : sound (endRound x now)).
    { unfold sound. rewrite F1, F2, F3, Cx, Mx, Bx.
      sound_split; assumption. }
    destruct (currentRound (endRound x now)) as [r0|] eqn:R0; [|exact S0].
    apply (sound_same (endRound x now)); try reflexivity. exact S0. }
  destruct (multiplierInterval w); apply E; reflexivity.
Qed.

Lemma multiplier_nonneg (w : World) (now : Z) :
  fair w (Tick now) -> 0 <= multiplier_at w now.
Proof.
  unfold fair, multiplier_at. intros H.
  assert (G : forall e : Z, (0 <= e)%Z ->
            0 <= 1 + inject_Z e / 1000 * (1 # 10)).
  { intros e He.
    assert (E : 1 + inject_Z e / 1000 * (1 # 10)
                == 1 + inject_Z e * (1 # 10000)) by field.
    rewrite E. apply (Qle_trans _ (1 + 0)); [discriminate|].
    apply Qplus_le_r. apply Qmult_le_0_compat; [|discriminate].
    change (inject_Z 0 <= inject_Z e). rewrite <- Zle_Qle. exact He. }
  destruct (gameStartTime w) as [t0|]; apply G; lia.
Qed.

Lemma sound_step (w : World) (a : Action) :
  sound w -> fair w a -> sound (step w a).
Proof.
  intros S Ha. pose proof S as (Hs & Hc & Hm & Hb).
  assert (Hbets : forall r, currentRound w = Some r ->
            Forall (fun b => 0 <= Bet.cryptoAmount b) (GameRound.bets r)).
  { intros r R. unfold round_bets in Hb. rewrite R in Hb. exact Hb. }
  destruct a as [now | d now | now | pid usd c now feed rand
                 | pid rand | | doc pid usd c price rand
                 | bet wallet' rand]; cbn [step].
  - destruct (pending _ _); [|exact S].
    unfold startGamePhase. cbn [currentRound fired].
    destruct (currentRound w) as [r|] eqn:R.
    + sound_split; try assumption; [discriminate|].
      unfold round_bets. cbn. apply (Hbets r eq_refl).
    + apply (sound_same w); try reflexivity. exact S.
  - destruct (pending _ _); [|exact S].
    assert (P : solvent
                  (players
                     match currentRound (fired w TStartNewRound) with
                     | Some _ =>
                         if isGameActive (fired w TStartNewRound)
                         then endRound (fired w TStartNewRound) now
                         else fired w TStartNewRound
                     | None => fired w TStartNewRound
                     end)
                /\ cryptoService
                     match currentRound (fired w TStartNewRound) with
                     | Some _ =>
                         if isGameActive (fired w TStartNewRound)
                         then endRound (fired w TStartNewRound) now
                         else fired w TStartNewRound
                     | None => fired w TStartNewRound
                     end = cryptoService w
                /\ currentMultiplier
                     match currentRound (fired w TStartNewRound) with
                     | Some _ =>
                         if isGameActive (fired w TStartNewRound)
                         then endRound (fired w TStartNewRound) now
                         else fired w TStartNewRound
                     | None => fired w TStartNewRound
                     end = currentMultiplier w).
    { destruct (currentRound (fired w TStartNewRound));
        [destruct (isGameActive (fired w TStartNewRound))|];
        try (split; [exact Hs | split; reflexivity]).
      destruct (endRound_frame (fired w TStartNewRound) now)
        as (F1 & F2 & _).
      split; [apply solvent_endRound; exact Hs|]. split; assumption. }
    destruct P as (P1 & P2 & P3).
    unfold startNewRound, sound, round_bets.
    cbn [players cryptoService currentMultiplier currentRound setTimeout
         emit set_currentRound GameRound.bets].
    rewrite P2, P3. sound_split; try assumption. constructor.
  - destruct (intervals w); [exact S|].
    pose proof (multiplier_nonneg w now Ha) as Hn.
    unfold updateMultiplier.
    destruct (currentRound w) as [r|] eqn:R; [|exact S].
    destruct (isGameActive w); cbn [negb]; [|exact S].
    assert (S1 : sound
                   (set_currentRound
                      (set_currentMultiplier w (multiplier_at w now))
                      (Some
                         (set_maxMultiplier r
                            (Math_max
                               (if CryptoService.falsy
                                     (GameRound.maxMultiplier r)
                                then 1 else GameRound.maxMultiplier r)
                               (multiplier_at w now)))))).
    { sound_split; try assumption;
        unfold round_bets; cbn; apply (Hbets r eq_refl). }
    destruct (Qgeb _ _); [apply sound_crashGame, S1|].
    eapply sound_same; [| | | |exact S1]; reflexivity.
  - destruct Ha as [Husd Hf]. unfold placeBet.
    destruct (currentRound w) as [r|] eqn:R; [|exact S].
    destruct (negb _); [exact S|].
    pose proof (getPrice_cache_ok (cryptoService w) now (currency_name c)
                  feed Hc Hf) as Hc'.
    destruct (getPrice_supported_positive (cryptoService w) now
                (currency_name c) c feed Hc Hf (toUpperCase_currency_name c))
      as (cs & price & G & Hp).
    rewrite G in Hc' |- *. cbn [fst] in Hc'.
    cbn [players set_cryptoService].
    assert (S1 : sound (set_cryptoService w cs)).
    { sound_split; try assumption;
        unfold round_bets; cbn; rewrite R; apply (Hbets r eq_refl). }
    destruct (Player.findOne (players w) pid) as [p|] eqn:F;
      [|exact S1].
    destruct (Qltb _ _) eqn:L; [exact S1|]. cbn [fst].
    apply Qltb_false in L.
    assert (Hamt : 0 <= usd / price).
    { apply Qle_shift_div_l; [exact Hp|]. rewrite Qmult_0_l. exact Husd. }
    sound_split; try assumption.
    + cbn [players emit logTransaction add_transaction set_currentRound
           set_players set_cryptoService].
      apply solvent_save; [exact Hs|]. cbn [Player.wallet].
      apply Wallet_set_nonneg; [apply (solvent_findOne _ _ _ Hs F)|].
      apply Qle_minus_iff in L. exact L.
    + unfold round_bets. cbn. apply Forall_app.
      split; [apply (Hbets r eq_refl)|].
      constructor; [exact Hamt | constructor].
  - unfold cashOut.
    destruct (currentRound w) as [r|] eqn:R; [|exact S].
    destruct (isGameActive w); cbn [negb]; [|exact S].
    destruct (find (unsettled pid) (GameRound.bets r)) as [bet|] eqn:F;
      [|exact S].
    pose proof (Hbets r eq_refl) as Hr.
    assert (Hbet : 0 <= Bet.cryptoAmount bet).
    { apply find_some in F. rewrite Forall_forall in Hr. apply Hr, F. }
    assert (Hb' : forall po,
              Forall (fun b => 0 <= Bet.cryptoAmount b)
                (mark_first pid (currentMultiplier w) po (GameRound.bets r))).
    { intros po. apply Forall_mark_first; [exact Hr|]. intros b H. exact H. }
    cbn [players set_currentRound].
    destruct (Player.findOne (players w) pid) as [p|] eqn:P; cbn [fst].
    + match goal with
      | |- sound (emit (updatePlayerStats ?x ?a ?b ?c) _ _) =>
          pose proof (solvent_updatePlayerStats x a b c) as Hu;
          destruct (updatePlayerStats_frame x a b c) as [db E]
      end.
      rewrite E in Hu |- *.
      sound_split; try assumption.
      * cbn [players emit set_players]. cbn [players set_players] in Hu.
        apply Hu. cbn [players logTransaction add_transaction set_players].
        apply solvent_save; [exact Hs|]. cbn [Player.wallet].
        apply Wallet_set_nonneg; [apply (solvent_findOne _ _ _ Hs P)|].
        apply (Qle_trans _ (0 + 0)); [discriminate|].
        apply Qplus_le_compat; [apply (solvent_findOne _ _ _ Hs P)|].
        apply Qmult_le_0_compat; assumption.
      * unfold round_bets. cbn. apply Hb'.
    + sound_split; try assumption. unfold round_bets. cbn. apply Hb'.
  - unfold stop. destruct (multiplierInterval w); [|exact S].
    apply (sound_same w); try reflexivity. exact S.
  - destruct Ha as (Husd & Hp & Hdoc). unfold placeBet_debit_stage.
    destruct doc as [p|]; [|exact S].
    destruct (Qltb _ _) eqn:L; [exact S|]. cbn [fst].
    apply Qltb_false in L.
    sound_split; try assumption.
    cbn [players set_players].
    apply solvent_save; [exact Hs|]. cbn [Player.wallet].
    apply Wallet_set_nonneg; [exact Hdoc|].
    apply Qle_minus_iff in L. exact L.
  - unfold placeBet_record_stage.
    destruct (currentRound w) as [r|] eqn:R; [|exact S].
    cbn in Ha. sound_split; try assumption.
    unfold round_bets. cbn. apply Forall_app.
    split; [apply (Hbets r eq_refl)|]. constructor; [exact Ha|constructor].
Qed.

(** X11.  No balance ever becomes negative.  Start the engine over players
    whose balances are not negative; let the clock not run backwards, the
    amounts bet not be negative and the API report no negative price.  Then
    after any sequence of timer firings, ticks, bets (also interleaved at
    their awaits), cash-outs and calls of [stop], every balance of every
    stored player is at least 0, and so is the crypto amount of every bet of
    the current round. *)
Theorem wallets_never_negative (cacheTimeout : Z) (db : list Player.t)
    (d : Draw) (now : Z) (acts : list Action) :
  solvent db ->
  orderly (start (create cacheTimeout db) d now) acts ->
  let w := run (start (create cacheTimeout db) d now) acts in
  (forall pid c bal, balance w pid c = Some bal -> 0 <= bal)
  /\ (forall b, In b (round_bets w) -> 0 <= Bet.cryptoAmount b).
Proof.
  intros Hdb Hacts w.
  assert (S : sound w).
  { subst w.
    assert (S0 : sound (start (create cacheTimeout db) d now)).
    { sound_split.
      - exact Hdb.
      - intros k e H. discriminate H.
      - discriminate.
      - constructor. }
    revert Hacts S0. generalize (start (create cacheTimeout db) d now).
    induction acts as [|a acts IH]; intros x Hx Sx; [exact Sx|].
    destruct Hx as [Ha Hrest]. cbn [run fold_left].
    apply (IH (step x a)); [exact Hrest | apply sound_step; assumption]. }
  destruct S as (Hs & _ & _ & Hb). split.
  - intros pid c bal Hbal. unfold balance in Hbal.
    destruct (Player.findOne (players w) pid) as [p|] eqn:F;
      [|discriminate].
    cbn in Hbal. injection Hbal as <-.
    apply (solvent_findOne _ _ _ Hs F).
  - intros b Hin. rewrite Forall_forall in Hb. apply Hb, Hin.
Qed.

Lemma wallets_never_negative_witness :
  let w := run (start (create 10000 [alice]) round1 0)
             [ DoPlaceBet "alice" 50 BTC 5 btc_50000 (mkRand "h1" "t1");
               FireStartGamePhase 3000; Tick 6000;
               DoCashOut "alice" (mkRand "h3" "t3"); Tick 18000 ] in
  (forall pid c bal, balance w pid c = Some bal -> 0 <= bal)
  /\ (forall b, In b (round_bets w) -> 0 <= Bet.cryptoAmount b).
Proof.
  apply (wallets_never_negative 10000 [alice] round1 0
           [ DoPlaceBet "alice" 50 BTC 5 btc_50000 (mkRand "h1" "t1");
             FireStartGamePhase 3000; Tick 6000;
             DoCashOut "alice" (mkRand "h3" "t3"); Tick 18000 ]).
  - constructor; [|constructor]. intros c. destruct c; vm_compute; discriminate.
  - vm_compute. repeat split; discriminate.
Defined.

End Solvency.

(* ===================================================================== *)
(** ** The multiplier a round ends at *)

Section Peak.
Import GameManager.
Local Open Scope Q_scope.

Lemma Math_max_bounds (a b : Q) : a <= Math_max a b /\ b <= Math_max a b.
Proof.
  unfold Math_max. destruct (Qltb a b) eqn:L.
  - apply Qltb_true in L. split; [apply Qlt_le_weak, L | apply Qle_refl].
  - apply Qltb_false in L. split; [apply Qle_refl | exact L].
Qed.

Lemma truthy_peak (m : Q) :
  1 <= m -> (if CryptoService.falsy m then 1 else m) = m.
Proof.
  intros H. destruct (CryptoService.falsy m) eqn:F; [|reflexivity].
  exfalso. unfold CryptoService.falsy in F. apply Z.eqb_eq in F.
  unfold Qle in H. simpl in H. rewrite F in H. simpl in H. lia.
Qed.

Lemma peak_ok_step (w : World) (a : Action) :
  round_ok w -> peak_ok w -> peak_ok (step w a).
Proof.
  intros H P. unfold round_ok in H. unfold peak_ok in P.
  destruct a as [now | d now | now | pid usd c now feed rand
                 | pid rand | | doc pid usd c price rand
                 | bet wallet' rand]; cbn [step].
  - unfold pending. destruct (existsb _ _) eqn:X; [|exact P].
    unfold startGamePhase. cbn [currentRound fired].
    destruct (currentRound w) as [r|] eqn:R;
      [|unfold peak_ok; cbn; rewrite R; exact I].
    destruct P as (P1 & P2 & P3). unfold peak_ok. cbn.
    split; [exact P1|]. split; [intros _; exact P1 | discriminate].
  - unfold pending. destruct (existsb _ _) eqn:X; [|exact P].
    unfold startNewRound, peak_ok. cbn.
    split; [discriminate|]. split; discriminate.
  - destruct (intervals w); [exact P|].
    unfold updateMultiplier.
    destruct (currentRound w) as [r|] eqn:R;
      [|unfold peak_ok; rewrite R; exact I].
    destruct (isGameActive w) eqn:A; cbn [negb];
      [|unfold peak_ok; rewrite R; exact P].
    destruct H as (Hcp & _ & Hst & _). destruct P as (P1 & _).
    rewrite (truthy_peak _ P1).
    destruct (Math_max_bounds (GameRound.maxMultiplier r)
                (multiplier_at w now)) as [B1 B2].
    destruct (Qgeb _ _) eqn:G.
    + match goal with
      | |- peak_ok (crashGame ?x now) =>
          destruct (crashGame_running x now
                      (set_maxMultiplier r
                         (Math_max (GameRound.maxMultiplier r)
                            (multiplier_at w now))))
            as (C1 & _ & C3 & _)
      end; try reflexivity; try exact A.
      { cbn. rewrite Hst. discriminate. }
      unfold peak_ok. rewrite C1, C3. cbn.
      split; [eapply Qle_trans; eassumption|]. split; [discriminate|].
      intros _. split; [|split; [exact B2 | discriminate]].
      apply Qle_bool_iff. exact G.
    + unfold peak_ok. cbn.
      split; [eapply Qle_trans; eassumption|].
      split; [intros _; exact B2|]. rewrite Hst. discriminate.
  - unfold placeBet.
    destruct (currentRound w) as [r|] eqn:R;
      [|unfold peak_ok; cbn; rewrite R; exact I].
    destruct (negb _); [unfold peak_ok; cbn; rewrite R; exact P|].
    destruct (CryptoService.run_call _ _) as [cs [price | msg]];
      [|unfold peak_ok; cbn; rewrite R; exact P].
    cbn [players set_cryptoService].
    destruct (Player.findOne (players w) pid) as [p|];
      [destruct (Qltb _ _)|];
      try (unfold peak_ok; cbn; rewrite R; exact P).
    unfold peak_ok. cbn. exact P.
  - unfold cashOut.
    destruct (currentRound w) as [r|] eqn:R;
      [|unfold peak_ok; cbn; rewrite R; exact I].
    destruct (isGameActive w); cbn [negb];
      [|unfold peak_ok; cbn; rewrite R; exact P].
    destruct (find _ _) as [bet|];
      [|unfold peak_ok; cbn; rewrite R; exact P].
    cbn [players set_currentRound].
    destruct (Player.findOne (players w) pid) as [p|]; cbn [fst].
    + match goal with
      | |- peak_ok (emit (updatePlayerStats ?x ?a ?b ?c) _ _) =>
          destruct (updatePlayerStats_frame x a b c) as [db ->]
      end.
      unfold peak_ok. cbn. exact P.
    + unfold peak_ok. cbn. exact P.
  - unfold stop. destruct (multiplierInterval w); exact P.
  - unfold placeBet_debit_stage.
    destruct doc as [p|]; [destruct (Qltb _ _)|]; exact P.
  - unfold placeBet_record_stage.
    destruct (currentRound w) as [r|] eqn:R;
      [|unfold peak_ok; cbn; rewrite R; exact I].
    unfold peak_ok. cbn. exact P.
Qed.

(** X6.  How a round ends.  In every execution of a started engine whose
    rounds are drawn with a crash point above 1, a crashed current round has
    an end time and the game is flagged inactive; the multiplier it was
    ended at (the [finalMultiplier] of the [round:crashed] event) has
    reached the crash point, it may exceed it, and is not above the
    [maxMultiplier] recorded; and every cash-out multiplier recorded on the
    round is strictly below it. *)
Theorem crashed_round_final (cacheTimeout : Z) (db : list Player.t)
    (d : Draw) (now : Z) (acts : list Action) (r : Round) :
  valid_draw d -> Forall valid_action acts ->
  let w := run (start (create cacheTimeout db) d now) acts in
  currentRound w = Some r -> GameRound.status r = crashed ->
  isGameActive w = false
  /\ GameRound.endTime r <> None
  /\ GameRound.crashPoint r <= currentMultiplier w
  /\ currentMultiplier w <= GameRound.maxMultiplier r
  /\ forall b m, In b (GameRound.bets r) ->
                 Bet.cashoutMultiplier b = Some m -> m < currentMultiplier w.
Proof.
  intros Hd Hacts w R Hst.
  assert (HP : round_ok w /\ peak_ok w).
  { subst w.
    assert (H0 : round_ok (start (create cacheTimeout db) d now)
                 /\ peak_ok (start (create cacheTimeout db) d now)).
    { split; [apply round_ok_start, Hd|].
      unfold peak_ok. cbn. split; [discriminate|]. split; discriminate. }
    clear R. revert H0. generalize (start (create cacheTimeout db) d now).
    induction Hacts as [|a acts Ha Hacts IH]; intros x [Hx Px];
      [split; assumption|].
    cbn [run fold_left]. apply (IH (step x a)). split.
    - apply round_ok_step; assumption.
    - apply peak_ok_step; assumption. }
  destruct HP as [H P]. unfold round_ok in H. unfold peak_ok in P.
  rewrite R in H, P. destruct H as (Hcp & Hbets & Hph).
  destruct P as (_ & _ & P3). destruct (P3 Hst) as (F1 & F2 & F3).
  split.
  { destruct (isGameActive w); [|reflexivity].
    destruct Hph as [E _]. congruence. }
  repeat split; try assumption.
  intros b m Hin Hm. rewrite Forall_forall in Hbets.
  eapply Qlt_le_trans; [apply (Hbets b Hin m Hm) | exact F1].
Qed.

Lemma crashed_round_final_witness :
  let w := run (start (create 10000 [alice]) round1 0)
             [ DoPlaceBet "alice" 50 BTC 5 btc_50000 (mkRand "h1" "t1");
               DoPlaceBet "alice" 50 BTC 6 btc_50000 (mkRand "h2" "t2");
               FireStartGamePhase 3000; Tick 6000; Tick 18000 ] in
  isGameActive w = false
  /\ GameRound.endTime crashed_round <> None
  /\ GameRound.crashPoint crashed_round <= currentMultiplier w
  /\ currentMultiplier w <= GameRound.maxMultiplier crashed_round
  /\ forall b m, In b (GameRound.bets crashed_round) ->
                 Bet.cashoutMultiplier b = Some m ->
                 m < currentMultiplier w.
Proof.
  apply (crashed_round_final 10000 [alice] round1 0
           [ DoPlaceBet "alice" 50 BTC 5 btc_50000 (mkRand "h1" "t1");
             DoPlaceBet "alice" 50 BTC 6 btc_50000 (mkRand "h2" "t2");
             FireStartGamePhase 3000; Tick 6000; Tick 18000 ]
           crashed_round).
  - reflexivity.
  - repeat constructor.
  - vm_compute. reflexivity.
  - reflexivity.
Defined.

End Peak.

(* ===================================================================== *)
(** ** A bet from placement to payout *)

Section RoundTrip.
Import GameManager.
Local Open Scope Q_scope.

Lemma find_app_none {A : Type} (f : A -> bool) (l : list A) (x : A) :
  find f l = None -> f x = true -> find f (l ++ [x]) = Some x.
Proof.
  induction l as [|y l IH]; simpl; intros H Hx.
  - rewrite Hx. reflexivity.
  - destruct (f y); [discriminate | apply IH; assumption].
Qed.

Lemma find_app_false {A : Type} (f : A -> bool) (l : list A) (x : A) :
  find f l = None -> f x = false -> find f (l ++ [x]) = None.
Proof.
  induction l as [|y l IH]; simpl; intros H Hx.
  - rewrite Hx. reflexivity.
  - destruct (f y); [discriminate | apply IH; assumption].
Qed.

Lemma mark_first_app_none (pid : string) (m : Q) (po : Payout.t)
    (l : list Bet.t) (x : Bet.t) :
  find (unsettled pid) l = None -> unsettled pid x = true ->
  mark_first pid m po (l ++ [x]) = (l ++ [settled x m po])%list.
Proof.
  induction l as [|y l IH]; simpl; intros H Hx.
  - rewrite Hx. reflexivity.
  - destruct (unsettled pid y); [discriminate|].
    rewrite IH; [reflexivity | exact H | exact Hx].
Qed.

(** The world an accepted [placeBet] on doubles leaves behind. *)
Lemma placeBet_rounded_world (fl : Q -> Q) (w w1 : World) (pid : string)
    (usd : Q) (c : Currency) (t : Z) (feed : CryptoService.Feed)
    (rand : Rand) (bet : Bet.t) :
  placeBet_rounded fl w pid usd c t feed rand = (w1, Ok bet) ->
  exists r p price,
    currentRound w = Some r
    /\ Player.findOne (players w) pid = Some p
    /\ bet = Bet.mk pid usd (fl (usd / price)) c price false None None
               (txHash rand)
    /\ currentRound w1 = Some (set_bets r (GameRound.bets r ++ [bet]))
    /\ players w1
       = Player.save (players w)
           (Player.mk (Player.playerId p) (Player.username p)
              (Wallet.set (Player.wallet p) c
                 (fl (Wallet.get (Player.wallet p) c - fl (usd / price))))
              (Player.totalGamesPlayed p) (Player.totalWon p)
              (Player.totalLost p)).
Proof.
  unfold placeBet_rounded.
  destruct (currentRound w) as [r|] eqn:R; [|discriminate].
  destruct (negb _); [discriminate|].
  destruct (CryptoService.run_call _ _) as [cs [price | msg]];
    [|discriminate].
  cbn [players set_cryptoService].
  destruct (Player.findOne (players w) pid) as [p|] eqn:F; [|discriminate].
  destruct (Qltb _ _); [discriminate|].
  intros [= <- <-]. exists r, p, price. repeat split.
Qed.

(** The fields of the manager after a tick on doubles that leaves the
    round running. *)
Lemma tick_rounded_survived (fl : Q -> Q) (w : World) (r : Round) (t1 : Z) :
  currentRound w = Some r -> isGameActive w = true ->
  GameRound.status r = active ->
  phase (updateMultiplier_rounded fl w t1) = Some active ->
  isGameActive (updateMultiplier_rounded fl w t1) = true
  /\ currentMultiplier (updateMultiplier_rounded fl w t1)
     = multiplier_at_rounded fl w t1
  /\ (exists peak,
        currentRound (updateMultiplier_rounded fl w t1)
        = Some (set_maxMultiplier r peak))
  /\ players (updateMultiplier_rounded fl w t1) = players w.
Proof.
  intros R A Hst. unfold updateMultiplier_rounded. rewrite R, A.
  cbn [negb]. destruct (Qgeb _ _) eqn:G.
  - match goal with
    | |- phase (crashGame_rounded fl ?x t1) = _ -> _ =>
        destruct (crashGame_rounded_running fl x t1
                    (set_maxMultiplier r
                       (Math_max
                          (if CryptoService.falsy (GameRound.maxMultiplier r)
                           then 1 else GameRound.maxMultiplier r)
                          (multiplier_at_rounded fl w t1))))
          as (C1 & _)
    end; try reflexivity; try exact A.
    { cbn. rewrite Hst. discriminate. }
    unfold phase. rewrite C1. cbn. discriminate.
  - intros _. cbn. rewrite A. repeat split. eexists. reflexivity.
Qed.

(** The trace for any rounding and the multiplier [m] it gives. *)
Lemma bet_then_cashout_rounded (fl : Q -> Q) (w : World) (pid : string)
    (usd : Q) (c : Currency) (t : Z) (feed : CryptoService.Feed)
    (rand rand' rand'' : Rand) (t0 t1 : Z) (w1 : World) (bet : Bet.t)
    (m : Q) :
  find (unsettled pid) (round_bets w) = None ->
  placeBet_rounded fl w pid usd c t feed rand = (w1, Ok bet) ->
  let w2 := updateMultiplier_rounded fl (startGamePhase w1 t0) t1 in
  phase w2 = Some active ->
  fl (1 + fl (fl (inject_Z (t1 - t0) / 1000) * fl (1 # 10))) = m ->
  let cryptoPayout := fl (Bet.cryptoAmount bet * m) in
  let usdPayout := fl (cryptoPayout * Bet.priceAtTime bet) in
  let out := cashOut_rounded fl w2 pid rand' in
  exists bal,
    balance w pid c = Some bal
    /\ Bet.cryptoAmount bet = fl (usd / Bet.priceAtTime bet)
    /\ currentMultiplier w2 = m
    /\ snd out = Ok (mkCashOut m (Payout.mk cryptoPayout usdPayout))
    /\ balance (fst out) pid c
       = Some (fl (fl (bal - Bet.cryptoAmount bet) + cryptoPayout))
    /\ round_bets (fst out)
       = (round_bets w
          ++ [settled bet m (Payout.mk cryptoPayout usdPayout)])%list
    /\ cashOut_rounded fl (fst out) pid rand'' = (fst out, Err NoActiveBet).
Proof.
  intros Hnone PB w2 Hact M cryptoPayout usdPayout out.
  destruct (placeBet_rounded_world fl w w1 pid usd c t feed rand bet PB)
    as (r & p & price & R & F & Eb & R1 & P1).
  unfold round_bets in Hnone. rewrite R in Hnone.
  pose proof (findOne_playerId _ _ _ F) as Hid.
  set (p1 := Player.mk (Player.playerId p) (Player.username p)
               (Wallet.set (Player.wallet p) c
                  (fl (Wallet.get (Player.wallet p) c - fl (usd / price))))
               (Player.totalGamesPlayed p) (Player.totalWon p)
               (Player.totalLost p)) in *.
  set (wa := startGamePhase w1 t0) in *.
  assert (Wa : currentRound wa
               = Some (set_status (set_bets r (GameRound.bets r ++ [bet]))
                         active)
               /\ isGameActive wa = true
               /\ gameStartTime wa = Some t0
               /\ players wa = players w1).
  { subst wa. unfold startGamePhase. rewrite R1. cbn. repeat split. }
  destruct Wa as (Ra & Aa & Ga & Pa). clearbody wa.
  destruct (tick_rounded_survived fl wa _ t1 Ra Aa eq_refl Hact)
    as (A2 & M2 & (peak & R2) & P2).
  fold w2 in A2, M2, R2, P2.
  assert (Hm : currentMultiplier w2 = m).
  { rewrite M2. unfold multiplier_at_rounded. rewrite Ga. exact M. }
  clearbody w2.
  assert (F2 : document w2 pid = Some p1).
  { unfold document. rewrite P2, Pa, P1.
    apply (findOne_save_same _ pid p); [exact F | exact Hid]. }
  assert (Ub : unsettled pid bet = true).
  { rewrite Eb. unfold unsettled. cbn. rewrite String.eqb_refl.
    reflexivity. }
  assert (U : find (unsettled pid)
                (GameRound.bets
                   (set_maxMultiplier
                      (set_status (set_bets r (GameRound.bets r ++ [bet]))
                         active) peak))
              = Some bet).
  { cbn [GameRound.bets set_maxMultiplier set_status set_bets round_with].
    apply find_app_none; [exact Hnone | exact Ub]. }
  destruct (cashOut_rounded_paid fl w2 pid rand' _ bet p1 R2 A2 U F2)
    as (H1 & H2 & _ & _ & H5 & H6).
  rewrite Hm in H1, H2, H5. fold cryptoPayout in H1, H2, H5.
  fold usdPayout in H1, H2, H5. fold out in H1, H2, H5, H6.
  clearbody out.
  cbn [GameRound.bets set_maxMultiplier set_status set_bets round_with]
    in H5.
  rewrite (mark_first_app_none _ _ _ _ _ Hnone Ub) in H5.
  assert (Ec : Bet.cryptocurrency bet = c) by (rewrite Eb; reflexivity).
  assert (Ea : Bet.cryptoAmount bet = fl (usd / price))
    by (rewrite Eb; reflexivity).
  assert (Ep : Bet.priceAtTime bet = price) by (rewrite Eb; reflexivity).
  exists (Wallet.get (Player.wallet p) c).
  split; [unfold balance; rewrite F; reflexivity|].
  split; [rewrite Ep; exact Ea|]. split; [exact Hm|]. split; [exact H1|].
  split.
  { unfold balance. unfold document in H2. rewrite H2. cbn [option_map
      Player.wallet]. rewrite Ec, Wallet_get_set.
    replace (Currency_eqb c c) with true by (destruct c; reflexivity).
    cbn [p1 Player.wallet]. rewrite Wallet_get_set.
    replace (Currency_eqb c c) with true by (destruct c; reflexivity).
    rewrite Ea. reflexivity. }
  split; [unfold round_bets; rewrite H5, R; reflexivity|].
  unfold cashOut_rounded. rewrite H5, H6. cbn [negb].
  cbn [GameRound.bets set_bets round_with].
  rewrite (find_app_false _ _ _ Hnone); [reflexivity|].
  unfold unsettled. cbn. apply andb_false_r.
Qed.

(** X10.  From placement to payout, on doubles, each call running to
    completion with nothing else in between, for amounts that are not
    negative and numbers of moderate size.  A player without an open bet in
    the round places one in the betting window; the window ends at [t0]; the
    tick at [t1] leaves the round running; then the player cashes out.  The
    cash-out succeeds, at the multiplier [1 + (t1 - t0) / 1000 * 0.1]; it
    pays the crypto amount of the bet times the multiplier, and the balance
    in the currency of the bet is the one before the bet, less the crypto
    amount staked, plus the payout, each operation rounded.  It settles the
    bet that was placed and no other, so that a further cash-out is refused
    with [NoActiveBet]. *)
Theorem bet_then_cashout (w : World) (pid : string) (usd : Q) (c : Currency)
    (t : Z) (feed : CryptoService.Feed) (rand rand' rand'' : Rand)
    (t0 t1 : Z) (w1 : World) (bet : Bet.t) :
  find (unsettled pid) (round_bets w) = None ->
  let fl := Binary64.binary64 in
  placeBet_rounded fl w pid usd c t feed rand = (w1, Ok bet) ->
  0 <= Bet.cryptoAmount bet -> 0 <= Bet.priceAtTime bet -> tame w1 ->
  (t0 <= t1 < t0 + 2 ^ 53)%Z ->
  let w2 := updateMultiplier_rounded fl (startGamePhase w1 t0) t1 in
  phase w2 = Some active ->
  let m := fl (1 + fl (fl (inject_Z (t1 - t0) / 1000) * fl (1 # 10))) in
  let cryptoPayout := fl (Bet.cryptoAmount bet * m) in
  let usdPayout := fl (cryptoPayout * Bet.priceAtTime bet) in
  let out := cashOut_rounded fl w2 pid rand' in
  exists bal,
    balance w pid c = Some bal
    /\ Bet.cryptoAmount bet = fl (usd / Bet.priceAtTime bet)
    /\ currentMultiplier w2 = m
    /\ snd out = Ok (mkCashOut m (Payout.mk cryptoPayout usdPayout))
    /\ balance (fst out) pid c
       = Some (fl (fl (bal - Bet.cryptoAmount bet) + cryptoPayout))
    /\ round_bets (fst out)
       = (round_bets w
          ++ [settled bet m (Payout.mk cryptoPayout usdPayout)])%list
    /\ cashOut_rounded fl (fst out) pid rand'' = (fst out, Err NoActiveBet).
Proof.
  intros Hnone fl PB _ _ _ _ w2 Hact m.
  apply (bet_then_cashout_rounded fl w pid usd c t feed rand rand' rand''
           t0 t1 w1 bet m Hnone PB Hact eq_refl).
Qed.

Lemma bet_then_cashout_witness :
  let fl := Binary64.binary64 in
  let w := betting_open in
  let bet :=
    Bet.mk "alice" 50 (fl (50 / 50000)) BTC 50000 false None None "h1" in
  let w1 := fst (placeBet_rounded fl w "alice" 50 BTC 5 btc_50000
                   (mkRand "h1" "t1")) in
  let w2 := updateMultiplier_rounded fl (startGamePhase w1 3000) 6000 in
  let m := fl (1 + fl (fl (inject_Z (6000 - 3000) / 1000) * fl (1 # 10))) in
  let cryptoPayout := fl (Bet.cryptoAmount bet * m) in
  let usdPayout := fl (cryptoPayout * Bet.priceAtTime bet) in
  let out := cashOut_rounded fl w2 "alice" (mkRand "h3" "t3") in
  exists bal,
    balance w "alice" BTC = Some bal
    /\ Bet.cryptoAmount bet = fl (50 / Bet.priceAtTime bet)
    /\ currentMultiplier w2 = m
    /\ snd out = Ok (mkCashOut m (Payout.mk cryptoPayout usdPayout))
    /\ balance (fst out) "alice" BTC
       = Some (fl (fl (bal - Bet.cryptoAmount bet) + cryptoPayout))
    /\ round_bets (fst out)
       = (round_bets w
          ++ [settled bet m (Payout.mk cryptoPayout usdPayout)])%list
    /\ cashOut_rounded fl (fst out) "alice" (mkRand "h4" "t4")
       = (fst out, Err NoActiveBet).
Proof.
  apply (bet_then_cashout betting_open "alice" 50 BTC 5 btc_50000
           (mkRand "h1" "t1") (mkRand "h3" "t3") (mkRand "h4" "t4")
           3000 6000
           (fst (placeBet_rounded Binary64.binary64 betting_open "alice" 50
                   BTC 5 btc_50000 (mkRand "h1" "t1")))
           (Bet.mk "alice" 50 (Binary64.binary64 (50 / 50000)) BTC 50000
              false None None "h1")).
  - reflexivity.
  - vm_compute. reflexivity.
  - vm_compute. discriminate.
  - vm_compute. discriminate.
  - split; [vm_compute; reflexivity|]. split.
    + apply Forall_forall. intros b Hin. vm_compute in Hin.
      destruct Hin as [<- | []]; repeat split; vm_compute; reflexivity.
    + apply Forall_forall. intros p Hin. vm_compute in Hin.
      destruct Hin as [<- | []]. split; [vm_compute; reflexivity|].
      intros c. destruct c; vm_compute; reflexivity.
  - lia.
  - vm_compute. reflexivity.
Defined.

End RoundTrip.
